(** * The ccc workflow engine: parser, validator and executor

    A shallow embedding of [bin/lib/workflow_parser.py],
    [bin/lib/workflow_validator.py] and [bin/lib/workflow_executor.py].

    Python strings are [string]; Python lists are [list]; Python sets of
    strings are [gset string]; dictionaries whose iteration order is
    observable are association lists kept in insertion order.  Mutable
    lists and local variables that outlive an exception are threaded as
    explicit state.  Probes of the outside world (file existence, the
    outcome of running a stage) are read from an environment record. *)

From Stdlib Require Import String Ascii List ZArith QArith Lia Lqa.
From stdpp Require Import base decidable option list sets gmap strings pretty relations.

Set Warnings "-register-all,-clear-no-such-hyp".

Open Scope string_scope.
Open Scope nat_scope.

(** ** Data model ([workflow_parser.py], the two dataclasses) *)

(** An entry of [WorkflowDefinition.inputs].  The dataclass declares
    [Dict[str, str]]; the validator also accepts a dictionary with the keys
    [location] and [fallback_method], of which only the truth value of the
    second is read. *)
Inductive input_info :=
| InputStr (location : string)
| InputDict (location : option string) (fallback_method : bool).

Record WorkflowStage := mkStage {
  name : string;
  description : string;
  dependencies : list string;
  recommended_agents : list string;
  suggested_mcps : list string;
  parallel_tasks : list string;
  success_criteria : list string;
  stage_expected_outputs : list string;
  expected_correlations : list string;
  warnings_of_stage : list string
}.

(** Python values a parameter can hold. *)
Inductive pyvalue :=
| PyNone
| PyBool (b : bool)
| PyInt (z : Z)
| PyStr (s : string)
| PyList (elts : list pyvalue)
| PyDict (items : list (pyvalue * pyvalue)).

(** The fields carry the types the dataclass declares, but for
    [client_slug]: [parse_suggested] fills it with
    [parameters.get('client_slug')], which is whatever [_parse_parameters]
    stored for the key, a string or the value of a Python literal, and
    [None] without the key.  [parameters] itself is left out here because
    neither the validator nor the executor's control flow reads it (its
    construction is embedded with the parser below). *)
Record WorkflowDefinition := mkWorkflow {
  wf_name : string;
  wf_description : string;
  goal : string;
  context : string;
  requirements : list string;
  expected_challenges : list string;
  inputs : list (string * input_info);
  stages : list WorkflowStage;
  expected_outputs : list string;
  template_selection : option string;
  client_slug : pyvalue;
  estimated_time : option Z
}.

(** Python exceptions, by class name and message. *)
Record exn := mkExn { exn_class : string; exn_msg : string }.

(** ** Small string library (the [str] methods the code calls) *)

Fixpoint startswith (p s : string) : bool :=
  match p, s with
  | EmptyString, _ => true
  | String a p', String b s' => if Ascii.eqb a b then startswith p' s' else false
  | String _ _, EmptyString => false
  end.

(** [sub in s] for strings. *)
Fixpoint contains (sub s : string) : bool :=
  startswith sub s ||
  match s with
  | EmptyString => false
  | String _ s' => contains sub s'
  end.

Definition lower_ascii (c : ascii) : ascii :=
  let n := nat_of_ascii c in
  if (65 <=? n) && (n <=? 90) then ascii_of_nat (n + 32) else c.

Fixpoint lower (s : string) : string :=
  match s with
  | EmptyString => EmptyString
  | String c s' => String (lower_ascii c) (lower s')
  end.

(** [sep.join(l)]. *)
Fixpoint join (sep : string) (l : list string) : string :=
  match l with
  | [] => ""
  | [x] => x
  | x :: rest => x ++ sep ++ join sep rest
  end.

(** ** Cycle detection ([WorkflowValidator._has_circular_dependencies]) *)

(** [f"Stage {i+1}"] for the 0-based position [i]. *)
Definition stage_label (i : nat) : string := "Stage " ++ pretty (S i).

(** The local [graph]: a Python dict from labels to dependency lists. *)
Definition pydict := list (string * list string).

Fixpoint dict_set (k : string) (v : list string) (d : pydict) : pydict :=
  match d with
  | [] => [(k, v)]
  | (k', v') :: d' =>
      if String.eqb k k' then (k, v) :: d' else (k', v') :: dict_set k v d'
  end.

(** [graph.get(node, [])]. *)
Fixpoint dict_get (d : pydict) (k : string) : list string :=
  match d with
  | [] => []
  | (k', v') :: d' => if String.eqb k k' then v' else dict_get d' k
  end.

Definition dict_keys (d : pydict) : list string := map fst d.

Fixpoint build_graph (i : nat) (sts : list WorkflowStage) (graph : pydict) : pydict :=
  match sts with
  | [] => graph
  | st :: rest => build_graph (S i) rest (dict_set (stage_label i) (dependencies st) graph)
  end.

(** The two mutable sets of the traversal: [visited] and [rec_stack]. *)
Definition dfs_state := (gset string * gset string)%type.

(** The [for neighbor in graph.get(node, [])] loop of [has_cycle], with the
    recursive call passed in.  [None] stands for a recursion that ran out
    of depth. *)
Fixpoint scan_neighbors (visit : string -> dfs_state -> option (bool * dfs_state))
    (ns : list string) (st : dfs_state) : option (bool * dfs_state) :=
  match ns with
  | [] => Some (false, st)
  | neighbor :: ns' =>
      if bool_decide (neighbor ∉ st.1) then
        match visit neighbor st with
        | None => None
        | Some (true, st') => Some (true, st')
        | Some (false, st') => scan_neighbors visit ns' st'
        end
      else if bool_decide (neighbor ∈ st.2) then Some (true, st)
      else scan_neighbors visit ns' st
  end.

(** The nested function [has_cycle(node, visited, rec_stack)]; [depth] is
    the number of nested calls that the interpreter still allows, and a call
    beyond it raises [RecursionError]. *)
Fixpoint has_cycle (depth : nat) (graph : pydict) (node : string) (st : dfs_state)
    : option (bool * dfs_state) :=
  match depth with
  | O => None
  | S depth' =>
      let st1 : dfs_state := ({[node]} ∪ st.1, {[node]} ∪ st.2) in
      match scan_neighbors (has_cycle depth' graph) (dict_get graph node) st1 with
      | None => None
      | Some (true, st') => Some (true, st')
      | Some (false, (visited, rec_stack)) => Some (false, (visited, rec_stack ∖ {[node]}))
      end
  end.

(** The [for node in graph] loop: every root gets a fresh [rec_stack], the
    [visited] set is shared. *)
Fixpoint scan_roots (depth : nat) (graph : pydict) (roots : list string)
    (visited : gset string) : option bool :=
  match roots with
  | [] => Some false
  | node :: rest =>
      if bool_decide (node ∉ visited) then
        match has_cycle depth graph node (visited, ∅) with
        | None => None
        | Some (true, _) => Some true
        | Some (false, (visited', _)) => scan_roots depth graph rest visited'
        end
      else scan_roots depth graph rest visited
  end.

(** Every label that occurs in the graph, as key or as dependency. *)
Definition graph_nodes (graph : pydict) : list string :=
  flat_map (fun kv => fst kv :: snd kv) graph.

(** [room] is the number of nested calls of [has_cycle] that fit under the
    interpreter's recursion limit where the check is called; [None] is a
    traversal that nests deeper, on which Python raises [RecursionError]. *)
Definition _has_circular_dependencies (room : nat) (sts : list WorkflowStage) : option bool :=
  let graph := build_graph 0 sts [] in
  scan_roots room graph (dict_keys graph) ∅.

(** ** The validator ([workflow_validator.py]) *)

Record ValidationResult := mkValidationResult {
  is_valid : bool;
  agents_available : bool;
  mcps_available : bool;
  input_files_valid : bool;
  no_conflicts : bool;
  errors : list string;
  warnings : list string;
  suggestions : list string
}.

(** What the validator reads from outside the workflow.  Paths are kept as
    strings.  [path_probe p] is the outcome of [p.exists()] in
    [_validate_input_files]: the answer, or the [OSError] that [pathlib]
    lets through (a path longer than the system takes, a directory that may
    not be searched).  [recursion_room] is the call depth left for
    [has_cycle].  [set_order] is the order in which Python iterates a set of
    strings. *)
Record validator_env := mkValidatorEnv {
  ccc_root : string;
  available_agents : list string;
  agent_capabilities : string -> bool;
  path_probe : string -> exn + bool;
  recursion_room : nat;
  set_order : gset string -> list string;
  set_order_perm : forall s, set_order s ≡ₚ elements s
}.

(** The path exists: the probe answers, and answers [True]. *)
Definition path_exists (env : validator_env) (p : string) : bool :=
  match path_probe env p with inr b => b | inl _ => false end.

(** The three lists [errors], [warnings], [suggestions] that
    [validate_workflow] allocates and passes to every check. *)
Record report := mkReport {
  r_errors : list string;
  r_warnings : list string;
  r_suggestions : list string
}.

(** Computations over a mutable state [S] that may raise; the state keeps
    what was written before the raise.  [V] is the instance over the three
    shared lists. *)
Definition SE (S A : Type) : Type := S -> (exn + A) * S.

Definition vret {S A} (a : A) : SE S A := fun r => (inr a, r).

Definition vbind {S A B} (m : SE S A) (k : A -> SE S B) : SE S B :=
  fun r => match m r with
           | (inl e, r') => (inl e, r')
           | (inr a, r') => k a r'
           end.

Definition vraise {S A} (e : exn) : SE S A := fun r => (inl e, r).

(** [try: m except Exception as e: handler e]. *)
Definition vtry {S A} (m : SE S A) (handler : exn -> SE S A) : SE S A :=
  fun r => match m r with
           | (inl e, r') => handler e r'
           | (inr a, r') => (inr a, r')
           end.

Definition vget {S} : SE S S := fun r => (inr r, r).
Definition vmodify {S} (f : S -> S) : SE S unit := fun r => (inr tt, f r).

Notation "x <~ m ;; k" := (vbind m (fun x => k))
  (at level 100, m at next level, right associativity).
Notation "m ;;; k" := (vbind m (fun _ => k))
  (at level 100, right associativity).

Definition vwhen {S} (b : bool) (m : SE S unit) : SE S unit := if b then m else vret tt.

Fixpoint vfor {S A} (l : list A) (body : A -> SE S unit) : SE S unit :=
  match l with
  | [] => vret tt
  | x :: rest => body x ;;; vfor rest body
  end.

(** A loop that also updates a local variable of type [B]. *)
Fixpoint vfold {S A B} (l : list A) (acc : B) (body : B -> A -> SE S B) : SE S B :=
  match l with
  | [] => vret acc
  | x :: rest => acc' <~ body acc x ;; vfold rest acc' body
  end.

Definition V (A : Type) : Type := SE report A.

Definition errors_append (s : string) : V unit :=
  fun r => (inr tt, mkReport (r_errors r ++ [s]) (r_warnings r) (r_suggestions r)).
Definition warnings_append (s : string) : V unit :=
  fun r => (inr tt, mkReport (r_errors r) (r_warnings r ++ [s]) (r_suggestions r)).
Definition suggestions_append (s : string) : V unit :=
  fun r => (inr tt, mkReport (r_errors r) (r_warnings r) (r_suggestions r ++ [s])).

(** Truth value of a string, of an optional string. *)
Definition str_truthy (s : string) : bool := negb (String.eqb s "").
Definition opt_truthy (o : option string) : bool :=
  match o with Some s => str_truthy s | None => false end.

(** [pathlib]'s [/] on the string form of the paths. *)
Definition path_join (a b : string) : string := a ++ "/" ++ b.

Definition is_nil {A} (l : list A) : bool := match l with [] => true | _ => false end.

(** Truth value and [type(v).__name__] of a Python value. *)
Definition py_truthy (v : pyvalue) : bool :=
  match v with
  | PyNone => false
  | PyBool b => b
  | PyInt z => negb (z =? 0)%Z
  | PyStr s => str_truthy s
  | PyList elts => negb (is_nil elts)
  | PyDict items => negb (is_nil items)
  end.
Definition type_name (v : pyvalue) : string :=
  match v with
  | PyNone => "NoneType"
  | PyBool _ => "bool"
  | PyInt _ => "int"
  | PyStr _ => "str"
  | PyList _ => "list"
  | PyDict _ => "dict"
  end.

(** [self.ccc_root / 'seo-projects' / workflow.client_slug]: [pathlib] joins
    a string and raises [TypeError] on a value of another type. *)
Definition client_path (env : validator_env) (slug : pyvalue) : V string :=
  match slug with
  | PyStr s => vret (path_join (path_join (ccc_root env) "seo-projects") s)
  | v => vraise (mkExn "TypeError"
                   ("unsupported operand type(s) for /: 'PosixPath' and '" ++
                    type_name v ++ "'"))
  end.

(** [p.exists()]. *)
Definition exists_probe (env : validator_env) (p : string) : V bool :=
  match path_probe env p with inl e => vraise e | inr b => vret b end.

Definition _discover_available_mcps : list string :=
  [ "sequential_thinking"; "firecrawl"; "fetch"; "dataforseo"; "chart-mcp";
    "data-explorer"; "Context7"; "ref-tools-mcp"; "screenshot-website-fast";
    "perplexity-ask"; "gsc-mcp"; "pylint-mcp"; "bandit-mcp"; "lighthouse-mcp" ].

Definition _suggest_agent_alternatives (missing_agent : string) (available : list string)
    : list string :=
  let alternatives :=
    if contains "SEO" missing_agent then
      filter (fun a => contains "SEO" a || contains "Benchmark" a = true) available
    else if contains "Codebase" missing_agent then
      filter (fun a => contains "Feature" a || contains "Quality" a = true) available
    else if contains "Metrics" missing_agent then
      filter (fun a => contains "Report" a || contains "Data" a = true) available
    else [] in
  take 3 alternatives.

Definition _suggest_mcp_alternatives (missing_mcp : string) (available : list string)
    : list string :=
  let alternatives :=
    if contains "dataforseo" (lower missing_mcp) then
      filter (fun m => contains "firecrawl" (lower m) || contains "perplexity" (lower m) = true)
             available
    else if contains "chart" (lower missing_mcp) then
      filter (fun m => contains "visual" (lower m) = true) available
    else if contains "gsc" (lower missing_mcp) then
      filter (fun m => contains "dataforseo" (lower m) = true) available
    else [] in
  take 3 alternatives.

Definition _validate_agents (env : validator_env) (workflow : WorkflowDefinition) : V bool :=
  let available := available_agents env in
  let required_agents : gset string :=
    foldl (fun acc st => acc ∪ list_to_set (recommended_agents st)) ∅ (stages workflow) in
  let missing_agents := required_agents ∖ list_to_set available in
  if negb (bool_decide (missing_agents = ∅)) then
    vfor (set_order env missing_agents) (fun agent =>
      errors_append ("Agent not available: " ++ agent) ;;;
      let alternatives := _suggest_agent_alternatives agent available in
      vwhen (negb (is_nil alternatives))
        (suggestions_append
           ("Alternative agents for " ++ agent ++ ": " ++ join ", " alternatives))) ;;;
    vret false
  else
    vfor (stages workflow) (fun st =>
      vfor (recommended_agents st) (fun agent =>
        vwhen (negb (agent_capabilities env agent))
          (warnings_append ("Could not verify capabilities for agent: " ++ agent)))) ;;;
    vret true.

Definition _validate_mcps (env : validator_env) (workflow : WorkflowDefinition) : V bool :=
  let available := _discover_available_mcps in
  let required_mcps : gset string :=
    foldl (fun acc st => acc ∪ list_to_set (suggested_mcps st)) ∅ (stages workflow) in
  let missing_mcps := required_mcps ∖ list_to_set available in
  if negb (bool_decide (missing_mcps = ∅)) then
    vfor (set_order env missing_mcps) (fun mcp =>
      errors_append ("MCP not available: " ++ mcp) ;;;
      let alternatives := _suggest_mcp_alternatives mcp available in
      vwhen (negb (is_nil alternatives))
        (suggestions_append
           ("Alternative MCPs for " ++ mcp ++ ": " ++ join ", " alternatives))) ;;;
    vret false
  else vret true.

Definition _validate_input_files (env : validator_env) (workflow : WorkflowDefinition) : V bool :=
  let all_valid := true in
  vwhen (py_truthy (client_slug workflow))
    (client_root <~ client_path env (client_slug workflow) ;;
     let client_data_dir := path_join client_root "inputs" in
     found <~ exists_probe env client_data_dir ;;
     vwhen (negb found)
       (warnings_append ("Client data directory does not exist: " ++ client_data_dir) ;;;
        suggestions_append ("Create client directory: mkdir -p " ++ client_data_dir))) ;;;
  vfor (inputs workflow) (fun '(input_name, info) =>
    let input_path :=
      match info with
      | InputDict loc _ => default "" loc
      | InputStr s => s
      end in
    vwhen (str_truthy input_path && startswith "inputs/" input_path)
      (full_path <~
         (if py_truthy (client_slug workflow)
          then client_root <~ client_path env (client_slug workflow) ;;
               vret (path_join client_root input_path)
          else vret input_path) ;;
       found <~ exists_probe env full_path ;;
       vwhen (negb found)
         (if contains "required" (lower input_name)
             || match info with InputDict _ fb => negb fb | InputStr _ => false end
          then
            warnings_append ("Input file not found: " ++ input_path) ;;;
            suggestions_append
              ("Create input file or specify fallback method for: " ++ input_name)
          else warnings_append ("Optional input file not found: " ++ input_path)))) ;;;
  vret all_valid.

Definition _stages_are_sequential (sts : list WorkflowStage) (stage1_idx stage2_idx : nat)
    : bool :=
  if (length sts <=? stage1_idx) || (length sts <=? stage2_idx) then false
  else match sts !! stage2_idx with
       | Some stage2 => bool_decide (stage_label stage1_idx ∈ dependencies stage2)
       | None => false
       end.

Definition _validate_no_conflicts (workflow : WorkflowDefinition) : V bool :=
  let no_conflicts := true in
  vfold (imap (fun i st => (i, st)) (stages workflow))
        ((∅ : gmap string nat), (∅ : gmap string nat))
        (fun usage '(i, st) =>
           agent_usage <~
             vfold (recommended_agents st) (fst usage) (fun agent_usage agent =>
               match agent_usage !! agent with
               | Some prev_stage =>
                   vwhen (negb (_stages_are_sequential (stages workflow) prev_stage i))
                     (warnings_append
                        ("Agent " ++ agent ++ " may be needed by multiple parallel stages") ;;;
                      suggestions_append
                        "Consider using alternative agents or making stages sequential")
               | None => vret tt
               end ;;;
               vret (<[agent := i]> agent_usage)) ;;
           mcp_usage <~
             vfold (suggested_mcps st) (snd usage) (fun mcp_usage mcp =>
               vwhen (bool_decide (is_Some (mcp_usage !! mcp)))
                 (warnings_append
                    ("MCP " ++ mcp ++ " used in multiple stages - check rate limits")) ;;;
               vret (<[mcp := i]> mcp_usage)) ;;
           vret (agent_usage, mcp_usage)) ;;;
  vret no_conflicts.

Definition circular_error : string := "Circular dependencies detected in workflow stages".

(** The text of the [RecursionError] may go on to say where the limit was
    met. *)
Definition _validate_workflow_structure (env : validator_env) (workflow : WorkflowDefinition)
    : V unit :=
  vwhen (is_nil (stages workflow)) (errors_append "Workflow has no stages defined") ;;;
  vwhen (negb (str_truthy (goal workflow)))
    (warnings_append "Workflow goal is not clearly defined") ;;;
  circular <~
    match _has_circular_dependencies (recursion_room env) (stages workflow) with
    | Some b => vret b
    | None => vraise (mkExn "RecursionError" "maximum recursion depth exceeded")
    end ;;
  vwhen circular (errors_append circular_error) ;;;
  match estimated_time workflow with
  | Some t =>
      vwhen (negb (t =? 0)%Z && (480 <? t)%Z)
        (warnings_append ("Estimated time (" ++ pretty t ++ " min) seems excessive") ;;;
         suggestions_append "Consider breaking workflow into smaller parts")
  | None => vret tt
  end.

Definition dangling_error (st : WorkflowStage) (dep : string) : string :=
  "Stage '" ++ name st ++ "' depends on non-existent stage: " ++ dep.

Definition _validate_dependencies (workflow : WorkflowDefinition) : V unit :=
  let stage_names : gset string :=
    list_to_set (map stage_label (seq 0 (length (stages workflow)))) in
  vfor (stages workflow) (fun st =>
    vfor (dependencies st) (fun dep =>
      vwhen (bool_decide (dep ∉ stage_names)) (errors_append (dangling_error st dep)))).

(** [validate_workflow]; [parsed] is the outcome of
    [self.parser.parse_suggested(workflow_path)]. *)
Definition validate_workflow (env : validator_env) (parsed : exn + WorkflowDefinition)
    : exn + ValidationResult :=
  let body : V ValidationResult :=
    workflow <~ (match parsed with inl e => vraise e | inr w => vret w end) ;;
    agents_valid <~ _validate_agents env workflow ;;
    mcps_valid <~ _validate_mcps env workflow ;;
    inputs_valid <~ _validate_input_files env workflow ;;
    no_conflicts <~ _validate_no_conflicts workflow ;;
    _validate_workflow_structure env workflow ;;;
    _validate_dependencies workflow ;;;
    r <~ vget ;;
    vret (mkValidationResult (is_nil (r_errors r)) agents_valid mcps_valid inputs_valid
            no_conflicts (r_errors r) (r_warnings r) (r_suggestions r)) in
  let handler (e : exn) : V ValidationResult :=
    errors_append ("Failed to parse workflow: " ++ exn_msg e) ;;;
    r <~ vget ;;
    vret (mkValidationResult false false false false false
            (r_errors r) (r_warnings r) (r_suggestions r)) in
  fst (vtry body handler (mkReport [] [] [])).

(** ** The executor ([workflow_executor.py]) *)

(** A discovered-insight record, kept by its [insight] text. *)
Record correlation := mkCorrelation { insight : string }.

(** [execution_time] is a difference of wall-clock readings and is left out. *)
Record ExecutionResult := mkExecutionResult {
  success : bool;
  stages_completed : nat;
  total_stages : nat;
  output_directory : option string;
  correlations_found : list correlation;
  error_message : option string;
  partial_results : bool;
  result_estimated_time : option Q
}.

(** [self.exec_config], a dict read with [.get(key, default)]. *)
Record exec_config := mkExecConfig {
  cfg_error_handling : option string;
  cfg_max_retries : option Z;
  cfg_retry_delay : option Z
}.

(** What a run observes of the outside world.  [stage_fault n k] is the
    exception, if any, that the body of [_execute_stage] meets on the
    [k]-th run of stage number [n] (k = 0 for the first run); the other
    fields are the outcomes of the file operations. *)
Record executor_env := mkExecutorEnv {
  config : exec_config;
  parse_suggested : exn + WorkflowDefinition;
  create_output_directory : exn + string;
  save_workflow_config : option exn;
  archive_input_files : option exn;
  stage_fault : nat -> nat -> option exn;
  save_stage_results : nat -> option exn;
  generate_final_reports : option exn
}.

(** What a run logs: a call of [_execute_stage] for a stage number, and a
    back-off [time.sleep] of [_retry_stage].  The pauses inside a stage
    run, the [time.sleep] of one to three seconds with which each
    [_simulate_*] function stands in for the work, belong to that run and
    are not logged: [Sleep] is a back-off between runs and nothing else. *)
Inductive event :=
| Attempt (stage_num : nat)
| Sleep (seconds : Z).

(** The dictionary returned by [_execute_stage] and [_retry_stage]:
    [result['success']], [result.get('correlations', [])] and
    [result.get('error')]. *)
Record stage_result := mkStageResult {
  sr_success : bool;
  sr_correlations : list correlation;
  sr_error : option string
}.

(** The executor's mutable state: the log of stage runs and back-off sleeps,
    [self.output_dir], the local [workflow] of [execute_workflow] (unbound
    until assigned) and the three locals of [_perform_execution] that its
    handler reads. *)
Record exec_state := mkExecState {
  trace : list event;
  self_output_dir : option string;
  local_workflow : option WorkflowDefinition;
  l_stages_completed : nat;
  l_correlations_found : list correlation;
  l_partial_results : bool
}.

Definition E (A : Type) : Type := SE exec_state A.

Definition log (ev : event) : E unit :=
  vmodify (fun s => mkExecState (trace s ++ [ev]) (self_output_dir s) (local_workflow s)
                      (l_stages_completed s) (l_correlations_found s) (l_partial_results s)).
Definition set_output_dir (d : string) : E unit :=
  vmodify (fun s => mkExecState (trace s) (Some d) (local_workflow s)
                      (l_stages_completed s) (l_correlations_found s) (l_partial_results s)).
Definition set_workflow (w : WorkflowDefinition) : E unit :=
  vmodify (fun s => mkExecState (trace s) (self_output_dir s) (Some w)
                      (l_stages_completed s) (l_correlations_found s) (l_partial_results s)).
Definition set_locals (completed : nat) (found : list correlation) (partial : bool) : E unit :=
  vmodify (fun s => mkExecState (trace s) (self_output_dir s) (local_workflow s)
                      completed found partial).
(** [stages_completed += 1; correlations_found.extend(...)]. *)
Definition count_stage (found : list correlation) : E unit :=
  vmodify (fun s => mkExecState (trace s) (self_output_dir s) (local_workflow s)
                      (S (l_stages_completed s)) (l_correlations_found s ++ found)
                      (l_partial_results s)).
Definition set_partial_results : E unit :=
  vmodify (fun s => mkExecState (trace s) (self_output_dir s) (local_workflow s)
                      (l_stages_completed s) (l_correlations_found s) true).

(** A file operation whose outcome the environment fixes. *)
Definition io (outcome : option exn) : E unit :=
  match outcome with Some e => vraise e | None => vret tt end.

(** [time.sleep(d)], which rejects a negative length.  It also refuses a
    length that the clock of the platform cannot hold, upwards of some
    nine thousand million seconds; that limit is left out. *)
Definition sleep (d : Z) : E unit :=
  if (d <? 0)%Z then vraise (mkExn "ValueError" "sleep length must be non-negative")
  else log (Sleep d).

(** The correlations the [_simulate_*] function chosen by the stage name
    puts into the result. *)
Definition simulated_correlations (st : WorkflowStage) : list correlation :=
  if contains "data collection" (lower (name st)) then []
  else if contains "analysis" (lower (name st)) then
    [ mkCorrelation "Pages loading >3s have 78% higher bounce rates";
      mkCorrelation "Longer content (1500+ words) correlates with higher traffic" ]
  else [].

(** One run of a stage, logged as [Attempt]: the body raises when
    [stage_fault] says so, and otherwise returns the simulated result after
    the pause of its [_simulate_*] function, which leaves no event. *)
Definition _execute_stage (env : executor_env) (st : WorkflowStage) (stage_num run : nat)
    : E stage_result :=
  log (Attempt stage_num) ;;;
  match stage_fault env stage_num run with
  | Some e => vret (mkStageResult false [] (Some (exn_msg e)))
  | None => vret (mkStageResult true (simulated_correlations st) None)
  end.

(** [for attempt in range(max_retries)] of [_retry_stage], from [attempt]
    on, with [left] iterations to go. *)
Fixpoint retry_loop (env : executor_env) (st : WorkflowStage) (stage_num : nat)
    (retry_delay : Z) (attempt left : nat) : E stage_result :=
  match left with
  | O => vret (mkStageResult false [] (Some "Max retries exceeded"))
  | S left' =>
      sleep (retry_delay * 2 ^ Z.of_nat attempt)%Z ;;;
      result <~ _execute_stage env st stage_num (S attempt) ;;
      if sr_success result then vret result
      else retry_loop env st stage_num retry_delay (S attempt) left'
  end.

Definition _retry_stage (env : executor_env) (st : WorkflowStage) (stage_num : nat)
    : E stage_result :=
  let max_retries := default 3%Z (cfg_max_retries (config env)) in
  let retry_delay := default 5%Z (cfg_retry_delay (config env)) in
  retry_loop env st stage_num retry_delay 0 (Z.to_nat max_retries).

(** One iteration of the stage loop; the result is [true] when the
    iteration ends in [break]. *)
Definition stage_iteration (env : executor_env) (st : WorkflowStage) (i : nat) : E bool :=
  stage_result <~ _execute_stage env st i 0 ;;
  if sr_success stage_result then
    count_stage (sr_correlations stage_result) ;;;
    io (save_stage_results env i) ;;;
    vret false
  else
    let error_handling := default "retry" (cfg_error_handling (config env)) in
    if String.eqb error_handling "stop" then
      set_partial_results ;;; vret true
    else if String.eqb error_handling "retry" then
      retry_result <~ _retry_stage env st i ;;
      if sr_success retry_result then
        count_stage (sr_correlations retry_result) ;;;
        io (save_stage_results env i) ;;;
        vret false
      else
        set_partial_results ;;;
        vret (negb (String.eqb error_handling "continue"))
    else vret false.

(** [for i, stage in enumerate(workflow.stages, 1)], from number [i] on. *)
Fixpoint stage_loop (env : executor_env) (sts : list WorkflowStage) (i : nat) : E unit :=
  match sts with
  | [] => vret tt
  | st :: rest =>
      stop <~ stage_iteration env st i ;;
      if stop then vret tt else stage_loop env rest (S i)
  end.

Definition _perform_execution (env : executor_env) (workflow : WorkflowDefinition)
    : E ExecutionResult :=
  dir <~ (match create_output_directory env with inl e => vraise e | inr d => vret d end) ;;
  set_output_dir dir ;;;
  io (save_workflow_config env) ;;;
  io (archive_input_files env) ;;;
  set_locals 0 [] false ;;;
  vtry
    (stage_loop env (stages workflow) 1 ;;;
     s <~ vget ;;
     vwhen (0 <? l_stages_completed s) (io (generate_final_reports env)) ;;;
     s <~ vget ;;
     vret (mkExecutionResult
             (l_stages_completed s =? length (stages workflow))
             (l_stages_completed s) (length (stages workflow)) (self_output_dir s)
             (l_correlations_found s) None (l_partial_results s) None))
    (fun e =>
       s <~ vget ;;
       vret (mkExecutionResult false (l_stages_completed s) (length (stages workflow))
               (self_output_dir s) (l_correlations_found s) (Some (exn_msg e)) true None)).

Definition _estimate_stage_time (st : WorkflowStage) : Q :=
  let base_time := 5%Q in
  let base_time := if 1 <? length (recommended_agents st) then (base_time + 2)%Q else base_time in
  let base_time := if 2 <? length (suggested_mcps st) then (base_time + 3)%Q else base_time in
  if contains "comprehensive" (lower (description st)) then (base_time * (3 # 2))%Q
  else if contains "quick" (lower (description st)) then (base_time * (1 # 2))%Q
  else base_time.

Definition _perform_dry_run (workflow : WorkflowDefinition) : ExecutionResult :=
  let estimated := fold_left (fun acc st => (acc + _estimate_stage_time st)%Q)
                             (stages workflow) 0%Q in
  mkExecutionResult true 0 (length (stages workflow)) None [] None false (Some estimated).

(** [execute_workflow] on a fresh executor.  Its handler evaluates
    [len(workflow.stages) if workflow else 0]; reading the local [workflow]
    before it was assigned raises [UnboundLocalError]. *)
Definition execute_workflow (env : executor_env) (dry_run : bool)
    : (exn + ExecutionResult) * exec_state :=
  vtry
    (workflow <~
       (match parse_suggested env with inl e => vraise e | inr w => vret w end) ;;
     set_workflow workflow ;;;
     if dry_run then vret (_perform_dry_run workflow)
     else _perform_execution env workflow)
    (fun e =>
       s <~ vget ;;
       match local_workflow s with
       | None =>
           vraise (mkExn "UnboundLocalError"
                     "cannot access local variable 'workflow' where it is not associated with a value")
       | Some workflow =>
           vret (mkExecutionResult false 0 (length (stages workflow)) None []
                   (Some ("Execution failed: " ++ exn_msg e)) false None)
       end)
    (mkExecState [] None None 0 [] false).

(** ** The parser: [WorkflowParser._parse_parameters] *)


(** Characters are code points below 256.  [str.isspace] on them. *)
Definition is_space (c : ascii) : bool :=
  let n := nat_of_ascii c in
  ((9 <=? n) && (n <=? 13)) || ((28 <=? n) && (n <=? 32)) || (n =? 133) || (n =? 160).

Fixpoint lstrip (s : string) : string :=
  match s with
  | String c s' => if is_space c then lstrip s' else s
  | EmptyString => EmptyString
  end.

(** Drops trailing white space: a character is kept when something that is
    kept follows it or when it is not white space. *)
Fixpoint rstrip (s : string) : string :=
  match s with
  | EmptyString => EmptyString
  | String c s' =>
      match rstrip s' with
      | EmptyString => if is_space c then EmptyString else String c EmptyString
      | kept => String c kept
      end
  end.

Definition strip (s : string) : string := rstrip (lstrip s).

(** [text.split('\n')]. *)
Fixpoint split_lines (s : string) : list string :=
  match s with
  | EmptyString => [EmptyString]
  | String c s' =>
      if Ascii.eqb c "010"%char then EmptyString :: split_lines s'
      else match split_lines s' with
           | l :: ls => String c l :: ls
           | [] => [String c EmptyString]
           end
  end.

(** [s.split(':', 1)]: one piece without a colon, else the text before the
    first colon and the text after it. *)
Fixpoint split_colon_once (s : string) : list string :=
  match s with
  | EmptyString => [EmptyString]
  | String c s' =>
      if Ascii.eqb c ":"%char then [EmptyString; s']
      else match split_colon_once s' with
           | p :: ps => String c p :: ps
           | [] => [String c EmptyString]
           end
  end.

(** [s[2:]]. *)
Definition drop2 (s : string) : string :=
  match s with
  | String _ (String _ s') => s'
  | _ => EmptyString
  end.

(** Group 1 of [re.search(r'^([^(]+)', s)]: the longest prefix free of an
    opening parenthesis, when it is not empty. *)
Fixpoint upto_paren (s : string) : string :=
  match s with
  | EmptyString => EmptyString
  | String c s' => if Ascii.eqb c "("%char then EmptyString else String c (upto_paren s')
  end.

Definition paren_match (s : string) : option string :=
  match upto_paren s with
  | EmptyString => None
  | g => Some g
  end.

(** [except (ValueError, SyntaxError)] catches these classes and their
    subclasses. *)
Definition caught_by_parameters (e : exn) : bool :=
  bool_decide (exn_class e ∈
    [ "ValueError"; "UnicodeError"; "UnicodeDecodeError"; "UnicodeEncodeError";
      "UnicodeTranslateError"; "SyntaxError"; "IndentationError"; "TabError" ]).

Section Parameters.

(** [ast.literal_eval] of the Python library: on every text it returns a
    value or raises. *)
Variable literal_eval : string -> exn + pyvalue.

(** The body of the [for line in text.split('\n')] loop; the state is the
    dictionary [parameters]. *)
Definition parameter_line (line0 : string) : SE (gmap string pyvalue) unit :=
  let line := strip line0 in
  if contains ":" line && (startswith "- " line || startswith "* " line) then
    let param_line := strip (drop2 line) in
    match split_colon_once param_line with
    | [k; v] =>
        let key := strip k in
        let value_desc := strip v in
        match paren_match value_desc with
        | Some g =>
            let actual_value := strip g in
            match literal_eval actual_value with
            | inr parsed_value => vmodify (fun parameters => <[key := parsed_value]> parameters)
            | inl e =>
                if caught_by_parameters e
                then vmodify (fun parameters => <[key := PyStr actual_value]> parameters)
                else vraise e
            end
        | None => vmodify (fun parameters => <[key := PyStr value_desc]> parameters)
        end
    | _ => vret tt
    end
  else vret tt.

Definition _parse_parameters (text : string) : exn + gmap string pyvalue :=
  match vfor (split_lines text) parameter_line ∅ with
  | (inl e, _) => inl e
  | (inr _, parameters) => inr parameters
  end.

End Parameters.

(** *** The literal evaluator on a fragment of Python's literal syntax

    [py_literal_eval] follows [ast.literal_eval] (parse the text as an
    expression, then convert the tree) on texts made of decimal integers,
    [True], [False], [None], other identifiers, list displays and dict
    displays, separated by blanks.  On any other text it is [None]: the
    text lies outside the fragment. *)

Inductive token :=
| TWord (w : string)
| TLBrack | TRBrack | TLBrace | TRBrace | TColon | TComma.

Definition is_digit (c : ascii) : bool :=
  let n := nat_of_ascii c in (48 <=? n) && (n <=? 57).
Definition is_word_char (c : ascii) : bool :=
  let n := nat_of_ascii c in
  is_digit c || ((65 <=? n) && (n <=? 90)) || ((97 <=? n) && (n <=? 122)) || (n =? 95).

Definition push_word (w : string) (toks : list token) : list token :=
  match toks with
  | TWord w' :: rest => TWord (w ++ w') :: rest
  | _ => TWord w :: toks
  end.

(** Consecutive word characters are glued into one word; blanks separate
    tokens; a character outside the fragment's alphabet gives [None]. *)
Fixpoint tokenize (s : string) : option (list token) :=
  match s with
  | EmptyString => Some []
  | String c s' =>
      match tokenize s' with
      | None => None
      | Some toks =>
          if is_word_char c then
            match s' with
            | String c' _ =>
                if is_word_char c' then Some (push_word (String c EmptyString) toks)
                else Some (TWord (String c EmptyString) :: toks)
            | EmptyString => Some (TWord (String c EmptyString) :: toks)
            end
          else if Ascii.eqb c " "%char || Ascii.eqb c "009"%char then Some toks
          else if Ascii.eqb c "["%char then Some (TLBrack :: toks)
          else if Ascii.eqb c "]"%char then Some (TRBrack :: toks)
          else if Ascii.eqb c "{"%char then Some (TLBrace :: toks)
          else if Ascii.eqb c "}"%char then Some (TRBrace :: toks)
          else if Ascii.eqb c ":"%char then Some (TColon :: toks)
          else if Ascii.eqb c ","%char then Some (TComma :: toks)
          else None
      end
  end.

(** The tree [ast.parse] builds. *)
Inductive pyexpr :=
| EConstant (v : pyvalue)
| EName (id : string)
| EList (elts : list pyexpr)
| EDict (items : list (pyexpr * pyexpr)).

Definition keywords : list string :=
  [ "and"; "as"; "assert"; "async"; "await"; "break"; "class"; "continue"; "def";
    "del"; "elif"; "else"; "except"; "finally"; "for"; "from"; "global"; "if";
    "import"; "in"; "is"; "lambda"; "nonlocal"; "not"; "or"; "pass"; "raise";
    "return"; "try"; "while"; "with"; "yield" ].

Fixpoint all_digits (s : string) : bool :=
  match s with
  | EmptyString => true
  | String c s' => is_digit c && all_digits s'
  end.

Fixpoint decimal_value (acc : Z) (s : string) : Z :=
  match s with
  | EmptyString => acc
  | String c s' => decimal_value (10 * acc + Z.of_nat (nat_of_ascii c - 48))%Z s'
  end.

(** A word is an integer literal (digits without a leading zero, or zeros
    only, of at most 4300 digits), one of the three constants, or an
    identifier that is not a keyword. *)
Definition atom_of_word (w : string) : option pyexpr :=
  match w with
  | EmptyString => None
  | String c rest =>
      if is_digit c then
        if all_digits rest && (String.length w <=? 4300)
           && (negb (Ascii.eqb c "0"%char) || (decimal_value 0 w =? 0)%Z)
        then Some (EConstant (PyInt (decimal_value 0 w)))
        else None
      else if String.eqb w "True" then Some (EConstant (PyBool true))
      else if String.eqb w "False" then Some (EConstant (PyBool false))
      else if String.eqb w "None" then Some (EConstant PyNone)
      else if bool_decide (w ∈ keywords) then None
      else Some (EName w)
  end.

Fixpoint parse_expr (fuel : nat) (toks : list token) : option (pyexpr * list token) :=
  match fuel with
  | O => None
  | S fuel' =>
      match toks with
      | TWord w :: rest =>
          match atom_of_word w with Some e => Some (e, rest) | None => None end
      | TLBrack :: rest =>
          match parse_elts fuel' rest [] with
          | Some (elts, rest') => Some (EList elts, rest')
          | None => None
          end
      | TLBrace :: rest =>
          match parse_items fuel' rest [] with
          | Some (items, rest') => Some (EDict items, rest')
          | None => None
          end
      | _ => None
      end
  end
with parse_elts (fuel : nat) (toks : list token) (acc : list pyexpr)
    : option (list pyexpr * list token) :=
  match fuel with
  | O => None
  | S fuel' =>
      match toks with
      | TRBrack :: rest => Some (rev acc, rest)
      | _ =>
          match parse_expr fuel' toks with
          | Some (e, TComma :: rest) => parse_elts fuel' rest (e :: acc)
          | Some (e, TRBrack :: rest) => Some (rev (e :: acc), rest)
          | _ => None
          end
      end
  end
with parse_items (fuel : nat) (toks : list token) (acc : list (pyexpr * pyexpr))
    : option (list (pyexpr * pyexpr) * list token) :=
  match fuel with
  | O => None
  | S fuel' =>
      match toks with
      | TRBrace :: rest => Some (rev acc, rest)
      | _ =>
          match parse_expr fuel' toks with
          | Some (k, TColon :: rest) =>
              match parse_expr fuel' rest with
              | Some (v, TComma :: rest') => parse_items fuel' rest' ((k, v) :: acc)
              | Some (v, TRBrace :: rest') => Some (rev ((k, v) :: acc), rest')
              | _ => None
              end
          | _ => None
          end
      end
  end.

Definition hashable (v : pyvalue) : bool :=
  match v with
  | PyList _ | PyDict _ => false
  | _ => true
  end.

(** [==] on hashable values: [True == 1] and [False == 0]. *)
Definition key_eqb (a b : pyvalue) : bool :=
  let num v := match v with
               | PyBool b => Some (if b then 1 else 0)%Z
               | PyInt z => Some z
               | _ => None
               end in
  match num a, num b with
  | Some x, Some y => (x =? y)%Z
  | _, _ =>
      match a, b with
      | PyNone, PyNone => true
      | PyStr s, PyStr t => String.eqb s t
      | _, _ => false
      end
  end.

(** Storing into a dict: an equal key keeps its place and gets the value. *)
Fixpoint items_set (k v : pyvalue) (d : list (pyvalue * pyvalue)) : list (pyvalue * pyvalue) :=
  match d with
  | [] => [(k, v)]
  | (k', v') :: d' => if key_eqb k k' then (k', v) :: d' else (k', v') :: items_set k v d'
  end.

(** [_convert] of [ast.literal_eval]: a name is a malformed node; a dict is
    built pair by pair, converting key and value and then hashing the key. *)
Fixpoint convert (e : pyexpr) : exn + pyvalue :=
  match e with
  | EConstant v => inr v
  | EName id => inl (mkExn "ValueError" "malformed node or string")
  | EList elts =>
      let fix go (l : list pyexpr) : exn + list pyvalue :=
        match l with
        | [] => inr []
        | x :: r =>
            match convert x with
            | inl err => inl err
            | inr v => match go r with inl err => inl err | inr vs => inr (v :: vs) end
            end
        end in
      match go elts with inl err => inl err | inr vs => inr (PyList vs) end
  | EDict items =>
      let fix go (l : list (pyexpr * pyexpr)) (acc : list (pyvalue * pyvalue))
          : exn + list (pyvalue * pyvalue) :=
        match l with
        | [] => inr acc
        | (k, v) :: r =>
            match convert k with
            | inl err => inl err
            | inr kv =>
                match convert v with
                | inl err => inl err
                | inr vv =>
                    if hashable kv then go r (items_set kv vv acc)
                    else inl (mkExn "TypeError" "unhashable type")
                end
            end
        end in
      match go items [] with inl err => inl err | inr d => inr (PyDict d) end
  end.

Definition py_literal_eval (s : string) : option (exn + pyvalue) :=
  match tokenize s with
  | Some toks =>
      match parse_expr (S (length toks)) toks with
      | Some (e, []) => Some (convert e)
      | _ => None
      end
  | None => None
  end.

(** An evaluator agrees with the fragment when it gives the fragment's
    answer on every text of the fragment. *)
Definition agrees_with_fragment (literal_eval : string -> exn + pyvalue) : Prop :=
  forall s o, py_literal_eval s = Some o ->
    match o, literal_eval s with
    | inr v, inr v' => v = v'
    | inl e, inl e' => exn_class e = exn_class e'
    | _, _ => False
    end.

(** The fragment, completed by a syntax error outside of it. *)
Definition fragment_eval (s : string) : exn + pyvalue :=
  default (inl (mkExn "SyntaxError" "invalid syntax")) (py_literal_eval s).

(** ** The parser: list items, inputs, agent and MCP lists
    ([_parse_list_items], [_parse_inputs], [_parse_agent_list],
    [_parse_mcp_list]) *)

(** [s.split(c)] for a one-character separator. *)
Fixpoint split_on (c : ascii) (s : string) : list string :=
  match s with
  | EmptyString => [EmptyString]
  | String a s' =>
      if Ascii.eqb a c then EmptyString :: split_on c s'
      else match split_on c s' with
           | p :: ps => String a p :: ps
           | [] => [String a EmptyString]
           end
  end.

(** [line.startswith('- ') or line.startswith('* ')]. *)
Definition is_list_item (line : string) : bool :=
  startswith "- " line || startswith "* " line.

Definition _parse_list_items (text : string) : list string :=
  flat_map (fun line0 =>
    let line := strip line0 in
    if is_list_item line then [strip (drop2 line)] else [])
    (split_lines text).

(** The body of the loop of [_parse_inputs] on the dictionary [inputs]. *)
Definition input_line (inputs : gmap string string) (line0 : string) : gmap string string :=
  let line := strip line0 in
  if contains ":" line && is_list_item line then
    let input_line := strip (drop2 line) in
    match split_colon_once input_line with
    | [k; v] =>
        let key := strip k in
        let value := strip v in
        <[key := value]> inputs
    | _ => inputs
    end
  else inputs.

Definition _parse_inputs (text : string) : gmap string string :=
  fold_left input_line (split_lines text) ∅.

(** [re.split(r'[\(\-]', s)[0]]: the text before the first opening
    parenthesis or hyphen. *)
Fixpoint before_paren_or_dash (s : string) : string :=
  match s with
  | EmptyString => EmptyString
  | String c s' =>
      if Ascii.eqb c "("%char || Ascii.eqb c "-"%char then EmptyString
      else String c (before_paren_or_dash s')
  end.

(** [s.split(' ')[0]]. *)
Fixpoint first_word (s : string) : string :=
  match s with
  | EmptyString => EmptyString
  | String c s' => if Ascii.eqb c " "%char then EmptyString else String c (first_word s')
  end.

Definition newline : string := String "010"%char EmptyString.

Definition _parse_agent_list (text : string) : list string :=
  if contains newline text then
    flat_map (fun line0 =>
      let line := strip line0 in
      if is_list_item line then
        let agent_info := strip (drop2 line) in
        let agent_name := strip (before_paren_or_dash agent_info) in
        if str_truthy agent_name then [agent_name] else []
      else [])
      (split_lines text)
  else
    flat_map (fun agent0 =>
      let agent := strip agent0 in
      if str_truthy agent then
        let agent_name := strip (before_paren_or_dash agent) in
        if str_truthy agent_name then [agent_name] else []
      else [])
      (split_on ","%char text).

Definition _parse_mcp_list (text : string) : list string :=
  if contains newline text then
    flat_map (fun line0 =>
      let line := strip line0 in
      if is_list_item line then
        let mcp_info := strip (drop2 line) in
        let mcp_name := first_word mcp_info in
        if str_truthy mcp_name then [mcp_name] else []
      else [])
      (split_lines text)
  else
    flat_map (fun mcp0 =>
      let mcp := strip mcp0 in
      if str_truthy mcp then
        let mcp_name := first_word mcp in
        if str_truthy mcp_name then [mcp_name] else []
      else [])
      (split_on ","%char text).

(** ** The syntax check ([WorkflowParser.validate_workflow_syntax]) *)

Definition missing_name_issue (i : nat) : string :=
  "Stage " ++ pretty (i + 1) ++ " missing name".
Definition missing_agents_issue (stage_name : string) : string :=
  "Stage '" ++ stage_name ++ "' missing recommended agents".

Definition parse_error_issue (e : exn) : string := "Parse error: " ++ exn_msg e.

(** The two checks of the loop body for the stage at position [i]. *)
Definition syntax_stage_issues (i : nat) (st : WorkflowStage) : list string :=
  ((if str_truthy (name st) then [] else [missing_name_issue i]) ++
   (if is_nil (recommended_agents st) then [missing_agents_issue (name st)] else []))%list.

(** [parsed] is the outcome of [parse_suggested]; the handler catches every
    exception. *)
Definition validate_workflow_syntax (parsed : exn + WorkflowDefinition) : list string :=
  match parsed with
  | inr workflow =>
      ((if str_truthy (goal workflow) then [] else ["Missing Goal section"]) ++
       (if is_nil (stages workflow) then ["Missing Stages section"] else []) ++
       concat (imap syntax_stage_issues (stages workflow)))%list
  | inl e => [parse_error_issue e]
  end.

(** ** The parser: sections and stages ([_parse_markdown_sections],
    [_parse_stages]) *)

(** [str.lower] on code points below 256: the ASCII capitals and the
    Latin-1 capitals other than the multiplication sign. *)
Definition lower_char (c : ascii) : ascii :=
  let n := nat_of_ascii c in
  if ((65 <=? n) && (n <=? 90)) || ((192 <=? n) && (n <=? 222) && negb (n =? 215))
  then ascii_of_nat (n + 32) else c.

Fixpoint str_lower (s : string) : string :=
  match s with
  | EmptyString => EmptyString
  | String c s' => String (lower_char c) (str_lower s')
  end.

(** The text after a literal prefix. *)
Fixpoint strip_prefix (p s : string) : option string :=
  match p, s with
  | EmptyString, _ => Some s
  | String a p', String b s' => if Ascii.eqb a b then strip_prefix p' s' else None
  | String _ _, EmptyString => None
  end.

(** One or more white-space characters, then the rest; one or more
    decimal digits, then the rest. *)
Definition skip_spaces (s : string) : option string :=
  match s with
  | String c r => if is_space c then Some (lstrip r) else None
  | EmptyString => None
  end.

Fixpoint drop_digits (s : string) : string :=
  match s with
  | String c s' => if is_digit c then drop_digits s' else s
  | EmptyString => EmptyString
  end.

Definition skip_digits (s : string) : option string :=
  match s with
  | String c r => if is_digit c then Some (drop_digits r) else None
  | EmptyString => None
  end.

(** The last character of a non-empty text, as a text. *)
Fixpoint last_char (s : string) : string :=
  match s with
  | EmptyString => EmptyString
  | String c EmptyString => s
  | String _ s' => last_char s'
  end.

(** The final group of the two header patterns: a greedy run of white
    space, then one or more characters up to the end of the line.  The group
    is the text after the white space; when nothing follows a non-empty run,
    the run gives back its last character. *)
Definition rest_after_space (r : string) : option string :=
  let g := lstrip r in
  if str_truthy g then Some g
  else match r with
       | EmptyString => None
       | _ => Some (last_char r)
       end.

(** Group 1 of the section-header pattern matched at the start of a line:
    two number signs, white space, the title. *)
Definition section_header (line : string) : option string :=
  match strip_prefix "##" line with
  | Some (String c r) => if is_space c then rest_after_space r else None
  | _ => None
  end.

(** The locals of [_parse_markdown_sections]. *)
Record section_state := mkSectionState {
  sections : gmap string string;
  current_section : option string;
  current_content : list string
}.

(** [sections[current_section.lower()] = '\n'.join(current_content).strip()],
    guarded by [if current_section]. *)
Definition save_section (st : section_state) : gmap string string :=
  match current_section st with
  | Some title =>
      if str_truthy title
      then <[str_lower title := strip (join newline (current_content st))]> (sections st)
      else sections st
  | None => sections st
  end.

Definition section_line (st : section_state) (line : string) : section_state :=
  match section_header (strip line) with
  | Some title => mkSectionState (save_section st) (Some title) []
  | None =>
      if opt_truthy (current_section st)
      then mkSectionState (sections st) (current_section st) (current_content st ++ [line])%list
      else st
  end.

Definition _parse_markdown_sections (content : string) : gmap string string :=
  save_section (fold_left section_line (split_lines content) (mkSectionState ∅ None [])).

(** Group 1 of the stage-header pattern matched at the start of a line:
    three number signs, white space, the word Stage, white space, digits, a
    colon, optional white space, the name. *)
Definition stage_header (line : string) : option string :=
  r ← strip_prefix "###" line;
  r ← skip_spaces r;
  r ← strip_prefix "Stage" r;
  r ← skip_spaces r;
  r ← skip_digits r;
  r ← strip_prefix ":" r;
  rest_after_space r.

(** [s.replace(p, '')] and the substitution of the empty text for a pattern
    that is a choice of literals: every match is removed, from the left,
    matches not overlapping.  [skip] characters of a match are still to be
    dropped. *)
Fixpoint first_match (pats : list string) (s : string) : option string :=
  match pats with
  | [] => None
  | p :: rest => if startswith p s then Some p else first_match rest s
  end.

Fixpoint remove_from (pats : list string) (skip : nat) (s : string) : string :=
  match s with
  | EmptyString => EmptyString
  | String c s' =>
      match skip with
      | S k => remove_from pats k s'
      | O =>
          match first_match pats s with
          | Some p => remove_from pats (String.length p - 1) s'
          | None => String c (remove_from pats 0 s')
          end
      end
  end.

Definition remove_all (pats : list string) (s : string) : string := remove_from pats 0 s.

(** [[d.strip() for d in text.split(',') if d.strip()]]. *)
Definition comma_items (text : string) : list string :=
  flat_map (fun d => if str_truthy (strip d) then [strip d] else []) (split_on "," text).

Definition set_description (v : string) (st : WorkflowStage) : WorkflowStage :=
  mkStage (name st) v (dependencies st) (recommended_agents st) (suggested_mcps st)
    (parallel_tasks st) (success_criteria st) (stage_expected_outputs st)
    (expected_correlations st) (warnings_of_stage st).
Definition set_dependencies (v : list string) (st : WorkflowStage) : WorkflowStage :=
  mkStage (name st) (description st) v (recommended_agents st) (suggested_mcps st)
    (parallel_tasks st) (success_criteria st) (stage_expected_outputs st)
    (expected_correlations st) (warnings_of_stage st).
Definition set_recommended_agents (v : list string) (st : WorkflowStage) : WorkflowStage :=
  mkStage (name st) (description st) (dependencies st) v (suggested_mcps st)
    (parallel_tasks st) (success_criteria st) (stage_expected_outputs st)
    (expected_correlations st) (warnings_of_stage st).
Definition set_suggested_mcps (v : list string) (st : WorkflowStage) : WorkflowStage :=
  mkStage (name st) (description st) (dependencies st) (recommended_agents st) v
    (parallel_tasks st) (success_criteria st) (stage_expected_outputs st)
    (expected_correlations st) (warnings_of_stage st).
Definition set_parallel_tasks (v : list string) (st : WorkflowStage) : WorkflowStage :=
  mkStage (name st) (description st) (dependencies st) (recommended_agents st)
    (suggested_mcps st) v (success_criteria st) (stage_expected_outputs st)
    (expected_correlations st) (warnings_of_stage st).
Definition append_success_criterion (v : string) (st : WorkflowStage) : WorkflowStage :=
  mkStage (name st) (description st) (dependencies st) (recommended_agents st)
    (suggested_mcps st) (parallel_tasks st) (success_criteria st ++ [v])%list
    (stage_expected_outputs st) (expected_correlations st) (warnings_of_stage st).
Definition set_expected_correlations (v : list string) (st : WorkflowStage) : WorkflowStage :=
  mkStage (name st) (description st) (dependencies st) (recommended_agents st)
    (suggested_mcps st) (parallel_tasks st) (success_criteria st)
    (stage_expected_outputs st) v (warnings_of_stage st).

(** The attribute branches of the loop of [_parse_stages], on the stripped
    line. *)
Definition stage_attribute (line : string) (st : WorkflowStage) : WorkflowStage :=
  if startswith "**Description**:" line then
    set_description (strip (remove_all ["**Description**:"] line)) st
  else if startswith "**Dependencies**:" line then
    let deps_text := strip (remove_all ["**Dependencies**:"] line) in
    if String.eqb (str_lower deps_text) "none" then set_dependencies [] st
    else set_dependencies (comma_items deps_text) st
  else if startswith "**Recommended Agents**:" line then
    let agents_text := strip (remove_all ["**Recommended Agents**:"] line) in
    set_recommended_agents (_parse_agent_list agents_text) st
  else if startswith "**Suggested MCPs**:" line then
    let mcps_text := strip (remove_all ["**Suggested MCPs**:"] line) in
    set_suggested_mcps (_parse_mcp_list mcps_text) st
  else if startswith "**Parallel Tasks**:" line || startswith "**Parallel Execution**:" line then
    let parallel_text :=
      strip (remove_all ["**Parallel Tasks**:"; "**Parallel Execution**:"] line) in
    set_parallel_tasks (comma_items parallel_text) st
  else if startswith "**Success Criteria**:" line then
    append_success_criterion (strip (remove_all ["**Success Criteria**:"] line)) st
  else if startswith "**Expected Correlations**:" line then
    let correlations_text := strip (remove_all ["**Expected Correlations**:"] line) in
    set_expected_correlations (comma_items correlations_text) st
  else if startswith "- " line && negb (is_nil (success_criteria st)) then
    append_success_criterion (strip (drop2 line)) st
  else st.

(** The locals [stages] and [current_stage] of [_parse_stages]. *)
Definition stage_line (state : list WorkflowStage * option WorkflowStage) (line : string)
    : list WorkflowStage * option WorkflowStage :=
  let '(stages, current_stage) := state in
  match stage_header (strip line) with
  | Some stage_name =>
      (match current_stage with Some st => (stages ++ [st])%list | None => stages end,
       Some (mkStage stage_name "" [] [] [] [] [] [] [] []))
  | None =>
      match current_stage with
      | Some st => (stages, Some (stage_attribute (strip line) st))
      | None => state
      end
  end.

Definition _parse_stages (text : string) : list WorkflowStage :=
  let '(stages, current_stage) := fold_left stage_line (split_lines text) ([], None) in
  match current_stage with Some st => (stages ++ [st])%list | None => stages end.

(** * Vocabulary of the statements *)

(** The graph as a relation, its cycles, its nodes, and the sets of nodes
    that are closed under the edges and lie on no cycle. *)
Definition edge (g : pydict) (x y : string) : Prop := y ∈ dict_get g x.
Definition cyclic (g : pydict) : Prop := exists x, tc (edge g) x x.
Definition universe (g : pydict) : gset string := list_to_set (graph_nodes g).
Definition settled (g : pydict) (B : gset string) : Prop :=
  (forall b y, b ∈ B -> edge g b y -> y ∈ B) /\ (forall b, b ∈ B -> ~ tc (edge g) b b).

(** The dependency relation the stage list declares: the stage at 0-based
    position [i], called [stage_label i], depends on each of its tokens. *)
Definition depends_on (sts : list WorkflowStage) (x y : string) : Prop :=
  exists i st, sts !! i = Some st /\ x = stage_label i /\ y ∈ dependencies st.
Definition has_dependency_cycle (sts : list WorkflowStage) : Prop :=
  exists x, tc (depends_on sts) x x.

(** What one call [has_cycle(node, visited, rec_stack)] guarantees: it
    returns; if it returns [True] the graph has a cycle; if it returns
    [False] the stack is as before, the node is visited, and the visited
    nodes that are off the stack are settled. *)
Definition visit_ok (g : pydict) (depth : nat) : Prop :=
  forall node (v r : gset string),
    node ∉ v -> r ⊆ v -> node ∈ universe g ->
    size (universe g ∖ v) <= depth ->
    (forall x, x ∈ r -> rtc (edge g) x node) ->
    settled g (v ∖ r) ->
    exists b v' r',
      has_cycle depth g node (v, r) = Some (b, (v', r')) /\
      (b = true -> cyclic g) /\
      (b = false -> r' = r /\ v ⊆ v' /\ node ∈ v' /\ settled g (v' ∖ r)).

(** [r'] extends [r]: errors satisfying [P] and some warnings were appended. *)
Definition extends (P : string -> Prop) (r r' : report) : Prop :=
  (exists es, r_errors r' = (r_errors r ++ es)%list /\ Forall P es) /\
  (exists ws, r_warnings r' = (r_warnings r ++ ws)%list).

(** [m] returns from every state, with a value satisfying [Q], after
    appending only errors that satisfy [P]. *)
Definition returns {A} (m : V A) (P : string -> Prop) (Q : A -> Prop) : Prop :=
  forall r, exists a r', m r = (inr a, r') /\ Q a /\ extends P r r'.

(** The forms of the entries of [errors]. *)
Definition agent_error (e : string) : Prop := exists a, e = "Agent not available: " ++ a.
Definition mcp_error (e : string) : Prop := exists m, e = "MCP not available: " ++ m.

Definition no_stages_error : string := "Workflow has no stages defined".


(** The set [stage_names] of [_validate_dependencies]. *)
Definition stage_names (w : WorkflowDefinition) : gset string :=
  list_to_set (map stage_label (seq 0 (length (stages w)))).


(** A stage with a name and dependencies only; a workflow with a goal and
    stages only. *)
Definition blank_stage (nm : string) (deps : list string) : WorkflowStage :=
  mkStage nm "" deps [] [] [] [] [] [] [].
Definition blank_workflow (g : string) (sts : list WorkflowStage) : WorkflowDefinition :=
  mkWorkflow "wf" "" g "" [] [] [] sts [] None PyNone None.


(** The same workflow for the client [slug]. *)
Definition for_client (slug : pyvalue) (w : WorkflowDefinition) : WorkflowDefinition :=
  mkWorkflow (wf_name w) (wf_description w) (goal w) (context w) (requirements w)
    (expected_challenges w) (inputs w) (stages w) (expected_outputs w)
    (template_selection w) slug (estimated_time w).



(** The labels the traversal can meet: the keys [Stage 1] to [Stage n] and
    every dependency token. *)
Definition labels (sts : list WorkflowStage) : gset string :=
  list_to_set (map stage_label (seq 0 (length sts))) ∪ list_to_set (flat_map dependencies sts).


#[global] Instance event_eq_dec : EqDecision event.
Proof. solve_decision. Defined.

(** The state after the events [evs] were logged. *)
Definition logged (s : exec_state) (evs : list event) : exec_state :=
  mkExecState (trace s ++ evs) (self_output_dir s) (local_workflow s)
    (l_stages_completed s) (l_correlations_found s) (l_partial_results s).

(** What [_execute_stage] returns on run [k] of stage [i]. *)
Definition stage_outcome (env : executor_env) (st : WorkflowStage) (i k : nat) : stage_result :=
  match stage_fault env i k with
  | Some e => mkStageResult false [] (Some (exn_msg e))
  | None => mkStageResult true (simulated_correlations st) None
  end.

(** The back-off schedule of [n] retries from attempt [a] on. *)
Definition retry_events (i : nat) (d : Z) (a n : nat) : list event :=
  flat_map (fun k => [Sleep (d * 2 ^ Z.of_nat k); Attempt i]) (seq a n).

(** Events of another stage: no run of stage [i]. *)
Definition quiet (i : nat) (evs : list event) : Prop := Attempt i ∉ evs.

(** Stage number [j] completes under the retry policy: its first run or
    one of its [retries] retries succeeds, and its results are then saved. *)
Definition completes (env : executor_env) (retries : nat) (j : nat) : Prop :=
  (exists k, k <= retries /\ stage_fault env j k = None) /\
  save_stage_results env j = None.

(** A length that [time.sleep] takes on every platform: a thousand million
    seconds, more than thirty years. *)
Definition longest_sleep : Z := 1000000000.

(** The configured policy is [retry], given or by default. *)
Definition retry_policy (env : executor_env) : Prop :=
  default "retry" (cfg_error_handling (config env)) = "retry".

(** A text is trimmed when [strip] leaves it alone, and free of a character
    when the character does not occur in it. *)
Definition trimmed (s : string) : Prop := strip s = s.
Fixpoint free_of (c : ascii) (s : string) : Prop :=
  match s with
  | EmptyString => True
  | String a s' => a <> c /\ free_of c s'
  end.

(** The optional [(metadata)] that ends a parameter line. *)
Definition metadata_suffix (m : option string) : string :=
  match m with
  | Some text => " (" ++ text ++ ")"
  | None => ""
  end.

(** A file system with no agents, on which every path exists, under the
    default recursion limit of 1000 with ten frames in use. *)
Definition sample_env : validator_env :=
  mkValidatorEnv "/opt/ccc" [] (fun _ => false) (fun _ => inr true) 990 elements
    (fun _ => reflexivity _).

(** The same file system with call depth left for two nested calls, and
    one on which no path can be probed. *)
Definition shallow_env : validator_env :=
  mkValidatorEnv "/opt/ccc" [] (fun _ => false) (fun _ => inr true) 2 elements
    (fun _ => reflexivity _).
Definition unreadable_env : validator_env :=
  mkValidatorEnv "/opt/ccc" [] (fun _ => false)
    (fun _ => inl (mkExn "PermissionError" "[Errno 13] Permission denied")) 990 elements
    (fun _ => reflexivity _).


(** The errors of [_validate_dependencies] begin with [Stage ']. *)
Definition dangling_form (e : string) : Prop := startswith "Stage '" e = true.
#[global] Instance dangling_form_dec e : Decision (dangling_form e).
Proof. unfold dangling_form. apply _. Defined.

(** Every entry of the four groups of errors begins in its own way. *)
Inductive error_class (b : bool) (e : string) : Prop :=
| class_agent : agent_error e -> error_class b e
| class_mcp : mcp_error e -> error_class b e
| class_no_stages : e = no_stages_error -> error_class b e
| class_circular : e = circular_error -> b = true -> error_class b e
| class_dangling st dep : e = dangling_error st dep -> error_class b e.


(** Three stages in a ring: the traversal nests three calls. *)
Definition ring_workflow : WorkflowDefinition :=
  blank_workflow "Audit the site"
    [ blank_stage "Collect" ["Stage 3"]; blank_stage "Crawl" ["Stage 1"];
      blank_stage "Rank" ["Stage 2"] ].

Definition three_stage_workflow : WorkflowDefinition :=
  blank_workflow "Audit the site"
    [ blank_stage "Collect" []; blank_stage "Crawl" ["Stage 9"]; blank_stage "Report" [] ].

Definition goalless_workflow : WorkflowDefinition :=
  blank_workflow "" [ blank_stage "Collect" [] ].

(** [get_execution_config()] without an [execution] section: every key
    takes its default. *)
Definition default_config : exec_config := mkExecConfig None None None.

(** Every file operation succeeds; stage [n] fails on each run when
    [failing n]. *)
Definition scenario (cfg : exec_config) (parsed : exn + WorkflowDefinition)
    (failing : nat -> bool) : executor_env :=
  mkExecutorEnv cfg parsed (inr "reports/default-client/reports/wf_2025_09_25") None None
    (fun n _ => if failing n
                then Some (mkExn "OSError" "No space left on device") else None)
    (fun _ => None) None.

Definition two_stage_workflow : WorkflowDefinition :=
  blank_workflow "Audit the site" [ blank_stage "Collect" []; blank_stage "Report" ["Stage 1"] ].

(** A three-stage run: the first stage succeeds at once, the second on its
    second retry, the third never. *)
Definition failing_third_scenario : executor_env :=
  mkExecutorEnv default_config
    (inr (blank_workflow "Audit the site"
            [ blank_stage "Collect" []; blank_stage "Crawl" ["Stage 1"];
              blank_stage "Report" ["Stage 2"] ]))
    (inr "reports/default-client/reports/wf_2025_09_25") None None
    (fun n k => if (n =? 3) || ((n =? 2) && (k <? 2))
                then Some (mkExn "OSError" "No space left on device") else None)
    (fun _ => None) None.

(** A [## Parameters] section. *)
Definition sample_parameters : string :=
  "- ids: [1, 2, 3] (list of ids)
- flag: True (boolean)
- depth: 42 (integer)
- low: true (lower case)
- mode: fast".

(** The union of a field over the stages, as the checks collect it. *)
Definition collected (field : WorkflowStage -> list string) (w : WorkflowDefinition)
    : gset string :=
  foldl (fun acc st => acc ∪ list_to_set (field st)) ∅ (stages w).
Definition missing_agents (env : validator_env) (w : WorkflowDefinition) : gset string :=
  collected recommended_agents w ∖ list_to_set (available_agents env).
Definition missing_mcps (w : WorkflowDefinition) : gset string :=
  collected suggested_mcps w ∖ list_to_set _discover_available_mcps.

Definition mcp_missing_error (m : string) : string := "MCP not available: " ++ m.

(** [m] returns [a] from every state after appending exactly the errors
    [es] and no others. *)
Definition appends {A} (m : V A) (es : list string) (a : A) : Prop :=
  forall r, exists r', m r = (inr a, r') /\ r_errors r' = (r_errors r ++ es)%list.


(** The two inner loops of [_validate_no_conflicts] for stage [i], and the
    body of its outer loop. *)
Definition agent_loop (w : WorkflowDefinition) (i : nat) (agents : list string)
    (agent_usage : gmap string nat) : V (gmap string nat) :=
  vfold agents agent_usage (fun agent_usage agent =>
    match agent_usage !! agent with
    | Some prev_stage =>
        vwhen (negb (_stages_are_sequential (stages w) prev_stage i))
          (warnings_append
             ("Agent " ++ agent ++ " may be needed by multiple parallel stages") ;;;
           suggestions_append
             "Consider using alternative agents or making stages sequential")
    | None => vret tt
    end ;;;
    vret (<[agent := i]> agent_usage)).

Definition rate_limit_warning (mcp : string) : string :=
  "MCP " ++ mcp ++ " used in multiple stages - check rate limits".

Definition mcp_loop (i : nat) (mcps : list string) (mcp_usage : gmap string nat)
    : V (gmap string nat) :=
  vfold mcps mcp_usage (fun mcp_usage mcp =>
    vwhen (bool_decide (is_Some (mcp_usage !! mcp)))
      (warnings_append (rate_limit_warning mcp)) ;;;
    vret (<[mcp := i]> mcp_usage)).

Definition conflict_loop (w : WorkflowDefinition) (numbered : list (nat * WorkflowStage))
    (usage : gmap string nat * gmap string nat) : V (gmap string nat * gmap string nat) :=
  vfold numbered usage (fun usage '(i, st) =>
    agent_usage <~ agent_loop w i (recommended_agents st) (fst usage) ;;
    mcp_usage <~ mcp_loop i (suggested_mcps st) (snd usage) ;;
    vret (agent_usage, mcp_usage)).

(** Every stage depends on each earlier stage it shares an agent with. *)
Definition agents_sequenced (w : WorkflowDefinition) : Prop :=
  forall i j si sj a,
    i < j -> stages w !! i = Some si -> stages w !! j = Some sj ->
    a ∈ recommended_agents si -> a ∈ recommended_agents sj ->
    stage_label i ∈ dependencies sj.

(** The recorded user of each agent is an earlier stage that lists it. *)
Definition usage_before (w : WorkflowDefinition) (u : gmap string nat) (i : nat) : Prop :=
  forall a p, u !! a = Some p ->
    p < i /\ exists sp, stages w !! p = Some sp /\ a ∈ recommended_agents sp.

(** The entries of [l] that occur in [seen] or earlier in [l], in order. *)
Fixpoint repeated (seen : gset string) (l : list string) : list string :=
  match l with
  | [] => []
  | x :: l' =>
      ((if bool_decide (x ∈ seen) then [x] else []) ++ repeated ({[x]} ∪ seen) l')%list
  end.

Definition is_rate_limit_warning (s : string) : bool := startswith "MCP " s.

(** The state after the stages [done], numbered from [i], each succeeded on
    its first run. *)
Definition completed (s : exec_state) (i : nat) (done : list WorkflowStage) : exec_state :=
  mkExecState (trace s ++ map Attempt (seq i (length done))) (self_output_dir s)
    (local_workflow s) (l_stages_completed s + length done)
    (l_correlations_found s ++ flat_map simulated_correlations done) (l_partial_results s).

(** Stage number [i] succeeds on its first run and its results are saved. *)
Definition runs_clean (env : executor_env) (i : nat) : Prop :=
  stage_fault env i 0 = None /\ save_stage_results env i = None.

(** The part of [_perform_execution] before the stage loop, when the file
    operations succeed. *)
Definition prepared (env : executor_env) (dir : string) : Prop :=
  create_output_directory env = inr dir /\
  save_workflow_config env = None /\ archive_input_files env = None.

Definition started (w : WorkflowDefinition) (dir : string) : exec_state :=
  mkExecState [] (Some dir) (Some w) 0 [] false.

(** The stages of [sts], numbered from [i], whose first run succeeds. *)
Fixpoint first_run_successes (env : executor_env) (i : nat) (sts : list WorkflowStage)
    : list WorkflowStage :=
  match sts with
  | [] => []
  | st :: rest =>
      (match stage_fault env i 0 with Some _ => [] | None => [st] end ++
       first_run_successes env (S i) rest)%list
  end.

(** Rendering of the texts that the parser reads. *)

Definition bullet (star : bool) : string := if star then "* " else "- ".

(** A text that survives a round trip as a list item: trimmed, not empty,
    on one line. *)
Definition one_line_text (x : string) : Prop :=
  trimmed x /\ x <> "" /\ free_of "010" x.

(** A line of the inputs section. *)
Definition input_entry (p : string * string) : string := "- " ++ fst p ++ ": " ++ snd p.

Definition input_binding (p : string * string) : Prop :=
  one_line_text (fst p) /\ free_of ":" (fst p) /\ one_line_text (snd p).

(** An agent as written in a comma-separated list: its name and an
    optional remark in parentheses. *)
Definition agent_entry (p : string * option string) : string :=
  fst p ++ metadata_suffix (snd p).

Definition agent_name_ok (n : string) : Prop :=
  one_line_text n /\ free_of "(" n /\ free_of "-" n /\ free_of "," n.

Definition remark_ok (m : option string) : Prop :=
  match m with
  | Some text => free_of "," text /\ free_of "010" text
  | None => True
  end.

Definition mcp_name_ok (n : string) : Prop :=
  one_line_text n /\ free_of " " n /\ free_of "," n.


(** Two stages in sequence that share an agent. *)
Definition shared_agent_workflow : WorkflowDefinition :=
  blank_workflow "Audit the site"
    [ mkStage "Collect" "" [] ["SEOAgent"] ["firecrawl"] [] [] [] [] [];
      mkStage "Report" "" ["Stage 1"] ["SEOAgent"; "MetricsAgent"] ["fetch"] [] [] [] [] [] ].


Definition sample_output_dir : string := "reports/default-client/reports/wf_2025_09_25".

Definition sample_list_text : string :=
  "- alpha
* beta gamma".

Definition sample_agents_text : string := "SEOAgent (primary), Metrics-Agent".
Definition sample_mcps_text : string := "firecrawl crawler, fetch".

(** The path that [_validate_input_files] probes for an input, if any. *)
Definition input_location (info : input_info) : string :=
  match info with
  | InputDict loc _ => default "" loc
  | InputStr s => s
  end.

(** The directory of the client, when the slug names one. *)
Definition client_dir (env : validator_env) (w : WorkflowDefinition) : option string :=
  match client_slug w with
  | PyStr slug => Some (path_join (path_join (ccc_root env) "seo-projects") slug)
  | _ => None
  end.

Definition probed_path (env : validator_env) (w : WorkflowDefinition) (info : input_info)
    : option string :=
  let input_path := input_location info in
  if str_truthy input_path && startswith "inputs/" input_path then
    if py_truthy (client_slug w)
    then dir ← client_dir env w; Some (path_join dir input_path)
    else Some input_path
  else None.

(** Nothing that the check looks for is missing. *)
Definition inputs_present (env : validator_env) (w : WorkflowDefinition) : Prop :=
  (py_truthy (client_slug w) = true ->
   exists dir, client_dir env w = Some dir /\
               path_exists env (path_join dir "inputs") = true) /\
  forall input_name info p,
    (input_name, info) ∈ inputs w -> probed_path env w info = Some p ->
    path_exists env p = true.

(** A section as written: its header line and the lines of its body. *)
Definition section_text (p : string * list string) : list string :=
  ("## " ++ fst p) :: snd p.

(** A line that is no section header. *)
Definition plain_line (l : string) : Prop :=
  free_of "010" l /\ section_header (strip l) = None.

Definition section_ok (p : string * list string) : Prop :=
  one_line_text (fst p) /\ Forall plain_line (snd p).

(** The entry a section leaves in the dictionary. *)
Definition section_entry (p : string * list string) : string * string :=
  (str_lower (fst p), strip (join newline (snd p))).

(** A stage as written in the stages section: the digits of its header,
    its name, and the texts of four attributes. *)
Record stage_spec := mkStageSpec {
  sp_number : string;
  sp_name : string;
  sp_description : string;
  sp_dependencies : list string;
  sp_agents : list (string * option string);
  sp_mcps : list string
}.

Definition dependencies_text (deps : list string) : string :=
  if is_nil deps then "None" else join ", " deps.

Definition stage_text (sp : stage_spec) : list string :=
  [ "### Stage " ++ sp_number sp ++ ": " ++ sp_name sp;
    "**Description**: " ++ sp_description sp;
    "**Dependencies**: " ++ dependencies_text (sp_dependencies sp);
    "**Recommended Agents**: " ++ join ", " (map agent_entry (sp_agents sp));
    "**Suggested MCPs**: " ++ join ", " (sp_mcps sp) ].

Definition parsed_stage (sp : stage_spec) : WorkflowStage :=
  mkStage (sp_name sp) (sp_description sp) (sp_dependencies sp) (map fst (sp_agents sp))
    (sp_mcps sp) [] [] [] [] [].

Definition remark_free_of (c : ascii) (m : option string) : Prop :=
  match m with Some text => free_of c text | None => True end.

Definition stage_spec_ok (sp : stage_spec) : Prop :=
  (sp_number sp <> "" /\ all_digits (sp_number sp) = true) /\
  one_line_text (sp_name sp) /\
  (trimmed (sp_description sp) /\ free_of "010" (sp_description sp) /\
   free_of "*" (sp_description sp)) /\
  (Forall (fun d => one_line_text d /\ free_of "," d /\ free_of "*" d) (sp_dependencies sp) /\
   (str_lower (dependencies_text (sp_dependencies sp)) = "none" -> sp_dependencies sp = [])) /\
  Forall (fun p => agent_name_ok (fst p) /\ remark_ok (snd p) /\
                   free_of "*" (fst p) /\ remark_free_of "*" (snd p)) (sp_agents sp) /\
  Forall (fun m => mcp_name_ok m /\ free_of "*" m) (sp_mcps sp).

Definition finished (state : list WorkflowStage * option WorkflowStage) : list WorkflowStage :=
  match snd state with Some st => (fst state ++ [st])%list | None => fst state end.

(** A workflow of a client with one input file. *)
Definition client_workflow : WorkflowDefinition :=
  mkWorkflow "wf" "" "Audit the site" "" [] []
    [("keywords", InputStr "inputs/keywords.csv"); ("site", InputStr "https://example.com")]
    [blank_stage "Collect" []] [] None (PyStr "acme") None.

(** A workflow file and its stages section. *)
Definition sample_document : string :=
  "# Site audit
## Goal
Audit the site
## Stages
### Stage 1: Collect".

Definition sample_stages : list stage_spec :=
  [ mkStageSpec "1" "Collect" "Crawl the site" [] [("SEOAgent", Some "primary")] ["firecrawl"];
    mkStageSpec "7" "Report" "" ["Stage 1"] [("MetricsAgent", None)] ["fetch"; "chart-mcp"] ].

(** * Theorems *)

(** ** Cycle detection: the traversal decides whether the graph has a cycle *)

Section Traversal.

Variable g : pydict.

Lemma dict_get_entry k y : y ∈ dict_get g k -> exists v, (k, v) ∈ g /\ y ∈ v.
Proof.
  induction g as [|[k' v'] d IH]; simpl.
  - intros H. inversion H.
  - destruct (String.eqb_spec k k') as [->|Hne].
    + intros H. exists v'. split; [left | done].
    + intros H. destruct (IH H) as (v & Hin & Hy). exists v. split; [by right | done].
Qed.

Lemma edge_universe x y : edge g x y -> x ∈ universe g /\ y ∈ universe g.
Proof.
  intros H. apply dict_get_entry in H as (v & Hin & Hy).
  unfold universe, graph_nodes.
  split; apply elem_of_list_to_set, list_elem_of_In, in_flat_map;
    exists (x, v); (split; [by apply list_elem_of_In | simpl]).
  - by left.
  - right. by apply list_elem_of_In.
Qed.

Lemma edge_key x y : edge g x y -> x ∈ dict_keys g.
Proof.
  intros H. apply dict_get_entry in H as (v & Hin & _).
  unfold dict_keys. apply list_elem_of_fmap. by exists (x, v).
Qed.

Lemma key_universe k : k ∈ dict_keys g -> k ∈ universe g.
Proof.
  unfold dict_keys. intros H. apply list_elem_of_fmap in H as ([k' v] & -> & Hin).
  unfold universe, graph_nodes. apply elem_of_list_to_set, list_elem_of_In, in_flat_map.
  exists (k', v). split; [by apply list_elem_of_In | by left].
Qed.

Lemma universe_size : size (universe g) <= length (graph_nodes g).
Proof.
  unfold universe. generalize (graph_nodes g). intros l.
  induction l as [|a l IH].
  - rewrite list_to_set_nil, size_empty. done.
  - rewrite list_to_set_cons, size_union_alt, size_singleton.
    assert (size (list_to_set l ∖ {[a]} : gset string) <= size (list_to_set l : gset string))
      by (apply subseteq_size; set_solver).
    simpl. lia.
Qed.

Lemma settled_rtc B x y : settled g B -> x ∈ B -> rtc (edge g) x y -> y ∈ B.
Proof. intros [Hc _] Hx Hr. induction Hr; eauto. Qed.

Lemma tc_first x z : tc (edge g) x z -> exists y, edge g x y /\ rtc (edge g) y z.
Proof.
  intros H. destruct H as [x z H | x y z H Ht].
  - exists z. split; [done | apply rtc_refl].
  - exists y. split; [done | by apply tc_rtc].
Qed.

(** Adding a node whose successors are all settled keeps the set settled. *)
Lemma settled_add B node :
  settled g B -> node ∉ B -> (forall n, edge g node n -> n ∈ B) ->
  settled g ({[node]} ∪ B).
Proof.
  intros HB Hn Hs. split.
  - intros b y Hb He. apply elem_of_union in Hb as [Hb|Hb].
    + apply elem_of_singleton in Hb as ->. apply elem_of_union_r. by apply Hs.
    + apply elem_of_union_r. by apply (proj1 HB b).
  - intros b Hb Ht. apply elem_of_union in Hb as [Hb|Hb].
    + apply elem_of_singleton in Hb as ->.
      apply tc_first in Ht as (y & He & Hr).
      apply Hn. eapply settled_rtc; eauto.
    + by apply (proj2 HB b).
Qed.

Lemma scan_neighbors_ok depth node :
  visit_ok g depth ->
  forall ns (v r : gset string),
    (forall n, n ∈ ns -> edge g node n) ->
    node ∈ r -> r ⊆ v ->
    (forall x, x ∈ r -> rtc (edge g) x node) ->
    size (universe g ∖ v) <= depth ->
    settled g (v ∖ r) ->
    exists b v' r',
      scan_neighbors (has_cycle depth g) ns (v, r) = Some (b, (v', r')) /\
      (b = true -> cyclic g) /\
      (b = false -> r' = r /\ v ⊆ v' /\ settled g (v' ∖ r) /\
                    forall n, n ∈ ns -> n ∈ v' ∖ r).
Proof.
  intros IHd ns. induction ns as [|n ns IH]; intros v r Hedge Hnode Hsub Hreach Hsize Hset.
  - exists false, v, r. simpl. split; [done|]. split; [done|].
    intros _. repeat split; try done; try apply Hset. intros n Hn. inversion Hn.
  - simpl. case_bool_decide as Hv.
    + destruct (IHd n v r) as (b & v1 & r1 & Heq & Htrue & Hfalse); try done.
      { apply (edge_universe node n). apply Hedge. left. }
      { intros x Hx. eapply rtc_r; [by apply Hreach|]. apply Hedge. left. }
      rewrite Heq. destruct b.
      * exists true, v1, r1. split; [done|]. split; [done|]. done.
      * destruct (Hfalse eq_refl) as (-> & Hvv & Hn1 & Hset1).
        destruct (IH v1 r) as (b & v2 & r2 & Heq2 & Htrue2 & Hfalse2); try done.
        { intros m Hm. apply Hedge. by right. }
        { set_solver. }
        { etrans; [|exact Hsize]. apply subseteq_size. set_solver. }
        exists b, v2, r2. split; [done|]. split; [done|].
        intros Hb. destruct (Hfalse2 Hb) as (-> & Hv2 & Hset2 & Hall).
        repeat split; try done; try apply Hset2.
        { set_solver. }
        intros m Hm. apply elem_of_cons in Hm as [->|Hm]; [|by apply Hall].
        set_solver.
    + assert (Hin : n ∈ v) by (first [exact Hv | by apply dec_stable]).
      case_bool_decide as Hr.
      * exists true, v, r. split; [done|]. split; [|done].
        intros _. exists n. eapply tc_rtc_l; [by apply Hreach|].
        apply tc_once. apply Hedge. left.
      * destruct (IH v r) as (b & v2 & r2 & Heq2 & Htrue2 & Hfalse2); try done.
        { intros m Hm. apply Hedge. by right. }
        exists b, v2, r2. split; [done|]. split; [done|].
        intros Hb. destruct (Hfalse2 Hb) as (-> & Hv2 & Hset2 & Hall).
        repeat split; try done; try apply Hset2.
        intros m Hm. apply elem_of_cons in Hm as [->|Hm]; [|by apply Hall].
        set_solver.
Qed.

Lemma has_cycle_ok depth : visit_ok g depth.
Proof.
  induction depth as [|depth IHd]; intros node v r Hv Hsub HU Hsize Hreach Hset.
  - exfalso. assert (Hemp : universe g ∖ v ≡ ∅) by (apply size_empty_inv; lia).
    set_solver.
  - simpl.
    assert (Hnr : node ∉ r) by set_solver.
    destruct (scan_neighbors_ok depth node IHd (dict_get g node) ({[node]} ∪ v) ({[node]} ∪ r))
      as (b & v1 & r1 & Heq & Htrue & Hfalse).
    { intros n Hn. exact Hn. }
    { set_solver. }
    { set_solver. }
    { intros x Hx. apply elem_of_union in Hx as [Hx|Hx].
      - apply elem_of_singleton in Hx as ->. apply rtc_refl.
      - by apply Hreach. }
    { assert (Hlt : size (universe g ∖ ({[node]} ∪ v)) < size (universe g ∖ v)).
      { apply subset_size. set_solver. }
      lia. }
    { replace (({[node]} ∪ v) ∖ ({[node]} ∪ r)) with (v ∖ r) by set_solver. done. }
    rewrite Heq. destruct b.
    + exists true, v1, r1. done.
    + destruct (Hfalse eq_refl) as (-> & Hvv & Hset1 & Hall).
      exists false, v1, (({[node]} ∪ r) ∖ {[node]}). split; [done|]. split; [done|].
      intros _. split; [set_solver|]. split; [set_solver|]. split; [set_solver|].
      replace (v1 ∖ r) with ({[node]} ∪ (v1 ∖ ({[node]} ∪ r))) by
        (apply set_eq; intros z; destruct (decide (z = node)); set_solver).
      apply settled_add; [done | set_solver |].
      intros n Hn. by apply Hall.
Qed.

Lemma scan_roots_ok depth roots (v : gset string) :
  size (universe g) <= depth ->
  (forall n, n ∈ roots -> n ∈ universe g) ->
  settled g v ->
  exists b, scan_roots depth g roots v = Some b /\
    (b = true -> cyclic g) /\
    (b = false -> exists v', settled g v' /\ v ⊆ v' /\ forall n, n ∈ roots -> n ∈ v').
Proof.
  intros Hd. revert v. induction roots as [|n roots IH]; intros v HU Hset.
  - exists false. simpl. split; [done|]. split; [done|].
    intros _. exists v. split; [done|]. split; [done|]. intros n Hn. inversion Hn.
  - simpl. case_bool_decide as Hv.
    + assert (Hsz : size (universe g ∖ v) <= depth).
      { etrans; [|exact Hd]. apply subseteq_size. set_solver. }
      assert (Hset0 : settled g (v ∖ ∅)).
      { replace (v ∖ ∅) with v by set_solver. done. }
      destruct (has_cycle_ok depth n v ∅ Hv ltac:(set_solver) (HU n ltac:(left)) Hsz
                  ltac:(set_solver) Hset0) as (b & v1 & r1 & Heq & Htrue & Hfalse).
      rewrite Heq. destruct b.
      * exists true. done.
      * destruct (Hfalse eq_refl) as (-> & Hvv & Hn1 & Hset1).
        replace (v1 ∖ ∅) with v1 in Hset1 by set_solver.
        destruct (IH v1) as (b & Heq2 & Htrue2 & Hfalse2); [|done|].
        { intros m Hm. apply HU. by right. }
        exists b. split; [done|]. split; [done|].
        intros Hb. destruct (Hfalse2 Hb) as (v2 & Hset2 & Hv2 & Hall).
        exists v2. split; [done|]. split; [set_solver|].
        intros m Hm. apply elem_of_cons in Hm as [->|Hm]; [set_solver | by apply Hall].
    + assert (Hin : n ∈ v) by (first [exact Hv | by apply dec_stable]).
      destruct (IH v) as (b & Heq2 & Htrue2 & Hfalse2); [|done|].
      { intros m Hm. apply HU. by right. }
      exists b. split; [done|]. split; [done|].
      intros Hb. destruct (Hfalse2 Hb) as (v2 & Hset2 & Hv2 & Hall).
      exists v2. split; [done|]. split; [done|].
      intros m Hm. apply elem_of_cons in Hm as [->|Hm]; [set_solver | by apply Hall].
Qed.

(** With a call depth of one frame per node, the traversal of the whole
    graph returns, and says [True] exactly when the graph has a cycle. *)
Lemma traversal_exact depth :
  size (universe g) <= depth ->
  exists b, scan_roots depth g (dict_keys g) ∅ = Some b /\
            (b = true <-> cyclic g).
Proof.
  intros Hdepth.
  destruct (scan_roots_ok depth (dict_keys g) ∅)
    as (b & Heq & Htrue & Hfalse).
  - exact Hdepth.
  - apply key_universe.
  - split; set_solver.
  - exists b. split; [done|]. split; [done|].
    intros [x Hx]. destruct b; [done|]. exfalso.
    destruct (Hfalse eq_refl) as (v' & Hset & _ & Hall).
    apply (proj2 Hset x); [|done].
    apply Hall. apply tc_first in Hx as (y & He & _). by eapply edge_key.
Qed.
End Traversal.

(** ** The graph of a stage list *)

Lemma dict_get_set k v d k' :
  dict_get (dict_set k v d) k' = if String.eqb k' k then v else dict_get d k'.
Proof.
  induction d as [|[k1 v1] d IH]; simpl.
  - done.
  - destruct (String.eqb_spec k k1) as [->|Hne]; simpl.
    + destruct (String.eqb_spec k' k1); done.
    + rewrite IH. destruct (String.eqb_spec k' k1) as [->|Hne'].
      * destruct (String.eqb_spec k1 k); [congruence | done].
      * done.
Qed.

Lemma stage_label_inj i j : stage_label i = stage_label j -> i = j.
Proof.
  unfold stage_label. intros H. apply (inj (String.append "Stage ")) in H.
  apply (inj pretty) in H. lia.
Qed.

Lemma build_graph_other sts : forall i g k,
  (forall j, j < length sts -> k <> stage_label (i + j)) ->
  dict_get (build_graph i sts g) k = dict_get g k.
Proof.
  induction sts as [|st sts IH]; intros i g k Hk; simpl.
  - done.
  - rewrite IH.
    + rewrite dict_get_set. destruct (String.eqb_spec k (stage_label i)) as [->|]; [|done].
      exfalso. apply (Hk 0); [simpl; lia|]. by rewrite Nat.add_0_r.
    + intros j Hj. replace (S i + j) with (i + S j) by lia. apply Hk. simpl. lia.
Qed.

Lemma build_graph_stage sts : forall i g j st,
  sts !! j = Some st ->
  dict_get (build_graph i sts g) (stage_label (i + j)) = dependencies st.
Proof.
  induction sts as [|st0 sts IH]; intros i g j st Hj; simpl.
  - done.
  - destruct j as [|j]; simpl in Hj.
    + injection Hj as ->. rewrite build_graph_other.
      * rewrite dict_get_set, Nat.add_0_r, String.eqb_refl. done.
      * intros j _ Heq. apply stage_label_inj in Heq. lia.
    + replace (i + S j) with (S i + j) by lia. by apply IH.
Qed.

Lemma edge_build_graph sts x y :
  edge (build_graph 0 sts []) x y <-> depends_on sts x y.
Proof.
  unfold edge, depends_on. split.
  - intros H.
    destruct (decide (x ∈ stage_label <$> seq 0 (length sts))) as [Hin|Hno].
    + apply list_elem_of_fmap in Hin as (j & -> & Hj).
      apply elem_of_seq in Hj as [_ Hj]. simpl in Hj.
      destruct (lookup_lt_is_Some_2 sts j Hj) as [st Hst].
      pose proof (build_graph_stage sts 0 [] j st Hst) as Hg. simpl in Hg.
      rewrite Hg in H. by exists j, st.
    + rewrite build_graph_other in H; [inversion H|].
      intros j Hj ->. apply Hno. apply list_elem_of_fmap. exists j.
      split; [done|]. apply elem_of_seq. simpl. lia.
  - intros (i & st & Hst & -> & Hy).
    pose proof (build_graph_stage sts 0 [] i st Hst) as Hg. simpl in Hg.
    by rewrite Hg.
Qed.

Lemma tc_equiv {A} (R R' : relation A) :
  (forall x y, R x y <-> R' x y) -> forall x y, tc R x y <-> tc R' x y.
Proof.
  intros H x y. split; intros Ht; induction Ht.
  - apply tc_once. by apply H.
  - eapply tc_l; [by apply H | done].
  - apply tc_once. by apply H.
  - eapply tc_l; [by apply H | done].
Qed.

Lemma elem_of_dict_set k v d kv :
  kv ∈ dict_set k v d -> kv = (k, v) \/ kv ∈ d.
Proof.
  induction d as [|[k' v'] d IH]; simpl.
  - intros H. apply list_elem_of_singleton in H. by left.
  - destruct (String.eqb k k').
    + rewrite !elem_of_cons. tauto.
    + rewrite !elem_of_cons. intros [H|H]; [tauto|]. apply IH in H. tauto.
Qed.

Lemma elem_of_build_graph sts : forall i g kv,
  kv ∈ build_graph i sts g ->
  kv ∈ g \/ exists j st, sts !! j = Some st /\ kv = (stage_label (i + j), dependencies st).
Proof.
  induction sts as [|st sts IH]; intros i g kv; simpl.
  - by left.
  - intros H. apply IH in H as [H|(j & st' & Hj & ->)].
    + apply elem_of_dict_set in H as [->|H]; [|by left].
      right. exists 0, st. by rewrite Nat.add_0_r.
    + right. exists (S j), st'. split; [done|]. by replace (i + S j) with (S i + j) by lia.
Qed.

(** The nodes of the graph of a stage list are among its labels. *)
Lemma universe_labels sts : universe (build_graph 0 sts []) ⊆ labels sts.
Proof.
  intros x Hx. unfold universe, graph_nodes in Hx.
  apply elem_of_list_to_set, list_elem_of_In, in_flat_map in Hx as (kv & Hin & Hx).
  apply list_elem_of_In, elem_of_build_graph in Hin as [Hin|(j & st & Hj & ->)].
  { by apply elem_of_nil in Hin. }
  unfold labels. simpl in Hx. destruct Hx as [<-|Hx].
  - apply elem_of_union_l, elem_of_list_to_set, list_elem_of_fmap. exists j.
    split; [done|]. apply elem_of_seq. apply lookup_lt_Some in Hj. lia.
  - apply elem_of_union_r, elem_of_list_to_set, list_elem_of_In, in_flat_map.
    exists st. split; [|done]. apply list_elem_of_In. by eapply list_elem_of_lookup_2.
Qed.

(** With room for one frame per label the check returns, and it returns
    [True] exactly on a cyclic stage list. *)
Lemma has_circular_total room sts :
  size (labels sts) <= room ->
  exists b, _has_circular_dependencies room sts = Some b /\
            (b = true <-> has_dependency_cycle sts).
Proof.
  intros Hroom.
  destruct (traversal_exact (build_graph 0 sts []) room) as (b & Heq & Hb).
  { etrans; [|exact Hroom]. apply subseteq_size, universe_labels. }
  exists b. split; [exact Heq|]. rewrite Hb. unfold cyclic, has_dependency_cycle.
  split; intros [x Hx]; exists x; eapply tc_equiv; try exact Hx;
    intros; [symmetry|]; apply edge_build_graph.
Qed.

(** ** The checks of the validator return and extend the lists *)





Lemma returns_weaken {A} (m : V A) (P P' : string -> Prop) (Q Q' : A -> Prop) :
  returns m P Q -> (forall e, P e -> P' e) -> (forall a, Q a -> Q' a) -> returns m P' Q'.
Proof.
  intros Hm HP HQ r. destruct (Hm r) as (a & r' & Heq & Ha & [(es & He & Hp) Hw]).
  exists a, r'. split; [done|]. split; [by apply HQ|]. split; [|done].
  exists es. split; [done|]. eapply Forall_impl; eauto.
Qed.



















(** What it returns when parsing raised. *)
Lemma validate_workflow_unparsed env e :
  validate_workflow env (inl e) =
  inr (mkValidationResult false false false false false
         ["Failed to parse workflow: " ++ exn_msg e] [] []).
Proof. reflexivity. Qed.

(** ** The executor *)

Ltac run_monad :=
  cbv beta iota delta [vbind vret vraise vget vtry vwhen vmodify io log sleep
    set_output_dir set_workflow set_locals count_stage set_partial_results].

Lemma execute_unparsed env dry_run e :
  parse_suggested env = inl e ->
  exists e', fst (execute_workflow env dry_run) = inl e' /\ exn_class e' = "UnboundLocalError".
Proof.
  intros H. unfold execute_workflow. run_monad. rewrite H. simpl.
  eexists. split; reflexivity.
Qed.

Lemma perform_execution_result env w s res s' :
  _perform_execution env w s = (inr res, s') ->
  total_stages res = length (stages w) /\
  match error_message res with
  | None => success res = (stages_completed res =? total_stages res)
  | Some _ => success res = false /\ partial_results res = true
  end.
Proof.
  unfold _perform_execution. run_monad.
  destruct (create_output_directory env) as [e|d]; [discriminate|].
  destruct (save_workflow_config env); [discriminate|].
  destruct (archive_input_files env); [discriminate|].
  cbn [trace self_output_dir local_workflow].
  match goal with |- context [stage_loop env (stages w) 1 ?s0] =>
    destruct (stage_loop env (stages w) 1 s0) as [[e|[]] s1] end.
  - intros [= <- <-]. simpl. done.
  - destruct (0 <? l_stages_completed s1); [destruct (generate_final_reports env)|];
      intros [= <- <-]; simpl; done.
Qed.

Lemma execute_result env dry_run res s :
  execute_workflow env dry_run = (inr res, s) ->
  if dry_run then success res = true /\ stages_completed res = 0
  else match error_message res with
       | None => success res = (stages_completed res =? total_stages res)
       | Some _ => success res = false
       end.
Proof.
  unfold execute_workflow. run_monad.
  destruct (parse_suggested env) as [e|w]; [discriminate|].
  destruct dry_run.
  - intros [= <- <-]. done.
  - destruct (_perform_execution env w _) as [[e|r] s1] eqn:Hp.
    + destruct (local_workflow s1); [|discriminate]. intros [= <- <-]. done.
    + intros [= <- <-]. apply perform_execution_result in Hp as [_ Hp].
      destruct (error_message r); [tauto | done].
Qed.

(** ** Retries and back-off *)

Lemma logged_nil s : logged s [] = s.
Proof. unfold logged. rewrite app_nil_r. by destruct s. Qed.

Lemma logged_logged s a b : logged (logged s a) b = logged s (a ++ b).
Proof. unfold logged. simpl. by rewrite app_assoc. Qed.

Lemma execute_stage_run env st i k s :
  _execute_stage env st i k s = (inr (stage_outcome env st i k), logged s [Attempt i]).
Proof.
  unfold _execute_stage, stage_outcome. run_monad.
  destruct (stage_fault env i k); reflexivity.
Qed.

Lemma retry_loop_always_fails env st i d : forall n a s,
  (0 <= d)%Z ->
  (forall k, is_Some (stage_fault env i k)) ->
  retry_loop env st i d a n s =
  (inr (mkStageResult false [] (Some "Max retries exceeded")), logged s (retry_events i d a n)).
Proof.
  induction n as [|n IH]; intros a s Hd Hf; simpl.
  - unfold vret, retry_events. simpl. by rewrite logged_nil.
  - run_monad.
    assert (Hs : (d * 2 ^ Z.of_nat a <? 0)%Z = false).
    { apply Z.ltb_ge. apply Z.mul_nonneg_nonneg; [done|]. apply Z.pow_nonneg. lia. }
    rewrite Hs. fold (logged s [Sleep (d * 2 ^ Z.of_nat a)]).
    rewrite execute_stage_run. unfold stage_outcome.
    destruct (Hf (S a)) as [e ->]. simpl.
    rewrite IH by done. rewrite !logged_logged. reflexivity.
Qed.

Lemma quiet_nil i : quiet i [].
Proof. apply not_elem_of_nil. Qed.
Lemma quiet_attempt i j evs : j <> i -> quiet i evs -> quiet i (Attempt j :: evs).
Proof. unfold quiet. rewrite elem_of_cons. intros Hj Hq [H|H]; [congruence | done]. Qed.
Lemma quiet_sleep i d evs : quiet i evs -> quiet i (Sleep d :: evs).
Proof. unfold quiet. rewrite elem_of_cons. intros Hq [H|H]; [discriminate | done]. Qed.
Lemma quiet_app i a b : quiet i a -> quiet i b -> quiet i (a ++ b).
Proof. unfold quiet. rewrite elem_of_app. tauto. Qed.

Create HintDb quiet_db.
#[local] Hint Resolve quiet_nil quiet_attempt quiet_sleep quiet_app : quiet_db.

Lemma retry_loop_frame env st j d i : forall n a s out s',
  j <> i ->
  retry_loop env st j d a n s = (out, s') ->
  exists evs, s' = logged s evs /\ quiet i evs.
Proof.
  induction n as [|n IH]; intros a s out s' Hj; simpl.
  - unfold vret. intros [= <- <-]. exists []. rewrite logged_nil. auto with quiet_db.
  - run_monad. destruct (d * 2 ^ Z.of_nat a <? 0)%Z.
    + intros [= <- <-]. exists []. rewrite logged_nil. auto with quiet_db.
    + fold (logged s [Sleep (d * 2 ^ Z.of_nat a)]). rewrite execute_stage_run.
      destruct (sr_success (stage_outcome env st j (S a))).
      * intros [= <- <-]. rewrite logged_logged. eexists. split; [reflexivity|].
        simpl. auto with quiet_db.
      * intros Hr. apply IH in Hr as (evs & -> & Hq); [|done].
        rewrite !logged_logged. eexists. split; [reflexivity|].
        simpl. auto with quiet_db.
Qed.

(** Under the retry policy an iteration for another stage either goes on
    to the next stage, having counted its stage, or ends the loop; it never
    runs stage [i]. *)
Lemma stage_iteration_other env st j i s out s' :
  retry_policy env -> j <> i ->
  stage_iteration env st j s = (out, s') ->
  exists evs, trace s' = (trace s ++ evs)%list /\ quiet i evs /\
    (out = inr false -> l_stages_completed s' = S (l_stages_completed s)).
Proof.
  intros Hp Hj. unfold stage_iteration. unfold vbind at 1. rewrite execute_stage_run.
  destruct (sr_success (stage_outcome env st j 0)).
  - run_monad. destruct (save_stage_results env j); intros [= <- <-]; simpl;
      exists [Attempt j]; (split; [done|]); (split; [auto with quiet_db|]); done.
  - rewrite Hp. simpl. unfold vbind at 1.
    destruct (_retry_stage env st j (logged s [Attempt j])) as [[e|rr] s1] eqn:Hr;
      unfold _retry_stage in Hr;
      apply (retry_loop_frame _ _ _ _ i) in Hr as (evs & -> & Hq); try done.
    + intros [= <- <-]. rewrite logged_logged. simpl. eexists. split; [reflexivity|].
      split; [auto with quiet_db | done].
    + rewrite logged_logged.
      destruct (sr_success rr); run_monad.
      * destruct (save_stage_results env j); intros [= <- <-]; simpl;
          eexists; (split; [reflexivity|]); (split; [auto with quiet_db|]); done.
      * intros [= <- <-]. simpl. eexists. split; [reflexivity|].
        split; [auto with quiet_db | done].
Qed.

(** The iteration for a stage that always fails: four runs, the three
    retries each after its back-off, then [break]. *)
Lemma stage_iteration_always_fails env st i s :
  retry_policy env ->
  default 3%Z (cfg_max_retries (config env)) = 3%Z ->
  (0 <= default 5%Z (cfg_retry_delay (config env)))%Z ->
  (forall k, is_Some (stage_fault env i k)) ->
  stage_iteration env st i s =
  (inr true,
   mkExecState
     (trace s ++ Attempt i :: retry_events i (default 5%Z (cfg_retry_delay (config env))) 0 3)
     (self_output_dir s) (local_workflow s) (l_stages_completed s)
     (l_correlations_found s) true).
Proof.
  intros Hp Hm Hd Hf. unfold stage_iteration. unfold vbind at 1.
  rewrite execute_stage_run. unfold stage_outcome at 1 2.
  destruct (Hf 0) as [e ->]. simpl. rewrite Hp. simpl.
  unfold vbind at 1. unfold _retry_stage. rewrite Hm.
  rewrite retry_loop_always_fails by done. simpl.
  run_monad. simpl. rewrite <- app_assoc. reflexivity.
Qed.

Lemma quiet_filter i evs : quiet i evs -> filter (fun ev => ev = Attempt i) evs = [].
Proof.
  unfold quiet. induction evs as [|ev evs IH]; [done|].
  rewrite elem_of_cons, filter_cons. intros Hq.
  destruct (decide (ev = Attempt i)) as [->|]; [tauto|]. apply IH. tauto.
Qed.

Lemma sleep_run d s : (0 <= d)%Z -> sleep d s = (inr tt, logged s [Sleep d]).
Proof. intros Hd. unfold sleep. by rewrite (proj2 (Z.ltb_ge _ _) Hd). Qed.

Lemma backoff_nonneg d a : (0 <= d)%Z -> (0 <= d * 2 ^ Z.of_nat a)%Z.
Proof. intros Hd. apply Z.mul_nonneg_nonneg; [done|]. apply Z.pow_nonneg. lia. Qed.

Lemma retry_events_S i d a n :
  retry_events i d a (S n) =
  Sleep (d * 2 ^ Z.of_nat a) :: Attempt i :: retry_events i d (S a) n.
Proof. reflexivity. Qed.

Lemma retry_loop_recovers env st i d : forall j n a s,
  (0 <= d)%Z ->
  (forall k, a < k <= a + j -> is_Some (stage_fault env i k)) ->
  stage_fault env i (S (a + j)) = None ->
  j < n ->
  retry_loop env st i d a n s =
  (inr (mkStageResult true (simulated_correlations st) None),
   logged s (retry_events i d a (S j))).
Proof.
  induction j as [|j IH]; intros n a s Hd Hf Hok Hn; (destruct n as [|n]; [lia|]);
    cbn [retry_loop]; unfold vbind at 1; rewrite sleep_run by (by apply backoff_nonneg);
    unfold vbind at 1; rewrite execute_stage_run; unfold stage_outcome.
  - rewrite Nat.add_0_r in Hok. rewrite Hok. simpl. unfold vret.
    by rewrite logged_logged.
  - destruct (Hf (S a)) as [e ->]; [lia|]. cbn [sr_success].
    rewrite IH; [| done | intros k Hk; apply Hf; lia
                 | by replace (S a + j) with (a + S j) by lia | lia].
    rewrite !logged_logged, (retry_events_S i d a (S j)). reflexivity.
Qed.


Lemma completed_nil s i : completed s i [] = s.
Proof. unfold completed. simpl. rewrite !app_nil_r, Nat.add_0_r. by destruct s. Qed.

Lemma completed_cons s i st sts :
  completed (completed s i [st]) (S i) sts = completed s i (st :: sts).
Proof.
  unfold completed. simpl. rewrite app_nil_r, <- !app_assoc. simpl.
  f_equal. lia.
Qed.

Lemma stage_iteration_clean env st i s :
  runs_clean env i ->
  stage_iteration env st i s = (inr false, completed s i [st]).
Proof.
  intros [Hf Hs]. unfold stage_iteration. unfold vbind at 1. rewrite execute_stage_run.
  unfold stage_outcome. rewrite Hf. simpl. run_monad. rewrite Hs. simpl.
  unfold completed. cbn [length seq map flat_map]. rewrite app_nil_r.
  do 2 f_equal. lia.
Qed.

Lemma stage_loop_clean_prefix env rest : forall pre i s,
  (forall k, k < length pre -> runs_clean env (i + k)) ->
  stage_loop env (pre ++ rest) i s = stage_loop env rest (i + length pre) (completed s i pre).
Proof.
  induction pre as [|st pre IH]; intros i s Hc; simpl.
  - by rewrite completed_nil, Nat.add_0_r.
  - unfold vbind. rewrite stage_iteration_clean
      by (specialize (Hc 0); rewrite Nat.add_0_r in Hc; apply Hc; simpl; lia).
    rewrite IH.
    + rewrite completed_cons. f_equal. lia.
    + intros k Hk. replace (S i + k) with (i + S k) by lia. apply Hc. simpl. lia.
Qed.

Lemma execute_prepared env w dir :
  parse_suggested env = inr w -> prepared env dir ->
  execute_workflow env false =
  match stage_loop env (stages w) 1 (started w dir) with
  | (inl e, s) =>
      (inr (mkExecutionResult false (l_stages_completed s) (length (stages w))
              (self_output_dir s) (l_correlations_found s) (Some (exn_msg e)) true None), s)
  | (inr _, s) =>
      if 0 <? l_stages_completed s then
        match generate_final_reports env with
        | Some e =>
            (inr (mkExecutionResult false (l_stages_completed s) (length (stages w))
                    (self_output_dir s) (l_correlations_found s) (Some (exn_msg e)) true None),
             s)
        | None =>
            (inr (mkExecutionResult (l_stages_completed s =? length (stages w))
                    (l_stages_completed s) (length (stages w)) (self_output_dir s)
                    (l_correlations_found s) None (l_partial_results s) None), s)
        end
      else
        (inr (mkExecutionResult (l_stages_completed s =? length (stages w))
                (l_stages_completed s) (length (stages w)) (self_output_dir s)
                (l_correlations_found s) None (l_partial_results s) None), s)
  end.
Proof.
  intros Hp (Hc & Hs & Ha). unfold execute_workflow. run_monad. rewrite Hp.
  unfold _perform_execution. run_monad. rewrite Hc, Hs, Ha.
  cbn [trace self_output_dir local_workflow]. fold (started w dir).
  destruct (stage_loop env (stages w) 1 (started w dir)) as [[e|[]] s1]; [done|].
  destruct (0 <? l_stages_completed s1); [destruct (generate_final_reports env)|]; done.
Qed.

(** The first run that succeeds. *)
Lemma first_success {A} (f : nat -> option A) k :
  f k = None ->
  exists k0, k0 <= k /\ f k0 = None /\ forall k', k' < k0 -> is_Some (f k').
Proof.
  assert (H : forall n,
    (exists k0, k0 <= n /\ f k0 = None /\ forall k', k' < k0 -> is_Some (f k')) \/
    (forall k', k' <= n -> is_Some (f k'))).
  { induction n as [|n [IH|IH]].
    - destruct (f 0) eqn:H0.
      + right. intros k' Hk'. replace k' with 0 by lia. by rewrite H0.
      + left. exists 0. split; [lia|]. split; [done|]. intros k' Hk'. lia.
    - left. destruct IH as (k0 & Hk0 & Hf & Hb). exists k0. split; [lia | done].
    - destruct (f (S n)) eqn:HS.
      + right. intros k' Hk'. destruct (decide (k' = S n)) as [->|]; [by rewrite HS|].
        apply IH. lia.
      + left. exists (S n). split; [lia|]. split; [done|]. intros k' Hk'. apply IH. lia. }
  intros Hk. destruct (H k) as [Hfound|Hall]; [done|].
  destruct (Hall k) as [x Hx]; [lia|]. congruence.
Qed.

(** The iteration for a stage that completes goes on to the next stage
    and leaves [partial_results] as it was. *)
Lemma stage_iteration_completes env st j s :
  retry_policy env ->
  (0 <= default 5%Z (cfg_retry_delay (config env)))%Z ->
  completes env (Z.to_nat (default 3%Z (cfg_max_retries (config env)))) j ->
  exists s', stage_iteration env st j s = (inr false, s') /\
             l_partial_results s' = l_partial_results s.
Proof.
  intros Hp Hd [(k & Hk & Hnone) Hsave].
  destruct (first_success (stage_fault env j) k Hnone) as (k0 & Hk0 & Hf0 & Hbelow).
  destruct k0 as [|k0].
  - rewrite stage_iteration_clean by done. eexists. split; [reflexivity | done].
  - unfold stage_iteration. unfold vbind at 1. rewrite execute_stage_run.
    unfold stage_outcome at 1 2. destruct (Hbelow 0) as [e ->]; [lia|].
    cbn [sr_success]. rewrite Hp. cbn [String.eqb Ascii.eqb Bool.eqb].
    unfold vbind at 1. unfold _retry_stage.
    rewrite (retry_loop_recovers env st j _ k0);
      [| done | intros k' Hk'; apply Hbelow; lia | done | lia].
    cbn [sr_success sr_correlations]. run_monad. rewrite Hsave.
    eexists. split; [reflexivity | done].
Qed.

(** The stage loop on a list whose stage number [i] fails on every run
    while the stages before it complete: it ends at stage [i], after the
    four runs and three back-offs of that stage, and runs no later stage. *)
Lemma stage_loop_reaches env i st post :
  retry_policy env ->
  default 3%Z (cfg_max_retries (config env)) = 3%Z ->
  (0 <= default 5%Z (cfg_retry_delay (config env)))%Z ->
  (forall k, is_Some (stage_fault env i k)) ->
  forall pre j s,
    i = j + length pre ->
    (forall n, j <= n < i -> completes env 3 n) ->
    exists s' mid,
      stage_loop env (pre ++ st :: post) j s = (inr tt, s') /\
      l_stages_completed s' = l_stages_completed s + length pre /\
      l_partial_results s' = true /\
      (forall n, i <= n -> quiet n mid) /\
      trace s' = (trace s ++ mid ++ Attempt i ::
                    retry_events i (default 5%Z (cfg_retry_delay (config env))) 0 3)%list.
Proof.
  intros Hp Hm Hd Hf pre. induction pre as [|p pre IH]; intros j s Hi Hc; simpl.
  - assert (j = i) as -> by (simpl in Hi; lia).
    unfold vbind. rewrite stage_iteration_always_fails by done. unfold vret.
    eexists _, []. split; [reflexivity|]. simpl. split; [lia|]. split; [done|].
    split; [intros n _; apply quiet_nil | done].
  - assert (Hj : j < i) by (simpl in Hi; lia).
    destruct (stage_iteration_completes env p j s Hp Hd) as (s1 & Hit & Hpr).
    { rewrite Hm. apply Hc. lia. }
    assert (Hev : exists evs, trace s1 = (trace s ++ evs)%list /\
                    (forall n, i <= n -> quiet n evs) /\
                    l_stages_completed s1 = S (l_stages_completed s)).
    { destruct (stage_iteration_other env p j i s _ _ Hp ltac:(lia) Hit)
        as (evs & Ht & _ & Hcount).
      exists evs. split; [done|]. split; [|by apply Hcount].
      intros n Hn.
      destruct (stage_iteration_other env p j n s _ _ Hp ltac:(lia) Hit)
        as (evs' & Ht' & Hq & _).
      rewrite Ht in Ht'. apply app_inv_head in Ht' as ->. done. }
    destruct Hev as (evs & Ht & Hq & Hcount).
    unfold vbind. rewrite Hit.
    destruct (IH (S j) s1) as (s' & mid & Hl & Hc' & Hpr' & Hqm & Htr).
    { simpl in Hi. lia. }
    { intros n Hn. apply Hc. lia. }
    exists s', (evs ++ mid)%list. split; [done|].
    split; [rewrite Hc', Hcount; simpl; lia|]. split; [done|].
    split; [intros n Hn; apply quiet_app; auto|].
    rewrite Htr, Ht. by rewrite <- !app_assoc.
Qed.

(** C2, amended: retry with [max_retries = 3] and a [retry_delay] that is
    not negative and small enough for [time.sleep] to take its fourfold,
    the longest back-off.  In a real run that is set up, under the retry
    policy, a stage that fails on every run and whose earlier stages all
    complete (on the first run or on a retry) is run exactly four times,
    the three retries coming after back-offs of [retry_delay * 2^0],
    [retry_delay * 2^1] and [retry_delay * 2^2]; the loop then stops, no
    later stage is run, and the result counts only the stages before it:
    [stages_completed] is their number, [success] is false and
    [partial_results] is true. *)
Theorem C2_retry_exhaustion (env : executor_env) (w : WorkflowDefinition) (dir : string)
    (pre : list WorkflowStage) (st : WorkflowStage) (post : list WorkflowStage) :
  parse_suggested env = inr w ->
  prepared env dir ->
  stages w = (pre ++ st :: post)%list ->
  retry_policy env ->
  default 3%Z (cfg_max_retries (config env)) = 3%Z ->
  (0 <= default 5%Z (cfg_retry_delay (config env)))%Z ->
  (default 5%Z (cfg_retry_delay (config env)) * 2 ^ 2 <= longest_sleep)%Z ->
  (forall n, 1 <= n <= length pre -> completes env 3 n) ->
  (forall k, is_Some (stage_fault env (S (length pre)) k)) ->
  let i := S (length pre) in
  let d := default 5%Z (cfg_retry_delay (config env)) in
  exists res s,
    execute_workflow env false = (inr res, s) /\
    length (filter (fun ev => ev = Attempt i) (trace s)) = 4 /\
    (exists before, (forall n, i <= n -> quiet n before) /\
       trace s = (before ++ [Attempt i; Sleep (d * 2 ^ 0); Attempt i; Sleep (d * 2 ^ 1);
                             Attempt i; Sleep (d * 2 ^ 2); Attempt i])%list) /\
    stages_completed res = length pre /\
    success res = false /\
    partial_results res = true.
Proof.
  intros Hparse Hprep Hst Hp Hm Hd _ Hc Hf i d.
  destruct (stage_loop_reaches env i st post Hp Hm Hd Hf pre 1 (started w dir))
    as (s1 & mid & Hl & Hcount & Hpr & Hq & Ht).
  { unfold i. lia. }
  { intros n Hn. apply Hc. unfold i in Hn. lia. }
  rewrite <- Hst in Hl.
  rewrite (execute_prepared env w dir Hparse Hprep), Hl. simpl in Hcount, Ht.
  assert (Hfour : length (filter (fun ev => ev = Attempt i) (trace s1)) = 4).
  { rewrite Ht, filter_app, quiet_filter by (apply Hq; lia).
    unfold retry_events. cbn [flat_map seq app].
    do 3 (rewrite filter_cons_True by done; rewrite filter_cons_False by done).
    rewrite filter_cons_True by done. done. }
  assert (Hlen : (length pre =? length (stages w)) = false).
  { apply Nat.eqb_neq. rewrite Hst, length_app. simpl. lia. }
  destruct (0 <? l_stages_completed s1); [destruct (generate_final_reports env)|];
    (eexists _, _; split; [reflexivity|]); simpl;
    rewrite Hcount, ?Hlen, ?Hpr;
    (split; [exact Hfour|]); (split; [by exists mid|]); done.
Qed.

(** ** Parameter lines *)

Lemma append_cons c a b : String c a ++ b = String c (a ++ b).
Proof. reflexivity. Qed.
Lemma append_nil b : "" ++ b = b.
Proof. reflexivity. Qed.

Lemma append_empty_r t : t ++ "" = t.
Proof. induction t as [|c t IH]; [done|]. rewrite append_cons. by rewrite IH. Qed.

Lemma rstrip_length u : String.length (rstrip u) <= String.length u.
Proof.
  induction u as [|a u IH]; simpl; [lia|].
  destruct (rstrip u); simpl in *; [destruct (is_space a); simpl; lia | lia].
Qed.

Lemma lstrip_length u : String.length (lstrip u) <= String.length u.
Proof. induction u as [|a u IH]; simpl; [lia|]. destruct (is_space a); simpl; lia. Qed.

Lemma trimmed_head s :
  trimmed s -> s <> "" -> exists c s', s = String c s' /\ is_space c = false.
Proof.
  unfold trimmed, strip. intros Ht Hs. destruct s as [|c s']; [done|].
  exists c, s'. split; [done|]. destruct (is_space c) eqn:Hc; [|done]. exfalso.
  simpl in Ht. rewrite Hc in Ht.
  pose proof (rstrip_length (lstrip s')) as H1. pose proof (lstrip_length s') as H2.
  rewrite Ht in H1. simpl in H1. lia.
Qed.

Lemma trimmed_lstrip s : trimmed s -> s <> "" -> forall t, lstrip (s ++ t) = s ++ t.
Proof.
  intros Ht Hs t. destruct (trimmed_head s Ht Hs) as (c & s' & -> & Hc).
  rewrite append_cons. simpl. by rewrite Hc.
Qed.

Lemma trimmed_rstrip s : trimmed s -> s <> "" -> rstrip s = s.
Proof.
  intros Ht Hs. destruct (trimmed_head s Ht Hs) as (c & s' & Heq & Hc).
  unfold trimmed, strip in Ht. rewrite Heq in Ht |- *. simpl in Ht. rewrite Hc in Ht. exact Ht.
Qed.

Lemma rstrip_space u : rstrip (u ++ " ") = rstrip u.
Proof. induction u as [|a u IH]; [reflexivity|]. rewrite append_cons. simpl. by rewrite IH. Qed.

Lemma rstrip_app_full a b : rstrip b = b -> b <> "" -> rstrip (a ++ b) = a ++ b.
Proof.
  intros Hb Hne. induction a as [|c a IH]; [by rewrite append_nil|].
  rewrite append_cons. simpl. rewrite IH. destruct (a ++ b) eqn:Hab; [|reflexivity].
  destruct a; [rewrite append_nil in Hab; congruence | discriminate].
Qed.

Lemma rstrip_suffix t m :
  trimmed t -> t <> "" -> rstrip (t ++ metadata_suffix m) = t ++ metadata_suffix m.
Proof.
  intros Ht Hne. destruct m as [text|]; simpl.
  - apply rstrip_app_full; [|done].
    change (" (" ++ text ++ ")") with (String " " (String "(" (text ++ ")"))).
    assert (Hp : rstrip (text ++ ")") = text ++ ")") by (by apply rstrip_app_full).
    assert (Hn : text ++ ")" <> "") by (destruct text; done).
    simpl. rewrite Hp. destruct (text ++ ")"); done.
  - rewrite append_empty_r. by apply trimmed_rstrip.
Qed.

Lemma append_nonempty_l a b : a <> "" -> a ++ b <> "".
Proof. destruct a; done. Qed.

Lemma contains_app p a b : contains p b = true -> contains p (a ++ b) = true.
Proof.
  intros H. induction a as [|c a IH]; [done|].
  rewrite append_cons. simpl. rewrite IH. apply orb_true_r.
Qed.

Lemma split_colon_app k r : free_of ":" k -> split_colon_once (k ++ String ":" r) = [k; r].
Proof.
  induction k as [|c k IH]; [done|].
  intros [Hc Hk]. rewrite append_cons. simpl. rewrite IH by done.
  destruct (Ascii.eqb_spec c ":"); [done | reflexivity].
Qed.

Lemma upto_paren_suffix t m :
  trimmed t -> t <> "" -> free_of "(" t ->
  upto_paren (t ++ metadata_suffix m) <> "" /\
  strip (upto_paren (t ++ metadata_suffix m)) = t.
Proof.
  intros Ht Hne Hf. destruct m as [text|]; simpl.
  - assert (upto_paren (t ++ " (" ++ text ++ ")") = t ++ " ") as ->.
    { clear Ht Hne. induction t as [|c t IH]; [reflexivity|]. destruct Hf as [Hc Hf].
      rewrite (append_cons c t), (append_cons c t). simpl. rewrite IH by done.
      destruct (Ascii.eqb_spec c "("); [done | reflexivity]. }
    split; [by apply append_nonempty_l|].
    unfold strip. rewrite trimmed_lstrip by done. rewrite rstrip_space.
    by apply trimmed_rstrip.
  - rewrite append_empty_r.
    assert (upto_paren t = t) as ->; [|done].
    clear Ht Hne. induction t as [|c t IH]; simpl; [done|]. destruct Hf as [Hc Hf].
    rewrite IH by done. destruct (Ascii.eqb_spec c "("); [done | reflexivity].
Qed.

(** The loop body on a well-formed parameter line: the value text is the
    text before the metadata, and the evaluator decides what is stored. *)
Lemma parameter_line_run literal_eval k t m (parameters : gmap string pyvalue) :
  trimmed k -> k <> "" -> free_of ":" k ->
  trimmed t -> t <> "" -> free_of "(" t ->
  parameter_line literal_eval ("- " ++ k ++ ": " ++ t ++ metadata_suffix m) parameters =
  match literal_eval t with
  | inr parsed_value => (inr tt, <[k := parsed_value]> parameters)
  | inl e =>
      if caught_by_parameters e then (inr tt, <[k := PyStr t]> parameters)
      else (inl e, parameters)
  end.
Proof.
  intros Hk Hkn Hkf Ht Htn Htf.
  pose proof (rstrip_suffix t m Ht Htn) as Hr.
  assert (Hne : t ++ metadata_suffix m <> "") by (by apply append_nonempty_l).
  assert (Hr1 : rstrip (String " " (t ++ metadata_suffix m)) = String " " (t ++ metadata_suffix m)).
  { simpl. rewrite Hr. destruct (t ++ metadata_suffix m); done. }
  assert (Hr2 : rstrip (k ++ String ":" (String " " (t ++ metadata_suffix m)))
                = k ++ String ":" (String " " (t ++ metadata_suffix m))).
  { apply rstrip_app_full; [|done]. simpl. simpl in Hr1. rewrite Hr1. done. }
  unfold parameter_line.
  assert (Hline : strip ("- " ++ k ++ ": " ++ t ++ metadata_suffix m)
                  = "- " ++ k ++ ": " ++ t ++ metadata_suffix m).
  { unfold strip.
    change ("- " ++ k ++ ": " ++ t ++ metadata_suffix m)
      with (String "-" (String " " (k ++ String ":" (String " " (t ++ metadata_suffix m))))).
    change (lstrip (String "-" ?x)) with (String "-" x).
    change (String "-" (String " " ?x)) with ("- " ++ x).
    apply rstrip_app_full; [exact Hr2 | by apply append_nonempty_l]. }
  rewrite Hline.
  assert (Hc : contains ":" ("- " ++ k ++ ": " ++ t ++ metadata_suffix m) = true).
  { apply (contains_app ":" "- "). apply contains_app. reflexivity. }
  rewrite Hc.
  change (startswith "- " ("- " ++ ?x)) with true.
  cbn [andb orb].
  change (drop2 ("- " ++ ?x)) with x.
  assert (Hs : strip (k ++ ": " ++ t ++ metadata_suffix m)
               = k ++ String ":" (String " " (t ++ metadata_suffix m))).
  { unfold strip. rewrite trimmed_lstrip by done. exact Hr2. }
  rewrite Hs, split_colon_app by done.
  rewrite Hk.
  assert (Hv : strip (String " " (t ++ metadata_suffix m)) = t ++ metadata_suffix m).
  { unfold strip. change (lstrip (String " " ?x)) with (lstrip x).
    rewrite trimmed_lstrip by done. exact Hr. }
  rewrite Hv.
  destruct (upto_paren_suffix t m Ht Htn Htf) as [Hu Hst].
  unfold paren_match. destruct (upto_paren (t ++ metadata_suffix m)) eqn:Hup; [done|].
  rewrite Hst. unfold vmodify, vraise.
  destruct (literal_eval t) as [e|v]; [destruct (caught_by_parameters e)|]; reflexivity.
Qed.

(** ** The checks of the validator, list by list *)

Lemma appends_ret {A} (a : A) : appends (vret a) [] a.
Proof. intros r. exists r. split; [done | by rewrite app_nil_r]. Qed.

Lemma appends_bind {A B} (m : V A) (k : A -> V B) es1 es2 a b :
  appends m es1 a -> appends (k a) es2 b -> appends (vbind m k) (es1 ++ es2) b.
Proof.
  intros Hm Hk r. destruct (Hm r) as (r1 & H1 & E1). destruct (Hk r1) as (r2 & H2 & E2).
  exists r2. unfold vbind. rewrite H1, H2. split; [done|]. by rewrite E2, E1, app_assoc.
Qed.

Lemma appends_errors_append s : appends (errors_append s) [s] tt.
Proof. intros r. eexists. split; reflexivity. Qed.


Lemma appends_suggestions_append s : appends (suggestions_append s) [] tt.
Proof. intros r. eexists. split; [reflexivity|]. simpl. by rewrite app_nil_r. Qed.

Lemma appends_when (b : bool) (m : V unit) : appends m [] tt -> appends (vwhen b m) [] tt.
Proof. intros Hm. destruct b; [done | apply appends_ret]. Qed.

Lemma appends_for {A} (l : list A) (body : A -> V unit) (f : A -> list string) :
  (forall x, appends (body x) (f x) tt) -> appends (vfor l body) (flat_map f l) tt.
Proof.
  intros Hb. induction l as [|x l IH]; simpl; [apply appends_ret|].
  eapply appends_bind; [apply Hb | apply IH].
Qed.


Lemma flat_map_singleton {A B} (f : A -> B) (l : list A) :
  flat_map (fun x => [f x]) l = map f l.
Proof. induction l as [|x l IH]; [done|]. simpl. by rewrite IH. Qed.

Lemma elem_of_collected field w a :
  a ∈ collected field w <-> exists st, st ∈ stages w /\ a ∈ field st.
Proof.
  unfold collected.
  assert (Hgen : forall sts (acc : gset string),
    a ∈ foldl (fun acc st => acc ∪ list_to_set (field st)) acc sts <->
    a ∈ acc \/ exists st, st ∈ sts /\ a ∈ field st).
  { induction sts as [|st sts IH]; intros acc; simpl.
    - split; [by left | intros [H|(st & H & _)]; [done | by apply elem_of_nil in H]].
    - rewrite IH, elem_of_union, elem_of_list_to_set. split.
      + intros [[H|H]|(st' & H & Ha)]; [by left | right; exists st; split; [left | done] |].
        right. exists st'. split; [by right | done].
      + intros [H|(st' & H & Ha)]; [by left; left|].
        apply elem_of_cons in H as [->|H]; [left; by right | right; by exists st']. }
  rewrite Hgen. split; [intros [H|H]; [set_solver | done] | by right].
Qed.

(** The loop over the missing names: one error each. *)
Lemma missing_loop_appends (prefix : string) (l : list string)
    (suggest : string -> V unit) :
  (forall x, appends (suggest x) [] tt) ->
  appends (vfor l (fun x => errors_append (prefix ++ x) ;;; suggest x))
          (map (fun x => prefix ++ x) l) tt.
Proof.
  intros Hs. rewrite <- flat_map_singleton. apply appends_for. intros x.
  change [prefix ++ x] with ([(prefix ++ x)%string] ++ [])%list.
  eapply appends_bind; [apply appends_errors_append | apply Hs].
Qed.


Lemma validate_mcps_exact env w :
  appends (_validate_mcps env w)
          (map mcp_missing_error (set_order env (missing_mcps w)))
          (bool_decide (missing_mcps w = ∅)).
Proof.
  unfold _validate_mcps. fold (collected suggested_mcps w). fold (missing_mcps w).
  case_bool_decide as Hm; simpl.
  - assert (set_order env (missing_mcps w) = []) as ->.
    { apply Permutation_nil_r. rewrite set_order_perm, Hm. by rewrite elements_empty. }
    apply appends_ret.
  - rewrite <- (app_nil_r (map _ _)).
    eapply appends_bind; [|apply appends_ret].
    apply missing_loop_appends. intros a. apply appends_when, appends_suggestions_append.
Qed.

Lemma elem_of_missing field (avail : list string) w a :
  a ∈ collected field w ∖ list_to_set avail <->
  (exists st, st ∈ stages w /\ a ∈ field st) /\ a ∉ avail.
Proof. by rewrite elem_of_difference, elem_of_collected, elem_of_list_to_set. Qed.

Lemma missing_empty field (avail : list string) w :
  collected field w ∖ list_to_set avail = ∅ <->
  forall st a, st ∈ stages w -> a ∈ field st -> a ∈ avail.
Proof.
  split.
  - intros He st a Hst Ha. destruct (decide (a ∈ avail)) as [|Hn]; [done|].
    exfalso. assert (a ∈ collected field w ∖ list_to_set avail) as Hin
      by (apply elem_of_missing; eauto).
    rewrite He in Hin. by apply elem_of_empty in Hin.
  - intros Hall. apply set_eq. intros a. rewrite elem_of_missing. split.
    + intros [(st & Hst & Ha) Hn]. exfalso. apply Hn. by eapply Hall.
    + intros H. by apply elem_of_empty in H.
Qed.




(** ** The claims about the validator *)









Lemma error_class_dangling b e :
  error_class b e -> dangling_form e -> exists st dep, e = dangling_error st dep.
Proof. intros [[a ->]|[m ->]| -> | -> Hb |st dep ->] H; try discriminate H. by exists st, dep. Qed.


(** *** C1 *)




(** *** C6 *)

(** The result that the handler of [validate_workflow] builds has an error
    and is not valid. *)
Ltac handled_result :=
  eexists; split; [reflexivity|]; simpl; split; [|done];
  split; [discriminate | intros H; by apply app_eq_nil in H as [_ H]].

(** C6: [validate_workflow] never raises.  It returns a result on every
    input; [is_valid] holds exactly when [errors] is empty; and when
    parsing raised, the result has the single error entry and every
    boolean false. *)
Theorem C6_validate_never_raises (env : validator_env) (parsed : exn + WorkflowDefinition) :
  exists vr,
    validate_workflow env parsed = inr vr /\
    (is_valid vr = true <-> errors vr = []) /\
    match parsed with
    | inl e =>
        errors vr = ["Failed to parse workflow: " ++ exn_msg e] /\
        length (errors vr) = 1 /\
        is_valid vr = false /\ agents_available vr = false /\ mcps_available vr = false /\
        input_files_valid vr = false /\ no_conflicts vr = false
    | inr _ => True
    end.
Proof.
  destruct parsed as [e|w].
  - eexists. split; [apply validate_workflow_unparsed|]. simpl. split; [|done].
    split; discriminate.
  - unfold validate_workflow, vtry. cbv zeta.
    unfold vbind at 1. unfold vret at 1.
    unfold vbind at 1. destruct (_validate_agents env w _) as [[e|av] r1];
      [handled_result|].
    unfold vbind at 1. destruct (_validate_mcps env w _) as [[e|mv] r2];
      [handled_result|].
    unfold vbind at 1. destruct (_validate_input_files env w _) as [[e|iv] r3];
      [handled_result|].
    unfold vbind at 1. destruct (_validate_no_conflicts w _) as [[e|nc] r4];
      [handled_result|].
    unfold vbind at 1. destruct (_validate_workflow_structure env w _) as [[e|[]] r5];
      [handled_result|].
    unfold vbind at 1. destruct (_validate_dependencies w _) as [[e|[]] r6];
      [handled_result|].
    eexists. split; [reflexivity|]. split; [|done].
    simpl. destruct (r_errors r6); simpl; split; done.
Qed.

(** *** C7 *)








(** *** C9 *)




(** *** C10 *)




(** *** The other two ways into the handler *)

(** A traversal that nests deeper than the call depth left raises
    [RecursionError]: the ring of three stages is reported with room for
    three calls, and with room for two the validation ends in the handler
    and reports no cycle. *)
Lemma recursion_limit_hides_cycle :
  has_dependency_cycle (stages ring_workflow) /\
  _has_circular_dependencies 3 (stages ring_workflow) = Some true /\
  _has_circular_dependencies 2 (stages ring_workflow) = None /\
  exists vr,
    validate_workflow shallow_env (inr ring_workflow) = inr vr /\
    (circular_error ∉ errors vr) /\ length (errors vr) = 1 /\ no_conflicts vr = false.
Proof.
  split; [|split; [|split]].
  - destruct (has_circular_total 3 (stages ring_workflow)) as (b & Heq & Hb).
    + vm_compute. lia.
    + vm_compute in Heq. injection Heq as <-. by apply Hb.
  - vm_compute. reflexivity.
  - vm_compute. reflexivity.
  - eexists. split; [reflexivity|]. split; [|split; reflexivity].
    simpl. rewrite list_elem_of_singleton. discriminate.
Qed.

(** A probe on which [Path.exists] raises: the validation of a client's
    workflow ends in the handler, and the dangling dependency goes
    unreported. *)
Lemma failed_probe_hides_checks :
  exists vr,
    validate_workflow unreadable_env (inr (for_client (PyStr "acme") three_stage_workflow))
      = inr vr /\
    filter dangling_form (errors vr) = [] /\ input_files_valid vr = false.
Proof. eexists. split; [reflexivity|]. split; reflexivity. Qed.

(** ** The claims about the executor *)

(** *** C2 *)

(** C2, as stated, fails: with [retry_delay = -5] the first back-off
    [time.sleep(-5)] raises [ValueError] before any retry, and the stage
    that always fails is run once, not four times. *)
Lemma C2_counterexample :
  let env := scenario (mkExecConfig None (Some 3%Z) (Some (-5)%Z)) (inr two_stage_workflow)
               (Nat.eqb 2) in
  retry_policy env /\
  (forall k, is_Some (stage_fault env 2 k)) /\
  exists res s,
    execute_workflow env false = (inr res, s) /\
    trace s = [Attempt 1; Attempt 2] /\
    length (filter (fun ev => ev = Attempt 2) (trace s)) = 1 /\
    error_message res = Some "sleep length must be non-negative".
Proof.
  split; [reflexivity|]. split; [intros k; simpl; by eexists|].
  eexists _, _. split; [reflexivity|]. split; [reflexivity|]. split; reflexivity.
Qed.

Lemma C2_witness :
  exists res s,
    execute_workflow failing_third_scenario false = (inr res, s) /\
    length (filter (fun ev => ev = Attempt 3) (trace s)) = 4 /\
    trace s = [Attempt 1; Attempt 2; Sleep 5; Attempt 2; Sleep 10; Attempt 2;
               Attempt 3; Sleep 5; Attempt 3; Sleep 10; Attempt 3; Sleep 20; Attempt 3] /\
    stages_completed res = 2 /\ success res = false /\ partial_results res = true.
Proof.
  destruct (C2_retry_exhaustion failing_third_scenario
              (blank_workflow "Audit the site"
                 [ blank_stage "Collect" []; blank_stage "Crawl" ["Stage 1"];
                   blank_stage "Report" ["Stage 2"] ])
              "reports/default-client/reports/wf_2025_09_25"
              [blank_stage "Collect" []; blank_stage "Crawl" ["Stage 1"]]
              (blank_stage "Report" ["Stage 2"]) [])
    as (res & s & Hrun & Hn & _ & H1 & H2 & H3).
  - reflexivity.
  - repeat split.
  - reflexivity.
  - reflexivity.
  - reflexivity.
  - simpl. lia.
  - vm_compute. discriminate.
  - intros n Hn. simpl in Hn.
    assert (n = 1 \/ n = 2) as [-> | ->] by lia.
    + split; [exists 0; split; [lia | reflexivity] | reflexivity].
    + split; [exists 2; split; [lia | reflexivity] | reflexivity].
  - intros k. simpl. eexists. reflexivity.
  - exists res, s. split; [exact Hrun|].
    vm_compute in Hrun. injection Hrun as <- <-.
    split; [exact Hn|]. split; [reflexivity|]. split; [exact H1|]. split; [exact H2 | exact H3].
Defined.

(** *** C3 *)

(** C3 fails on the code.  When parsing raises, the handler of
    [execute_workflow] reads the unassigned local [workflow] and an
    [UnboundLocalError] reaches the caller; and when the run fails after
    the output directory was created but before the stage loop, the result
    carries no output directory. *)
Theorem C3_exceptions_escape (env : executor_env) :
  (forall dry_run e, parse_suggested env = inl e ->
     exists e', fst (execute_workflow env dry_run) = inl e' /\
                exn_class e' = "UnboundLocalError") /\
  (forall w d e, parse_suggested env = inr w -> create_output_directory env = inr d ->
     save_workflow_config env = Some e ->
     exists res s, execute_workflow env false = (inr res, s) /\
                   self_output_dir s = Some d /\ output_directory res = None).
Proof.
  split.
  - intros dry_run e H. by eapply execute_unparsed.
  - intros w d e Hp Hc Hs. unfold execute_workflow. run_monad. rewrite Hp.
    unfold _perform_execution. run_monad. rewrite Hc, Hs.
    eexists _, _. split; [reflexivity|]. split; reflexivity.
Qed.

Lemma C3_witness :
  exists e', fst (execute_workflow
                    (scenario default_config
                       (inl (mkExn "FileNotFoundError"
                               "Suggested workflow file not found: missing.md"))
                       (fun _ => false)) false) = inl e' /\
             exn_class e' = "UnboundLocalError".
Proof.
  destruct (C3_exceptions_escape
              (scenario default_config
                 (inl (mkExn "FileNotFoundError" "Suggested workflow file not found: missing.md"))
                 (fun _ => false))) as [H _].
  eapply H. reflexivity.
Defined.

(** *** C4 *)

(** C4, as stated, fails: a dry run of a workflow with one stage returns
    [success = True] with no stage completed out of one. *)
Lemma C4_counterexample :
  exists res s,
    execute_workflow (scenario default_config (inr goalless_workflow) (fun _ => false)) true
      = (inr res, s) /\
    success res = true /\ stages_completed res = 0 /\ total_stages res = 1.
Proof. eexists _, _. split; [reflexivity|]. repeat split. Qed.

(** C4, amended: a dry run returns [success = True] with
    [stages_completed = 0]; a real run that returns without an error
    message has [success] equal to [stages_completed == total_stages]; a
    result with an error message has [success = False]. *)
Theorem C4_success_semantics (env : executor_env) (dry_run : bool)
    (res : ExecutionResult) (s : exec_state) :
  execute_workflow env dry_run = (inr res, s) ->
  if dry_run then success res = true /\ stages_completed res = 0
  else match error_message res with
       | None => success res = (stages_completed res =? total_stages res)
       | Some _ => success res = false
       end.
Proof. apply execute_result. Qed.

Lemma C4_witness :
  exists res s,
    execute_workflow (scenario default_config (inr two_stage_workflow) (fun _ => false)) false
      = (inr res, s) /\
    error_message res = None /\
    success res = (stages_completed res =? total_stages res).
Proof.
  eexists _, _. split; [reflexivity|]. split; [reflexivity|].
  exact (C4_success_semantics
           (scenario default_config (inr two_stage_workflow) (fun _ => false)) false _ _ eq_refl).
Defined.

(** *** C5 *)

(** C5 fails on the code.  Under the policy [continue] a failed stage is
    skipped, later stages run, and the result has one of two stages
    completed with [partial_results = False]. *)
Theorem C5_continue_loses_partial_results :
  exists res s,
    execute_workflow
      (scenario (mkExecConfig (Some "continue") None None) (inr two_stage_workflow) (Nat.eqb 1))
      false = (inr res, s) /\
    trace s = [Attempt 1; Attempt 2] /\
    stages_completed res = 1 /\ total_stages res = 2 /\
    success res = false /\ partial_results res = false.
Proof. eexists _, _. split; [reflexivity|]. repeat split. Qed.

(** ** The claim about the parser *)

(** *** C8 *)

Lemma fragment_eval_agrees : agrees_with_fragment fragment_eval.
Proof.
  intros s o H. unfold fragment_eval. rewrite H. simpl. destruct o; reflexivity.
Qed.

Lemma agrees_value literal_eval s v :
  agrees_with_fragment literal_eval -> py_literal_eval s = Some (inr v) ->
  literal_eval s = inr v.
Proof.
  intros Ha Hs. specialize (Ha s (inr v) Hs). simpl in Ha.
  destruct (literal_eval s); [done | by subst].
Qed.

Lemma agrees_error literal_eval s e :
  agrees_with_fragment literal_eval -> py_literal_eval s = Some (inl e) ->
  exists e', literal_eval s = inl e' /\ exn_class e' = exn_class e.
Proof.
  intros Ha Hs. specialize (Ha s (inl e) Hs). simpl in Ha.
  destruct (literal_eval s) as [e'|]; [by exists e' | done].
Qed.

(** C8, as stated, fails: the value text "true" is not a Python literal, so
    it is stored as the string "true", not as a boolean. *)
Lemma C8_counterexample :
  py_literal_eval "true" = Some (inl (mkExn "ValueError" "malformed node or string")) /\
  _parse_parameters fragment_eval "- flag: true (boolean)" = inr {[ "flag" := PyStr "true" ]}.
Proof. split; vm_compute; reflexivity. Qed.

Ltac side_condition :=
  first [ reflexivity | discriminate | (simpl; repeat split; discriminate) ].

(** Runs the loop body on the next line, given its key, value text and
    metadata. *)
Ltac run_line le k t m :=
  match goal with
  | |- context [parameter_line le ?line ?p] =>
      change (parameter_line le line p)
        with (parameter_line le ("- " ++ k ++ ": " ++ t ++ metadata_suffix m) p);
      rewrite (parameter_line_run le k t m p) by side_condition
  end.

(** C8, amended: the value text of a parameter line is the text before the
    first opening parenthesis, trimmed, and it goes through Python's literal
    evaluation: "[1, 2, 3]", "True" and "42" are stored as a list, a boolean
    and an integer; "true" is no Python literal and is stored as the string
    "true"; whenever the evaluation raises ValueError or SyntaxError the
    value text is stored unchanged as a string. *)
Theorem C8_parameter_values (literal_eval : string -> exn + pyvalue) :
  agrees_with_fragment literal_eval ->
  (exists parameters,
     _parse_parameters literal_eval sample_parameters = inr parameters /\
     parameters !! "ids" = Some (PyList [PyInt 1; PyInt 2; PyInt 3]) /\
     parameters !! "flag" = Some (PyBool true) /\
     parameters !! "depth" = Some (PyInt 42) /\
     parameters !! "low" = Some (PyStr "true") /\
     parameters !! "mode" = Some (PyStr "fast")) /\
  (forall k t m (parameters : gmap string pyvalue),
     trimmed k -> k <> "" -> free_of ":" k ->
     trimmed t -> t <> "" -> free_of "(" t ->
     parameter_line literal_eval ("- " ++ k ++ ": " ++ t ++ metadata_suffix m) parameters =
     match literal_eval t with
     | inr parsed_value => (inr tt, <[k := parsed_value]> parameters)
     | inl e =>
         if caught_by_parameters e then (inr tt, <[k := PyStr t]> parameters)
         else (inl e, parameters)
     end).
Proof.
  intros Ha. split; [|intros; by apply parameter_line_run].
  pose proof (agrees_value literal_eval "[1, 2, 3]" _ Ha eq_refl) as H1.
  pose proof (agrees_value literal_eval "True" _ Ha eq_refl) as H2.
  pose proof (agrees_value literal_eval "42" _ Ha eq_refl) as H3.
  destruct (agrees_error literal_eval "true" _ Ha eq_refl) as (e4 & H4 & Hc4).
  destruct (agrees_error literal_eval "fast" _ Ha eq_refl) as (e5 & H5 & Hc5).
  assert (Hcaught : forall e, exn_class e = "ValueError" -> caught_by_parameters e = true).
  { intros e He. unfold caught_by_parameters. rewrite He. reflexivity. }
  unfold _parse_parameters.
  change (split_lines sample_parameters)
    with [ "- ids: [1, 2, 3] (list of ids)"; "- flag: True (boolean)";
           "- depth: 42 (integer)"; "- low: true (lower case)"; "- mode: fast" ].
  cbn [vfor]. unfold vbind, vret.
  run_line literal_eval "ids" "[1, 2, 3]" (Some "list of ids"). rewrite H1.
  run_line literal_eval "flag" "True" (Some "boolean"). rewrite H2.
  run_line literal_eval "depth" "42" (Some "integer"). rewrite H3.
  run_line literal_eval "low" "true" (Some "lower case"). rewrite H4, (Hcaught e4 Hc4).
  run_line literal_eval "mode" "fast" (@None string). rewrite H5, (Hcaught e5 Hc5).
  eexists. split; [reflexivity|].
  repeat split; by simplify_map_eq.
Qed.

Lemma C8_witness :
  exists parameters,
    _parse_parameters fragment_eval sample_parameters = inr parameters /\
    parameters !! "ids" = Some (PyList [PyInt 1; PyInt 2; PyInt 3]) /\
    parameters !! "flag" = Some (PyBool true) /\
    parameters !! "depth" = Some (PyInt 42) /\
    parameters !! "low" = Some (PyStr "true") /\
    parameters !! "mode" = Some (PyStr "fast").
Proof. exact (proj1 (C8_parameter_values fragment_eval fragment_eval_agrees)). Defined.

(** A value text on which the evaluation raises another exception is not
    caught: a dict display with a list as key raises TypeError, and the
    error leaves [_parse_parameters]. *)
Lemma parse_parameters_type_error_escapes :
  py_literal_eval "{[1]: 2}" = Some (inl (mkExn "TypeError" "unhashable type")) /\
  _parse_parameters fragment_eval "- depth: 42
- table: {[1]: 2}" = inl (mkExn "TypeError" "unhashable type").
Proof. split; vm_compute; reflexivity. Qed.

(** * Further properties of the code *)

(** ** The validator *)


(** X2: the MCP check returns [True] exactly when every MCP that a stage
    suggests is in the built-in list.  Otherwise it appends to [errors] one
    entry [MCP not available: <name>] for each distinct missing MCP and
    nothing else. *)
Theorem validate_mcps_spec (env : validator_env) (w : WorkflowDefinition) (r : report) :
  exists r' order,
    _validate_mcps env w r = (inr (bool_decide (missing_mcps w = ∅)), r') /\
    r_errors r' = (r_errors r ++ map mcp_missing_error order)%list /\
    order ≡ₚ elements (missing_mcps w) /\
    (forall m, m ∈ missing_mcps w <->
       (exists st, st ∈ stages w /\ m ∈ suggested_mcps st) /\ m ∉ _discover_available_mcps) /\
    (missing_mcps w = ∅ <->
       forall st m, st ∈ stages w -> m ∈ suggested_mcps st -> m ∈ _discover_available_mcps).
Proof.
  destruct (validate_mcps_exact env w r) as (r' & Hrun & Herr).
  exists r', (set_order env (missing_mcps w)).
  split; [done|]. split; [done|]. split; [apply set_order_perm|].
  split; [intros a; apply elem_of_missing | apply missing_empty].
Qed.

(** X3: both suggestion functions return at most three names, all taken
    from the available ones, in their order. *)
Theorem suggested_alternatives_bounded (missing : string) (available : list string) :
  length (_suggest_agent_alternatives missing available) <= 3 /\
  _suggest_agent_alternatives missing available `sublist_of` available /\
  length (_suggest_mcp_alternatives missing available) <= 3 /\
  _suggest_mcp_alternatives missing available `sublist_of` available.
Proof.
  assert (Hgen : forall l : list string, l `sublist_of` available ->
            length (take 3 l) <= 3 /\ take 3 l `sublist_of` available).
  { intros l Hl. split; [rewrite length_take; lia|].
    etrans; [apply sublist_take | done]. }
  unfold _suggest_agent_alternatives, _suggest_mcp_alternatives.
  split_and!; repeat case_match; try apply Hgen; try apply sublist_filter;
    try apply sublist_nil_l; simpl; lia.
Qed.




Lemma validate_no_conflicts_unfold w :
  _validate_no_conflicts w =
  (conflict_loop w (imap (fun i st => (i, st)) (stages w)) (∅, ∅) ;;; vret true).
Proof. reflexivity. Qed.

Lemma conflict_loop_cons w i st numbered usage r :
  conflict_loop w ((i, st) :: numbered) usage r =
  match agent_loop w i (recommended_agents st) (fst usage) r with
  | (inl e, r') => (inl e, r')
  | (inr au, r1) =>
      match mcp_loop i (suggested_mcps st) (snd usage) r1 with
      | (inl e, r') => (inl e, r')
      | (inr mu, r2) => conflict_loop w numbered (au, mu) r2
      end
  end.
Proof.
  unfold conflict_loop. cbn [vfold]. unfold vbind.
  destruct (agent_loop w i (recommended_agents st) usage.1 r) as [[e|au] r1]; [done|].
  destruct (mcp_loop i (suggested_mcps st) usage.2 r1) as [[e|mu] r2]; done.
Qed.

Lemma mcp_loop_fresh i : forall mcps (u : gmap string nat) r,
  NoDup mcps -> (forall a, a ∈ mcps -> u !! a = None) ->
  exists u', mcp_loop i mcps u r = (inr u', r) /\
    forall a, u' !! a = None <-> u !! a = None /\ a ∉ mcps.
Proof.
  induction mcps as [|a mcps IH]; intros u r Hnd Hf; simpl.
  - exists u. split; [done|]. intros a. rewrite elem_of_nil. tauto.
  - apply NoDup_cons in Hnd as [Hna Hnd]. unfold mcp_loop. simpl.
    unfold vbind at 1. rewrite (Hf a) by left.
    rewrite bool_decide_eq_false_2 by (intros [? ?]; done).
    unfold vwhen, vbind at 1, vret at 1 2.
    destruct (IH (<[a := i]> u) r Hnd) as (u' & Hrun & Hu').
    { intros a' Ha'. rewrite lookup_insert_ne by (intros ->; done). apply Hf. by right. }
    exists u'. split; [exact Hrun|].
    intros a'. rewrite Hu', elem_of_cons.
    destruct (decide (a = a')) as [->|Hne].
    + rewrite lookup_insert_eq. split; [intros [? _]; done | intros [_ H]; exfalso; apply H; by left].
    + rewrite lookup_insert_ne by done. split; [intros [? ?]; split; [done | intros [?|?]; done]|].
      intros [? H]. split; [done|]. intros ?. apply H. by right.
Qed.

Lemma flat_map_imap {A} (f : WorkflowStage -> list A) sts : forall (g : nat -> nat),
  flat_map (fun p : nat * WorkflowStage => f (snd p)) (imap (fun i st => (g i, st)) sts)
  = flat_map f sts.
Proof.
  induction sts as [|st sts IH]; intros g; [done|].
  simpl. f_equal. apply (IH (g ∘ S)).
Qed.

Lemma stages_are_sequential_true sts p j sj :
  p < j -> sts !! j = Some sj -> stage_label p ∈ dependencies sj ->
  _stages_are_sequential sts p j = true.
Proof.
  intros Hp Hj Hd. unfold _stages_are_sequential.
  apply lookup_lt_Some in Hj as Hlt.
  assert ((length sts <=? p) = false) as -> by (apply Nat.leb_gt; lia).
  assert ((length sts <=? j) = false) as -> by (apply Nat.leb_gt; lia).
  simpl. rewrite Hj. by apply bool_decide_eq_true.
Qed.

Lemma agent_loop_sequenced w i st :
  agents_sequenced w -> stages w !! i = Some st ->
  forall agents (u : gmap string nat) r,
    NoDup agents -> (forall a, a ∈ agents -> a ∈ recommended_agents st) ->
    (forall a p, u !! a = Some p ->
       (p < i /\ exists sp, stages w !! p = Some sp /\ a ∈ recommended_agents sp) \/
       (p = i /\ (a ∉ agents) /\ a ∈ recommended_agents st)) ->
    exists u', agent_loop w i agents u r = (inr u', r) /\ usage_before w u' (S i).
Proof.
  intros Hseq Hst. induction agents as [|a agents IH]; intros u r Hnd Hsub Hu; simpl.
  - exists u. split; [done|]. intros a p Hl.
    destruct (Hu a p Hl) as [(Hp & sp & Hsp & Ha)|(-> & _ & Ha)].
    + split; [lia | by exists sp].
    + split; [lia | by exists st].
  - apply NoDup_cons in Hnd as [Hna Hnd]. unfold agent_loop. simpl.
    unfold vbind at 1.
    assert (Hstep : (match u !! a with
                     | Some prev_stage =>
                         vwhen (negb (_stages_are_sequential (stages w) prev_stage i))
                           (vbind
                              (warnings_append
                                 ("Agent " ++ a ++ " may be needed by multiple parallel stages"))
                              (fun _ => suggestions_append
                                 "Consider using alternative agents or making stages sequential"))
                     | None => vret tt
                     end) r = (inr tt, r)).
    { destruct (u !! a) as [p|] eqn:Hl; [|done].
      destruct (Hu a p Hl) as [(Hp & sp & Hsp & Ha)|(-> & Hn & _)].
      - rewrite (stages_are_sequential_true (stages w) p i st); [done | done | done |].
        eapply Hseq; eauto. apply Hsub. left.
      - exfalso. apply Hn. left. }
    unfold vbind at 1. rewrite Hstep. unfold vret at 1.
    apply IH; [done | intros a' Ha'; apply Hsub; by right |].
    intros a' p Hl. destruct (decide (a = a')) as [<-|Hne].
    + rewrite lookup_insert_eq in Hl. injection Hl as <-. right.
      split; [done|]. split; [done|]. apply Hsub. left.
    + rewrite lookup_insert_ne in Hl by done.
      destruct (Hu a' p Hl) as [?|(-> & Hn & Ha)]; [by left|].
      right. split; [done|]. split; [|done]. intros Hin. apply Hn. by right.
Qed.

Lemma conflict_loop_sequenced w :
  agents_sequenced w ->
  (forall st, st ∈ stages w -> NoDup (recommended_agents st)) ->
  forall sts pre (au mu : gmap string nat) r,
    stages w = (pre ++ sts)%list ->
    usage_before w au (length pre) ->
    NoDup (flat_map suggested_mcps sts) ->
    (forall m st, st ∈ sts -> m ∈ suggested_mcps st -> mu !! m = None) ->
    exists usage',
      conflict_loop w (imap (fun k st => (length pre + k, st)) sts) (au, mu) r
      = (inr usage', r).
Proof.
  intros Hseq Hnd. induction sts as [|st sts IH]; intros pre au mu r Hw Hu Hm Hfm.
  - by eexists.
  - simpl in Hm. apply NoDup_app in Hm as (Hm1 & Hm2 & Hm3).
    assert (Hst : stages w !! length pre = Some st).
    { rewrite Hw. by rewrite list_lookup_middle. }
    destruct (agent_loop_sequenced w (length pre) st Hseq Hst (recommended_agents st) au r)
      as (au' & Hra & Hau).
    { apply Hnd. rewrite Hw. apply elem_of_app. right. left. }
    { done. }
    { intros a p Hl. left. by apply Hu. }
    destruct (mcp_loop_fresh (length pre) (suggested_mcps st) mu r Hm1) as (mu' & Hrm & Hmu).
    { intros m Hin. apply (Hfm m st); [left | done]. }
    rewrite imap_cons, conflict_loop_cons, Nat.add_0_r. cbn [fst snd].
    rewrite Hra, Hrm.
    destruct (IH (pre ++ [st])%list au' mu' r) as (usage' & Hrun).
    + by rewrite <- app_assoc.
    + rewrite length_app. simpl. by rewrite Nat.add_1_r.
    + done.
    + intros m st' Hst' Hin. apply Hmu. split; [apply (Hfm m st'); [by right | done]|].
      intros Hx. apply (Hm2 m Hx). apply list_elem_of_In, in_flat_map.
      exists st'. split; by apply list_elem_of_In.
    + exists usage'. rewrite <- Hrun. f_equal.
      apply imap_ext. intros k x _. simpl. rewrite length_app. simpl. f_equal. lia.
Qed.

(** X6: the conflict check is silent when no stage lists an agent twice,
    every stage depends on each earlier stage with which it shares an
    agent, and no MCP is named twice: the report is returned unchanged. *)
Theorem no_conflicts_when_sequenced (w : WorkflowDefinition) (r : report) :
  agents_sequenced w ->
  (forall st, st ∈ stages w -> NoDup (recommended_agents st)) ->
  NoDup (flat_map suggested_mcps (stages w)) ->
  _validate_no_conflicts w r = (inr true, r).
Proof.
  intros Hseq Hnd Hm. rewrite validate_no_conflicts_unfold.
  destruct (conflict_loop_sequenced w Hseq Hnd (stages w) [] ∅ ∅ r) as (usage' & Hrun);
    [ done | intros a p Hl; by rewrite lookup_empty in Hl | done
    | intros; apply lookup_empty | ].
  simpl in Hrun. unfold vbind. rewrite Hrun. reflexivity.
Qed.

Lemma repeated_app l1 : forall seen l2,
  repeated seen (l1 ++ l2) = (repeated seen l1 ++ repeated (list_to_set l1 ∪ seen) l2)%list.
Proof.
  induction l1 as [|x l1 IH]; intros seen l2; simpl.
  - f_equal. apply leibniz_equiv. set_solver.
  - rewrite IH, <- app_assoc. do 3 f_equal. apply leibniz_equiv. set_solver.
Qed.

Lemma elem_of_repeated x l : forall seen,
  x ∈ repeated seen l <->
  exists l1 l2, l = (l1 ++ x :: l2)%list /\ (x ∈ seen \/ x ∈ l1).
Proof.
  induction l as [|y l IH]; intros seen; simpl.
  - split; [intros H; by apply elem_of_nil in H|].
    intros (l1 & l2 & H & _). by destruct l1.
  - rewrite elem_of_app, IH. split.
    + intros [H | (l1 & l2 & -> & H)].
      * case_bool_decide; [|by apply elem_of_nil in H].
        apply list_elem_of_singleton in H as ->. exists [], l. by split; [|left].
      * exists (y :: l1), l2. split; [done|]. set_solver.
    + intros (l1 & l2 & Heq & H). destruct l1 as [|z l1]; simplify_eq/=.
      * left. destruct H as [H|H]; [|by apply elem_of_nil in H].
        rewrite bool_decide_eq_true_2 by done. left.
      * right. exists l1, l2. split; [done|]. set_solver.
Qed.

Lemma mcp_loop_exact i : forall mcps (u : gmap string nat) r,
  exists u',
    mcp_loop i mcps u r =
      (inr u', mkReport (r_errors r)
                 (r_warnings r ++ map rate_limit_warning (repeated (dom u) mcps))
                 (r_suggestions r)) /\
    dom u' = list_to_set mcps ∪ dom u.
Proof.
  induction mcps as [|a mcps IH]; intros u r.
  - exists u. simpl. rewrite app_nil_r. split; [by destruct r|].
    apply leibniz_equiv. set_solver.
  - unfold mcp_loop. cbn [vfold]. unfold vbind at 1. unfold vbind at 1.
    set (r1 := mkReport (r_errors r)
                 (r_warnings r ++ map rate_limit_warning
                                    (if bool_decide (a ∈ dom u) then [a] else []))
                 (r_suggestions r)).
    assert (Hstep : vwhen (bool_decide (is_Some (u !! a)))
                      (warnings_append (rate_limit_warning a)) r = (inr tt, r1)).
    { unfold r1. rewrite (bool_decide_ext _ (a ∈ dom u)) by (symmetry; apply elem_of_dom).
      destruct (bool_decide (a ∈ dom u)); simpl; [reflexivity|].
      rewrite app_nil_r. by destruct r. }
    rewrite Hstep. unfold vret at 1.
    destruct (IH (<[a := i]> u) r1) as (u' & Hrun & Hdom).
    exists u'. fold (mcp_loop i mcps (<[a := i]> u)). rewrite Hrun. split.
    + unfold r1. simpl. rewrite dom_insert_L, map_app, app_assoc. reflexivity.
    + rewrite Hdom, dom_insert_L. apply leibniz_equiv. set_solver.
Qed.

Lemma agent_loop_exact w i : forall agents (u : gmap string nat) r,
  exists u' ws ss,
    agent_loop w i agents u r =
      (inr u', mkReport (r_errors r) (r_warnings r ++ ws) (r_suggestions r ++ ss)) /\
    List.filter is_rate_limit_warning ws = [].
Proof.
  induction agents as [|a agents IH]; intros u r.
  - exists u, [], []. simpl. rewrite !app_nil_r. split; [by destruct r | done].
  - unfold agent_loop. cbn [vfold]. fold (agent_loop w i agents).
    destruct (u !! a) as [p|]; [destruct (_stages_are_sequential (stages w) p i)|].
    2: { destruct (IH (<[a := i]> u)
                    (mkReport (r_errors r)
                       (r_warnings r ++ ["Agent " ++ a ++
                          " may be needed by multiple parallel stages"])
                       (r_suggestions r ++
                          ["Consider using alternative agents or making stages sequential"])))
           as (u' & ws2 & ss2 & Hrun & Hf2).
         eexists u', (_ :: ws2), (_ :: ss2). split.
         - cbv beta iota delta [vbind vwhen negb warnings_append suggestions_append
                                  vmodify vret].
           simpl. simpl in Hrun. rewrite Hrun. by rewrite <- !app_assoc.
         - exact Hf2. }
    all: destruct (IH (<[a := i]> u) r) as (u' & ws2 & ss2 & Hrun & Hf2);
      exists u', ws2, ss2; split; [|exact Hf2];
      cbv beta iota delta [vbind vwhen negb vret]; exact Hrun.
Qed.

Lemma filter_rate_limit_warnings l :
  List.filter is_rate_limit_warning (map rate_limit_warning l) = map rate_limit_warning l.
Proof. induction l as [|x l IH]; [done|]. simpl. by rewrite IH. Qed.

Lemma conflict_loop_exact w : forall numbered (au mu : gmap string nat) r,
  exists au' mu' ws ss,
    conflict_loop w numbered (au, mu) r =
      (inr (au', mu'),
       mkReport (r_errors r) (r_warnings r ++ ws) (r_suggestions r ++ ss)) /\
    List.filter is_rate_limit_warning ws =
      map rate_limit_warning
        (repeated (dom mu) (flat_map (fun p => suggested_mcps (snd p)) numbered)).
Proof.
  induction numbered as [|[i st] numbered IH]; intros au mu r.
  - exists au, mu, [], []. simpl. rewrite !app_nil_r. split; [by destruct r | done].
  - rewrite conflict_loop_cons. simpl fst. simpl snd.
    destruct (agent_loop_exact w i (recommended_agents st) au r)
      as (au1 & ws1 & ss1 & -> & Hf1).
    destruct (mcp_loop_exact i (suggested_mcps st) mu
                (mkReport (r_errors r) (r_warnings r ++ ws1) (r_suggestions r ++ ss1)))
      as (mu1 & -> & Hdom). simpl.
    destruct (IH au1 mu1
                (mkReport (r_errors r)
                   ((r_warnings r ++ ws1) ++
                    map rate_limit_warning (repeated (dom mu) (suggested_mcps st)))
                   (r_suggestions r ++ ss1)))
      as (au' & mu' & ws2 & ss2 & -> & Hf2). simpl.
    exists au', mu',
      (ws1 ++ map rate_limit_warning (repeated (dom mu) (suggested_mcps st)) ++ ws2)%list,
      (ss1 ++ ss2)%list.
    rewrite !app_assoc. split; [done|].
    rewrite !List.filter_app, Hf1, Hf2, filter_rate_limit_warnings, Hdom, repeated_app.
    simpl. by rewrite map_app.
Qed.

Lemma elem_of_flat_map_lookup {A B} (f : A -> list B) l i a x :
  l !! i = Some a -> x ∈ f a -> x ∈ flat_map f l.
Proof.
  intros Hl Hx. apply list_elem_of_In, in_flat_map. exists a.
  split; apply list_elem_of_In; [by eapply list_elem_of_lookup_2 | done].
Qed.

Lemma repeated_across_stages (sts : list WorkflowStage) m i j si sj :
  i < j -> sts !! i = Some si -> sts !! j = Some sj ->
  m ∈ suggested_mcps si -> m ∈ suggested_mcps sj ->
  m ∈ repeated ∅ (flat_map suggested_mcps sts).
Proof.
  intros Hij Hi Hj Hmi Hmj. apply elem_of_repeated.
  apply list_elem_of_split in Hmj as (k1 & k2 & Hk).
  exists (flat_map suggested_mcps (take j sts) ++ k1)%list,
         (k2 ++ flat_map suggested_mcps (drop (S j) sts))%list.
  split.
  - rewrite <- (take_drop_middle sts j sj Hj) at 1.
    rewrite flat_map_app. simpl. rewrite Hk, <- !app_assoc. reflexivity.
  - right. apply elem_of_app. left.
    apply (elem_of_flat_map_lookup suggested_mcps _ i si); [|done].
    by rewrite lookup_take_lt.
Qed.

(** X7: the MCP part of the conflict check.  The check returns [True] and adds no error;
    among the warnings it appends, those about rate limits are exactly one
    per repeated occurrence of an MCP name in the stages' lists, in order;
    in particular an MCP named by two stages is warned about, whatever the
    dependencies between the two stages. *)
Theorem mcp_reuse_always_warned (w : WorkflowDefinition) (r : report) :
  exists ws ss,
    _validate_no_conflicts w r =
      (inr true, mkReport (r_errors r) (r_warnings r ++ ws) (r_suggestions r ++ ss)) /\
    List.filter is_rate_limit_warning ws =
      map rate_limit_warning (repeated ∅ (flat_map suggested_mcps (stages w))) /\
    (forall m i j si sj,
       i < j -> stages w !! i = Some si -> stages w !! j = Some sj ->
       m ∈ suggested_mcps si -> m ∈ suggested_mcps sj ->
       rate_limit_warning m ∈ ws).
Proof.
  rewrite validate_no_conflicts_unfold.
  destruct (conflict_loop_exact w (imap (fun i st => (i, st)) (stages w)) ∅ ∅ r)
    as (au & mu & ws & ss & Hrun & Hf).
  pose proof (flat_map_imap suggested_mcps (stages w) id) as Hfm. simpl in Hfm.
  rewrite Hfm, dom_empty_L in Hf.
  exists ws, ss. split; [|split].
  - unfold vbind. by rewrite Hrun.
  - exact Hf.
  - intros m i j si sj Hij Hi Hj Hmi Hmj.
    pose proof (repeated_across_stages _ m i j si sj Hij Hi Hj Hmi Hmj) as Hrep.
    apply list_elem_of_In. eapply (proj1 (List.filter_In is_rate_limit_warning _ ws)).
    rewrite Hf. apply in_map. by apply list_elem_of_In.
Qed.


(** ** Invariants of a run *)

Lemma retry_loop_logs env st j d n a s out s' :
  retry_loop env st j d a n s = (out, s') -> exists evs, s' = logged s evs.
Proof.
  intros H. apply (retry_loop_frame _ _ _ _ (S j)) in H as (evs & -> & _); [|lia].
  by exists evs.
Qed.

(** One iteration keeps [self.output_dir]; it goes on having counted at
    most its own stage, or breaks with [partial_results] set and nothing
    counted, or raises. *)
Lemma stage_iteration_inv env st i s out s' :
  stage_iteration env st i s = (out, s') ->
  self_output_dir s' = self_output_dir s /\
  l_stages_completed s <= l_stages_completed s' <= S (l_stages_completed s) /\
  match out with
  | inr false => l_partial_results s' = l_partial_results s
  | inr true => l_partial_results s' = true /\ l_stages_completed s' = l_stages_completed s
  | inl _ => True
  end.
Proof.
  unfold stage_iteration. unfold vbind at 1. rewrite execute_stage_run.
  destruct (sr_success (stage_outcome env st i 0)).
  { run_monad. destruct (save_stage_results env i); intros [= <- <-]; simpl;
      (split; [done|]); (split; [lia|]); done. }
  destruct (String.eqb _ "stop").
  { run_monad. intros [= <- <-]. simpl. split; [done|]. split; [lia|]. done. }
  destruct (String.eqb _ "retry") eqn:Hpol.
  2: { unfold vret. intros [= <- <-]. simpl. split; [done|]. split; [lia|]. done. }
  apply String.eqb_eq in Hpol. rewrite Hpol. unfold vbind at 1.
  destruct (_retry_stage env st i (logged s [Attempt i])) as [[e|rr] s1] eqn:Hr;
    unfold _retry_stage in Hr; apply retry_loop_logs in Hr as (evs & ->).
  - intros [= <- <-]. simpl. split; [done|]. split; [lia|]. done.
  - destruct (sr_success rr); run_monad.
    + destruct (save_stage_results env i); intros [= <- <-]; simpl;
        (split; [done|]); (split; [lia|]); done.
    + intros [= <- <-]. simpl. split; [done|]. split; [lia|]. done.
Qed.

Lemma stage_loop_inv env : forall sts i s out s',
  stage_loop env sts i s = (out, s') ->
  self_output_dir s' = self_output_dir s /\
  l_stages_completed s <= l_stages_completed s' <= l_stages_completed s + length sts /\
  (out = inr tt ->
   l_partial_results s' = l_partial_results s \/
   (l_partial_results s' = true /\
    l_stages_completed s' < l_stages_completed s + length sts)).
Proof.
  induction sts as [|st sts IH]; intros i s out s'; simpl.
  - unfold vret. intros [= <- <-]. split; [done|]. split; [lia|]. by left.
  - unfold vbind. destruct (stage_iteration env st i s) as [[e|stop] s1] eqn:Hit;
      apply stage_iteration_inv in Hit as (Hd & Hc & Hp).
    + intros [= <- <-]. split; [done|]. split; [lia|]. done.
    + destruct stop.
      * unfold vret. intros [= <- <-]. split; [done|]. split; [lia|].
        intros _. right. split; [tauto | lia].
      * intros Hl. apply IH in Hl as (Hd' & Hc' & Hp'). split; [congruence|].
        split; [lia|]. intros Ho. destruct (Hp' Ho) as [Hq|[Hq Hlt]].
        -- left. congruence.
        -- right. split; [done | lia].
Qed.

(** X8: every result of a real run: the count of completed stages never
    exceeds the number of stages; a successful result has no error message,
    no partial results, all stages completed and an output directory; partial
    results come with an output directory, and, without an error message,
    with fewer completed stages than stages. *)
Theorem execution_result_invariant (env : executor_env) (res : ExecutionResult)
    (s : exec_state) :
  execute_workflow env false = (inr res, s) ->
  stages_completed res <= total_stages res /\
  (success res = true ->
     error_message res = None /\ partial_results res = false /\
     stages_completed res = total_stages res /\ is_Some (output_directory res)) /\
  (partial_results res = true ->
     success res = false /\ is_Some (output_directory res)) /\
  (partial_results res = true -> error_message res = None ->
     stages_completed res < total_stages res).
Proof.
  unfold execute_workflow. run_monad.
  destruct (parse_suggested env) as [e|w]; [discriminate|].
  unfold _perform_execution. run_monad.
  destruct (create_output_directory env) as [e|dir].
  { intros [= <- <-]. simpl. split; [lia|]. done. }
  destruct (save_workflow_config env).
  { intros [= <- <-]. simpl. split; [lia|]. done. }
  destruct (archive_input_files env).
  { intros [= <- <-]. simpl. split; [lia|]. done. }
  cbn [trace self_output_dir local_workflow].
  match goal with |- context [stage_loop env (stages w) 1 ?s0] =>
    destruct (stage_loop env (stages w) 1 s0) as [[e|[]] s1] eqn:Hl end;
    apply stage_loop_inv in Hl as (Hd & Hc & Hp); simpl in Hd, Hc, Hp.
  - intros [= <- <-]. simpl. rewrite Hd. split; [lia|]. done.
  - specialize (Hp eq_refl).
    assert (Hres : forall r,
      r = mkExecutionResult (l_stages_completed s1 =? length (stages w))
            (l_stages_completed s1) (length (stages w)) (self_output_dir s1)
            (l_correlations_found s1) None (l_partial_results s1) None ->
      stages_completed r <= total_stages r /\
      (success r = true ->
         error_message r = None /\ partial_results r = false /\
         stages_completed r = total_stages r /\ is_Some (output_directory r)) /\
      (partial_results r = true -> success r = false /\ is_Some (output_directory r)) /\
      (partial_results r = true -> error_message r = None ->
         stages_completed r < total_stages r)).
    { intros r ->. simpl. rewrite Hd. split; [lia|]. split; [|split].
      - intros Heq. apply Nat.eqb_eq in Heq. split; [done|]. split; [|done].
        destruct Hp as [Hp|[_ Hp]]; [done | lia].
      - intros Hpt. split; [|done]. apply Nat.eqb_neq.
        destruct Hp as [Hp|[_ Hp]]; [congruence | lia].
      - intros Hpt _. destruct Hp as [Hp|[_ Hp]]; [congruence | lia]. }
    destruct (0 <? l_stages_completed s1); [destruct (generate_final_reports env)|];
      intros [= <- <-].
    + simpl. rewrite Hd. split; [lia|]. done.
    + by apply Hres.
    + by apply Hres.
Qed.

(** X9: a run in which every stage succeeds on its first run, under any
    configuration: each stage is run once, in order, with no retry and no
    back-off sleep between the runs; the
    result is a success that counts every stage and carries the output
    directory and the correlations of the stages in order.  The final
    reports are written only if there is a stage: a workflow without stages
    succeeds without them. *)
Theorem all_stages_succeed (env : executor_env) (w : WorkflowDefinition) (dir : string) :
  parse_suggested env = inr w ->
  prepared env dir ->
  (forall i, 1 <= i <= length (stages w) -> runs_clean env i) ->
  (stages w <> [] -> generate_final_reports env = None) ->
  execute_workflow env false =
  (inr (mkExecutionResult true (length (stages w)) (length (stages w)) (Some dir)
          (flat_map simulated_correlations (stages w)) None false None),
   mkExecState (map Attempt (seq 1 (length (stages w)))) (Some dir) (Some w)
     (length (stages w)) (flat_map simulated_correlations (stages w)) false).
Proof.
  intros Hp Hprep Hclean Hrep. rewrite (execute_prepared env w dir Hp Hprep).
  pose proof (stage_loop_clean_prefix env [] (stages w) 1 (started w dir)) as Hl.
  rewrite app_nil_r in Hl. rewrite Hl by (intros k Hk; apply Hclean; lia).
  simpl. unfold vret. simpl. rewrite Nat.eqb_refl.
  destruct (stages w) as [|st sts]; [done|]. simpl. by rewrite Hrep.
Qed.

(** X10: the policy [stop]: the run ends at the first stage whose first run
    fails.  That stage is run once, no later stage is run, and there is no
    retry and no back-off sleep; the result counts the stages before it and
    has [partial_results]. *)
Theorem stop_at_first_failure (env : executor_env) (w : WorkflowDefinition) (dir : string)
    (pre : list WorkflowStage) (st : WorkflowStage) (post : list WorkflowStage) :
  parse_suggested env = inr w ->
  prepared env dir ->
  cfg_error_handling (config env) = Some "stop" ->
  stages w = (pre ++ st :: post)%list ->
  (forall i, 1 <= i <= length pre -> runs_clean env i) ->
  is_Some (stage_fault env (S (length pre)) 0) ->
  (pre <> [] -> generate_final_reports env = None) ->
  execute_workflow env false =
  (inr (mkExecutionResult false (length pre) (length (stages w)) (Some dir)
          (flat_map simulated_correlations pre) None true None),
   mkExecState (map Attempt (seq 1 (S (length pre)))) (Some dir) (Some w)
     (length pre) (flat_map simulated_correlations pre) true).
Proof.
  intros Hp Hprep Hpol Hst Hclean [e Hf] Hrep. rewrite (execute_prepared env w dir Hp Hprep).
  rewrite seq_S, map_app. rewrite Hst at 1.
  rewrite stage_loop_clean_prefix by (intros k Hk; apply Hclean; lia).
  simpl. unfold vbind. unfold stage_iteration. unfold vbind at 1.
  rewrite execute_stage_run. unfold stage_outcome. rewrite Hf, Hpol. simpl.
  run_monad. simpl.
  assert ((length pre =? length (stages w)) = false) as ->.
  { apply Nat.eqb_neq. rewrite Hst, length_app. simpl. lia. }
  destruct pre as [|p pre]; [done|]. simpl. by rewrite Hrep.
Qed.

Lemma stage_loop_fall_through env :
  let policy := default "retry" (cfg_error_handling (config env)) in
  policy <> "stop" -> policy <> "retry" ->
  forall sts i s,
    (forall k, k < length sts -> save_stage_results env (i + k) = None) ->
    stage_loop env sts i s =
    (inr tt,
     mkExecState (trace s ++ map Attempt (seq i (length sts))) (self_output_dir s)
       (local_workflow s)
       (l_stages_completed s + length (first_run_successes env i sts))
       (l_correlations_found s ++
        flat_map simulated_correlations (first_run_successes env i sts))
       (l_partial_results s)).
Proof.
  intros policy Hstop Hretry. induction sts as [|st sts IH]; intros i s Hsave.
  - simpl. unfold vret. rewrite !app_nil_r, Nat.add_0_r. by destruct s.
  - cbn [stage_loop]. unfold vbind. unfold stage_iteration. unfold vbind at 1.
    rewrite execute_stage_run. unfold stage_outcome.
    pose proof (Hsave 0) as Hs0. rewrite Nat.add_0_r in Hs0.
    assert (Hrest : forall k, k < length sts -> save_stage_results env (S i + k) = None).
    { intros k Hk. replace (S i + k) with (i + S k) by lia. apply Hsave. simpl. lia. }
    cbn [first_run_successes]. destruct (stage_fault env i 0) as [e|]; cbn [sr_success].
    + fold policy. rewrite (proj2 (String.eqb_neq _ _) Hstop).
      rewrite (proj2 (String.eqb_neq _ _) Hretry). unfold vret at 1.
      rewrite IH by done. simpl. by rewrite <- !app_assoc.
    + run_monad. rewrite Hs0 by (simpl; lia). cbn [sr_correlations].
      fold (@vbind exec_state). rewrite IH by done. simpl.
      rewrite <- !app_assoc. simpl. do 2 f_equal. lia.
Qed.

(** X11: under an error policy other than [stop] and [retry] (such as
    [continue], or a misspelt policy) a failed stage is skipped: every stage
    is run exactly once, in order, with no retry and no back-off sleep, and
    the result counts the stages whose first run succeeded, with
    [partial_results] false even when some stage failed. *)
Theorem other_policy_runs_every_stage (env : executor_env) (w : WorkflowDefinition)
    (dir : string) :
  parse_suggested env = inr w ->
  prepared env dir ->
  default "retry" (cfg_error_handling (config env)) <> "stop" ->
  default "retry" (cfg_error_handling (config env)) <> "retry" ->
  (forall i, 1 <= i <= length (stages w) -> save_stage_results env i = None) ->
  generate_final_reports env = None ->
  let ok := first_run_successes env 1 (stages w) in
  execute_workflow env false =
  (inr (mkExecutionResult (length ok =? length (stages w)) (length ok) (length (stages w))
          (Some dir) (flat_map simulated_correlations ok) None false None),
   mkExecState (map Attempt (seq 1 (length (stages w)))) (Some dir) (Some w)
     (length ok) (flat_map simulated_correlations ok) false).
Proof.
  intros Hp Hprep Hstop Hretry Hsave Hrep ok.
  rewrite (execute_prepared env w dir Hp Hprep).
  rewrite (stage_loop_fall_through env Hstop Hretry)
    by (intros k Hk; apply Hsave; lia).
  simpl. fold ok. rewrite Hrep. by destruct (0 <? length ok).
Qed.

(** ** [_retry_stage] *)


(** ** A negative [retry_delay] *)



(** ** The dry run *)

Lemma estimate_stage_time_bounds st :
  (5 # 2 <= _estimate_stage_time st)%Q /\ (_estimate_stage_time st <= 15)%Q.
Proof.
  unfold _estimate_stage_time.
  destruct (1 <? length (recommended_agents st)), (2 <? length (suggested_mcps st)),
    (contains "comprehensive" (lower (description st))),
    (contains "quick" (lower (description st)));
    split; unfold Qle; simpl; lia.
Qed.

Lemma estimate_fold_bounds : forall sts acc,
  (acc + (5 # 2) * inject_Z (Z.of_nat (length sts)) <=
   fold_left (fun acc st => acc + _estimate_stage_time st) sts acc)%Q /\
  (fold_left (fun acc st => acc + _estimate_stage_time st) sts acc <=
   acc + 15 * inject_Z (Z.of_nat (length sts)))%Q.
Proof.
  induction sts as [|st sts IH]; intros acc.
  - cbn [length fold_left]. change (inject_Z (Z.of_nat 0)) with 0%Q. split; lra.
  - cbn [fold_left length]. destruct (IH (acc + _estimate_stage_time st)%Q) as [Hlo Hhi].
    destruct (estimate_stage_time_bounds st) as [Hl Hh].
    rewrite Nat2Z.inj_succ, <- Z.add_1_r, inject_Z_plus.
    change (inject_Z 1) with 1%Q.
    split; lra.
Qed.

(** X14: a dry run of a workflow that parses runs no stage, sleeps never and
    creates no output directory, whatever the environment; its result is a
    success with no stage completed, and the estimate lies between 2.5 and
    15 minutes per stage. *)
Theorem dry_run_estimate (env : executor_env) (w : WorkflowDefinition) :
  parse_suggested env = inr w ->
  exists t,
    execute_workflow env true =
      (inr (mkExecutionResult true 0 (length (stages w)) None [] None false (Some t)),
       mkExecState [] None (Some w) 0 [] false) /\
    ((5 # 2) * inject_Z (Z.of_nat (length (stages w))) <= t)%Q /\
    (t <= 15 * inject_Z (Z.of_nat (length (stages w))))%Q.
Proof.
  intros Hp. unfold execute_workflow. run_monad. rewrite Hp. simpl.
  eexists. split; [reflexivity|].
  destruct (estimate_fold_bounds (stages w) 0%Q) as [Hlo Hhi]. split; lra.
Qed.


(** ** Stripping *)

Lemma rstrip_idem s : rstrip (rstrip s) = rstrip s.
Proof.
  induction s as [|c s IH]; [done|]. simpl.
  destruct (rstrip s) as [|k ks] eqn:Hr.
  - destruct (is_space c) eqn:Hc; [done|]. simpl. by rewrite Hc.
  - change (rstrip (String c (String k ks)))
      with (match rstrip (String k ks) with
            | EmptyString => if is_space c then EmptyString else String c EmptyString
            | kept => String c kept
            end).
    by rewrite IH.
Qed.

Lemma rstrip_head c s :
  is_space c = false -> exists t, rstrip (String c s) = String c t.
Proof. intros Hc. simpl. destruct (rstrip s); [rewrite Hc|]; by eexists. Qed.

Lemma lstrip_head s :
  lstrip s = "" \/ exists c t, lstrip s = String c t /\ is_space c = false.
Proof.
  induction s as [|c s IH]; [by left|]. simpl.
  destruct (is_space c) eqn:Hc; [done|]. right. by exists c, s.
Qed.

Lemma strip_trimmed s : trimmed (strip s).
Proof.
  unfold trimmed, strip. destruct (lstrip_head s) as [->|(c & t & -> & Hc)]; [done|].
  destruct (rstrip_head c t Hc) as (t' & Ht).
  rewrite Ht at 1.
  change (lstrip (String c t')) with (if is_space c then lstrip t' else String c t').
  rewrite Hc, <- Ht. apply rstrip_idem.
Qed.

Lemma strip_empty_rstrip s : strip s = "" -> rstrip s = "".
Proof.
  unfold strip. induction s as [|c s IH]; [done|]. simpl.
  destruct (is_space c) eqn:Hc.
  - intros H. by rewrite (IH H).
  - intros H. destruct (rstrip_head c s Hc) as (t & Ht). congruence.
Qed.

Lemma trimmed_nonempty_strip s : trimmed s -> s <> "" -> strip s = s.
Proof. done. Qed.

Lemma free_of_lstrip c s : free_of c s -> free_of c (lstrip s).
Proof.
  induction s as [|a s IH]; [done|]. simpl. intros [Ha Hs].
  destruct (is_space a); [by apply IH | done].
Qed.

Lemma free_of_rstrip c s : free_of c s -> free_of c (rstrip s).
Proof.
  induction s as [|a s IH]; [done|]. simpl. intros [Ha Hs].
  destruct (rstrip s) eqn:Hr; [destruct (is_space a); done|].
  split; [done | by apply IH].
Qed.

Lemma free_of_strip c s : free_of c s -> free_of c (strip s).
Proof. intros H. by apply free_of_rstrip, free_of_lstrip. Qed.

(** ** List items *)

Lemma is_list_item_inv line :
  is_list_item line = true ->
  exists a rest, line = String a (String " " rest) /\ is_space a = false.
Proof.
  unfold is_list_item. destruct line as [|a [|b rest]]; cbn [startswith].
  - done.
  - destruct (Ascii.eqb "-" a), (Ascii.eqb "*" a); done.
  - intros H. apply orb_true_iff in H as [H|H].
    + destruct (Ascii.eqb_spec "-" a) as [<-|]; [|done].
      destruct (Ascii.eqb_spec " " b) as [<-|]; [|done]. by eexists _, _.
    + destruct (Ascii.eqb_spec "*" a) as [<-|]; [|done].
      destruct (Ascii.eqb_spec " " b) as [<-|]; [|done]. by eexists _, _.
Qed.

(** The text after the marker of a stripped list-item line is not blank. *)
Lemma list_item_body line :
  trimmed line -> is_list_item line = true -> strip (drop2 line) <> "".
Proof.
  intros Ht Hi. destruct (is_list_item_inv line Hi) as (a & rest & -> & Ha).
  simpl drop2. intros He. apply strip_empty_rstrip in He.
  assert (Hr : rstrip (String a (String " " rest)) = String a (String " " rest))
    by (by apply trimmed_rstrip).
  simpl in Hr. rewrite He in Hr. simpl in Hr. rewrite Ha in Hr. discriminate.
Qed.

(** X15: [_parse_list_items] never returns an empty item nor one with white
    space around it. *)
Theorem list_items_clean (text : string) (item : string) :
  item ∈ _parse_list_items text -> item <> "" /\ trimmed item.
Proof.
  unfold _parse_list_items. intros H. apply list_elem_of_In, in_flat_map in H.
  destruct H as (line0 & _ & H).
  destruct (is_list_item (strip line0)) eqn:Hi; [|done].
  destruct H as [<-|[]]. split; [|apply strip_trimmed].
  apply list_item_body; [apply strip_trimmed | done].
Qed.

(** ** Splitting *)

Lemma split_lines_split_on s : split_lines s = split_on "010" s.
Proof. induction s as [|a s IH]; [done|]. simpl. by rewrite IH. Qed.

Lemma split_on_free c s : free_of c s -> split_on c s = [s].
Proof.
  induction s as [|a s IH]; [done|]. intros [Ha Hs]. simpl. rewrite IH by done.
  destruct (Ascii.eqb_spec a c); done.
Qed.

Lemma split_on_app c s t :
  free_of c s -> split_on c (s ++ String c t) = s :: split_on c t.
Proof.
  induction s as [|a s IH]; intros Hs.
  - rewrite append_nil. simpl. by rewrite Ascii.eqb_refl.
  - destruct Hs as [Ha Hs]. rewrite append_cons. simpl. rewrite IH by done.
    destruct (Ascii.eqb_spec a c); done.
Qed.

Lemma free_of_app c a b : free_of c a -> free_of c b -> free_of c (a ++ b).
Proof.
  induction a as [|x a IH]; [done|]. intros [Hx Ha] Hb. rewrite append_cons.
  split; [done | by apply IH].
Qed.

Lemma split_lines_join ls :
  Forall (free_of "010") ls -> ls <> [] -> split_lines (join newline ls) = ls.
Proof.
  rewrite split_lines_split_on. induction ls as [|x ls IH]; [done|].
  intros Hf _. apply Forall_cons in Hf as [Hx Hf]. destruct ls as [|y ls].
  - simpl. by apply split_on_free.
  - change (join newline (x :: y :: ls)) with (x ++ String "010" (join newline (y :: ls))).
    rewrite split_on_app by done. f_equal. by apply IH.
Qed.

(** ** Round trip of list items *)

Lemma strip_bullet star x :
  trimmed x -> x <> "" -> strip (bullet star ++ x) = bullet star ++ x.
Proof.
  intros Ht Hn. unfold strip.
  assert (Hl : lstrip (bullet star ++ x) = bullet star ++ x) by (by destruct star).
  rewrite Hl. apply rstrip_app_full; [by apply trimmed_rstrip | done].
Qed.

Lemma list_item_line star x :
  trimmed x -> x <> "" ->
  is_list_item (strip (bullet star ++ x)) = true /\
  strip (drop2 (strip (bullet star ++ x))) = x.
Proof.
  intros Ht Hn. rewrite strip_bullet by done. by destruct star.
Qed.

(** X16: round trip of [_parse_list_items]: a text made of one line per item,
    each a marker [- ] or [* ] followed by a trimmed, non-empty item without
    a line break, parses to the items, in order. *)
Theorem list_items_round_trip (items : list (bool * string)) :
  Forall (fun p => one_line_text (snd p)) items ->
  _parse_list_items (join newline (map (fun p => bullet (fst p) ++ snd p) items))
  = map snd items.
Proof.
  intros Hit. destruct (decide (items = [])) as [->|Hne]; [reflexivity|].
  unfold _parse_list_items. rewrite split_lines_join.
  - clear Hne. induction Hit as [|[star x] items (Ht & Hn & _) _ IH]; [done|].
    cbn [map flat_map fst snd]. destruct (list_item_line star x Ht Hn) as [-> ->].
    simpl. by rewrite IH.
  - apply Forall_map. eapply Forall_impl; [exact Hit|].
    intros [star x] (_ & _ & Hf). simpl. apply free_of_app; [by destruct star | done].
  - by destruct items.
Qed.

(** ** Round trip of the inputs section *)

Lemma input_line_run k v (inputs : gmap string string) :
  trimmed k -> k <> "" -> free_of ":" k -> trimmed v -> v <> "" ->
  input_line inputs (input_entry (k, v)) = <[k := v]> inputs.
Proof.
  intros Hk Hkn Hkf Hv Hvn. unfold input_entry, input_line. cbn [fst snd].
  assert (Hr1 : rstrip (String " " v) = String " " v).
  { simpl. rewrite (trimmed_rstrip v) by done. by destruct v. }
  assert (Hr2 : rstrip (k ++ String ":" (String " " v)) = k ++ String ":" (String " " v)).
  { apply rstrip_app_full; [|done]. simpl. simpl in Hr1. by rewrite Hr1. }
  assert (Hline : strip ("- " ++ k ++ ": " ++ v) = "- " ++ k ++ ": " ++ v).
  { unfold strip.
    change ("- " ++ k ++ ": " ++ v) with (String "-" (String " " (k ++ String ":" (String " " v)))).
    change (lstrip (String "-" ?x)) with (String "-" x).
    change (String "-" (String " " ?x)) with ("- " ++ x).
    apply rstrip_app_full; [exact Hr2 | by apply append_nonempty_l]. }
  rewrite Hline.
  assert (Hc : contains ":" ("- " ++ k ++ ": " ++ v) = true).
  { apply (contains_app ":" "- "). apply contains_app. reflexivity. }
  rewrite Hc. unfold is_list_item.
  change (startswith "- " ("- " ++ ?x)) with true. cbn [andb orb].
  change (drop2 ("- " ++ ?x)) with x.
  assert (Hs : strip (k ++ ": " ++ v) = k ++ String ":" (String " " v)).
  { unfold strip. rewrite trimmed_lstrip by done. exact Hr2. }
  rewrite Hs, split_colon_app by done. rewrite Hk.
  assert (Hval : strip (String " " v) = v).
  { unfold strip. change (lstrip (String " " v)) with (lstrip v).
    change (rstrip (lstrip v)) with (strip v). exact Hv. }
  by rewrite Hval.
Qed.

Lemma free_of_input_entry p : input_binding p -> free_of "010" (input_entry p).
Proof.
  intros ((_ & _ & Hk) & _ & (_ & _ & Hv)). unfold input_entry.
  apply (free_of_app _ "- "); [done|]. apply free_of_app; [done|].
  by apply (free_of_app _ ": ").
Qed.

Lemma parse_inputs_fold kvs : forall inputs : gmap string string,
  Forall input_binding kvs ->
  fold_left input_line (map input_entry kvs) inputs =
  fold_left (fun m p => <[fst p := snd p]> m) kvs inputs.
Proof.
  induction kvs as [|[k v] kvs IH]; intros inputs Hb; [done|].
  apply Forall_cons in Hb as [((Hk & Hkn & _) & Hkf & (Hv & Hvn & _)) Hb].
  cbn [map fold_left fst snd]. rewrite input_line_run by done. by apply IH.
Qed.

(** X17: round trip of [_parse_inputs]: a text of lines [- key: value], with
    trimmed non-empty one-line keys and values, the keys without a colon
    (the values may contain colons), parses to the dictionary of these
    bindings, in which a key given twice keeps its last value. *)
Theorem inputs_round_trip (kvs : list (string * string)) :
  Forall input_binding kvs ->
  _parse_inputs (join newline (map input_entry kvs)) = list_to_map (reverse kvs).
Proof.
  intros Hb.
  assert (Hfold : forall l (m : gmap string string),
            fold_left (fun m p => <[fst p := snd p]> m) l m
            = foldr (fun p m => <[fst p := snd p]> m) m (reverse l)).
  { induction l as [|p l IHl]; intros m; [done|].
    rewrite reverse_cons, foldr_app. simpl. apply IHl. }
  destruct (decide (kvs = [])) as [->|Hne]; [reflexivity|].
  unfold _parse_inputs. rewrite split_lines_join.
  - rewrite parse_inputs_fold, Hfold by done. unfold list_to_map.
    induction (reverse kvs) as [|[k v] l IHl]; [done|]. simpl. by rewrite IHl.
  - apply Forall_map. eapply Forall_impl; [exact Hb|]. apply free_of_input_entry.
  - by destruct kvs.
Qed.

(** ** Agent and MCP lists *)

Lemma str_truthy_nonempty s : str_truthy s = true <-> s <> "".
Proof.
  unfold str_truthy. destruct (String.eqb_spec s ""); split; simpl; congruence.
Qed.

Lemma before_paren_or_dash_free s :
  free_of "(" (before_paren_or_dash s) /\ free_of "-" (before_paren_or_dash s).
Proof.
  induction s as [|c s [IH1 IH2]]; [done|]. simpl.
  destruct (Ascii.eqb_spec c "("); [done|]. destruct (Ascii.eqb_spec c "-"); done.
Qed.

Lemma first_word_free s : free_of " " (first_word s).
Proof.
  induction s as [|c s IH]; [done|]. simpl. destruct (Ascii.eqb_spec c " "); done.
Qed.

(** X18: every name returned by [_parse_agent_list] is non-empty, trimmed and
    free of parentheses and hyphens: an agent whose name has a hyphen is
    cut at the hyphen. *)
Theorem agent_names_clean (text : string) (a : string) :
  a ∈ _parse_agent_list text ->
  a <> "" /\ trimmed a /\ free_of "(" a /\ free_of "-" a.
Proof.
  assert (Hname : forall x, str_truthy (strip (before_paren_or_dash x)) = true ->
            a = strip (before_paren_or_dash x) ->
            a <> "" /\ trimmed a /\ free_of "(" a /\ free_of "-" a).
  { intros x Hx ->. split; [by apply str_truthy_nonempty|]. split; [apply strip_trimmed|].
    destruct (before_paren_or_dash_free x). split; by apply free_of_strip. }
  unfold _parse_agent_list. intros H.
  destruct (contains newline text); apply list_elem_of_In, in_flat_map in H;
    destruct H as (x & _ & H).
  - destruct (is_list_item (strip x)); [|done].
    destruct (str_truthy (strip (before_paren_or_dash (strip (drop2 (strip x)))))) eqn:Ht;
      [|done].
    destruct H as [<-|[]]. by eapply Hname.
  - destruct (str_truthy (strip x)); [|done].
    destruct (str_truthy (strip (before_paren_or_dash (strip x)))) eqn:Ht; [|done].
    destruct H as [<-|[]]. by eapply Hname.
Qed.

Lemma first_word_nonempty s : trimmed s -> s <> "" -> first_word s <> "".
Proof.
  intros Ht Hn. destruct (trimmed_head s Ht Hn) as (c & s' & -> & Hc). simpl.
  destruct (Ascii.eqb_spec c " ") as [->|]; done.
Qed.

(** X19: every name returned by [_parse_mcp_list] is non-empty and has no
    space. *)
Theorem mcp_names_clean (text : string) (m : string) :
  m ∈ _parse_mcp_list text -> m <> "" /\ free_of " " m.
Proof.
  unfold _parse_mcp_list. intros H.
  destruct (contains newline text); apply list_elem_of_In, in_flat_map in H;
    destruct H as (x & _ & H).
  - destruct (is_list_item (strip x)); [|done].
    destruct (str_truthy (first_word (strip (drop2 (strip x))))) eqn:Ht; [|done].
    destruct H as [<-|[]]. split; [by apply str_truthy_nonempty | apply first_word_free].
  - destruct (str_truthy (strip x)); [|done].
    destruct (str_truthy (first_word (strip x))) eqn:Ht; [|done].
    destruct H as [<-|[]]. split; [by apply str_truthy_nonempty | apply first_word_free].
Qed.

Lemma contains_newline_free s : free_of "010" s -> contains newline s = false.
Proof.
  induction s as [|c s IH]; [done|]. intros [Hc Hs]. unfold newline in *.
  cbn [contains startswith]. rewrite (IH Hs).
  destruct (Ascii.eqb_spec "010" c); [congruence | done].
Qed.

Lemma free_of_join c sep ls :
  free_of c sep -> Forall (free_of c) ls -> free_of c (join sep ls).
Proof.
  intros Hsep. induction ls as [|x ls IH]; [done|]. intros Hf.
  apply Forall_cons in Hf as [Hx Hf]. destruct ls as [|y ls]; [done|].
  change (join sep (x :: y :: ls)) with (x ++ sep ++ join sep (y :: ls)).
  apply free_of_app; [done|]. apply free_of_app; [done | by apply IH].
Qed.

Lemma append_assoc a b c : (a ++ b) ++ c = a ++ b ++ c.
Proof. induction a as [|x a IH]; [done|]. rewrite !append_cons. by rewrite IH. Qed.

(** The pieces of a [", "]-joined text: all but the first begin with the
    space. *)
Lemma split_on_comma_join ls : forall pre x,
  free_of "," pre -> Forall (free_of ",") (x :: ls) ->
  split_on "," (pre ++ join ", " (x :: ls)) = (pre ++ x) :: map (String " ") ls.
Proof.
  induction ls as [|y ls IH]; intros pre x Hpre Hf;
    apply Forall_cons in Hf as [Hx Hf].
  - simpl. apply split_on_free. by apply free_of_app.
  - change (join ", " (x :: y :: ls)) with (x ++ String "," (" " ++ join ", " (y :: ls))).
    rewrite <- append_assoc. rewrite split_on_app by (by apply free_of_app).
    rewrite (IH " " y) by done. reflexivity.
Qed.

Lemma before_paren_or_dash_entry n m :
  free_of "(" n -> free_of "-" n ->
  strip (before_paren_or_dash (n ++ metadata_suffix m)) = strip n.
Proof.
  intros H1 H2. destruct m as [text|]; simpl.
  - assert (before_paren_or_dash (n ++ " (" ++ text ++ ")") = n ++ " ") as ->.
    { induction n as [|c n IH]; [reflexivity|]. destruct H1 as [Hc1 H1], H2 as [Hc2 H2].
      rewrite (append_cons c n), (append_cons c n). simpl. rewrite IH by done.
      destruct (Ascii.eqb_spec c "("); [done|]. destruct (Ascii.eqb_spec c "-"); done. }
    unfold strip. destruct (lstrip_head n) as [Hl|(c & t & Hl & Hc)].
    + assert (lstrip (n ++ " ") = "") as ->; [|by rewrite Hl].
      clear H1 H2. induction n as [|c n IH]; [done|]. rewrite append_cons. simpl in *.
      destruct (is_space c); [by apply IH | done].
    + assert (lstrip (n ++ " ") = lstrip n ++ " ") as ->; [|apply rstrip_space].
      clear H1 H2 Hc. induction n as [|c' n IH]; [done|]. rewrite append_cons.
      simpl in *. destruct (is_space c'); [by apply IH | done].
  - rewrite append_empty_r. f_equal.
    induction n as [|c n IH]; [done|]. destruct H1 as [Hc1 H1], H2 as [Hc2 H2].
    simpl. rewrite IH by done.
    destruct (Ascii.eqb_spec c "("); [done|]. destruct (Ascii.eqb_spec c "-"); done.
Qed.

Lemma strip_space_l s : strip (String " " s) = strip s.
Proof. reflexivity. Qed.

Lemma strip_agent_entry n m :
  trimmed n -> n <> "" -> strip (n ++ metadata_suffix m) = n ++ metadata_suffix m.
Proof.
  intros Ht Hn. unfold strip. rewrite trimmed_lstrip by done. by apply rstrip_suffix.
Qed.

Lemma parse_agent_piece (pad : string) n m :
  (pad = "" \/ pad = " ") -> agent_name_ok n ->
  (let agent := strip (pad ++ agent_entry (n, m)) in
   if str_truthy agent then
     let agent_name := strip (before_paren_or_dash agent) in
     if str_truthy agent_name then [agent_name] else []
   else []) = [n].
Proof.
  intros Hpad ((Ht & Hn & _) & H1 & H2 & _). unfold agent_entry. cbn [fst snd].
  assert (strip (pad ++ n ++ metadata_suffix m) = n ++ metadata_suffix m) as ->.
  { destruct Hpad as [-> | ->]; [rewrite append_nil | rewrite append_cons, append_nil,
      strip_space_l]; by apply strip_agent_entry. }
  cbv zeta. rewrite (proj2 (str_truthy_nonempty _)) by (by apply append_nonempty_l).
  rewrite before_paren_or_dash_entry by done. rewrite Ht.
  by rewrite (proj2 (str_truthy_nonempty _)).
Qed.

(** The comma-separated form of an agent list parses to its names. *)
Lemma parse_agent_list_join (agents : list (string * option string)) :
  Forall (fun p => agent_name_ok (fst p) /\ remark_ok (snd p)) agents ->
  _parse_agent_list (join ", " (map agent_entry agents)) = map fst agents.
Proof.
  intros Hok. destruct agents as [|[n m] agents]; [reflexivity|].
  assert (Hentry : forall c, (c = ","%char \/ c = "010"%char) ->
            Forall (free_of c) (map agent_entry ((n, m) :: agents))).
  { intros c Hc. apply Forall_map. eapply Forall_impl; [exact Hok|].
    intros [n' m'] [((_ & _ & Hnl) & _ & _ & Hcm) Hr]. unfold agent_entry. simpl in *.
    apply free_of_app; [by destruct Hc as [-> | ->]|].
    destruct m' as [text|]; [|done]. destruct Hr as [Hr1 Hr2]. simpl.
    apply (free_of_app _ " ("); [by destruct Hc as [-> | ->]|].
    apply free_of_app; [by destruct Hc as [-> | ->] | by destruct Hc as [-> | ->]]. }
  unfold _parse_agent_list.
  rewrite contains_newline_free by (apply free_of_join; [done | apply Hentry; by right]).
  cbn [map]. pose proof (split_on_comma_join (map agent_entry agents) "" (agent_entry (n, m)))
    as Hsplit.
  rewrite append_nil in Hsplit. rewrite Hsplit; [|done | apply (Hentry ","%char); by left].
  rewrite append_nil. apply Forall_cons in Hok as [[Hn _] Hok]. cbn [flat_map fst].
  pose proof (parse_agent_piece "" n m (or_introl eq_refl) Hn) as Hp.
  rewrite append_nil in Hp. cbv zeta in Hp. rewrite Hp. simpl. f_equal.
  clear Hentry Hsplit Hp. induction Hok as [|[n' m'] agents' [Hn' _] _ IH]; [done|].
  cbn [map flat_map fst].
  pose proof (parse_agent_piece " " n' m' (or_intror eq_refl) Hn') as Hp.
  cbv zeta in Hp. change (" " ++ agent_entry (n', m')) with (String " " (agent_entry (n', m')))
    in Hp. rewrite Hp. simpl. by rewrite IH.
Qed.

(** X20: round trip of [_parse_agent_list] on the comma-separated form: names
    that are trimmed, non-empty and free of line breaks, commas,
    parentheses and hyphens, each with an optional remark in parentheses,
    joined by [", "], parse to the names, in order, without the remarks. *)
Theorem agent_list_round_trip (agents : list (string * option string)) :
  Forall (fun p => agent_name_ok (fst p) /\ remark_ok (snd p)) agents ->
  _parse_agent_list (join ", " (map agent_entry agents)) = map fst agents.
Proof. intros Hok. by apply parse_agent_list_join. Qed.

Lemma first_word_whole s : free_of " " s -> first_word s = s.
Proof.
  induction s as [|c s IH]; [done|]. intros [Hc Hs]. simpl. rewrite IH by done.
  destruct (Ascii.eqb_spec c " "); done.
Qed.

Lemma parse_mcp_piece (pad : string) n :
  (pad = "" \/ pad = " ") -> mcp_name_ok n ->
  (let mcp := strip (pad ++ n) in
   if str_truthy mcp then
     let mcp_name := first_word mcp in
     if str_truthy mcp_name then [mcp_name] else []
   else []) = [n].
Proof.
  intros Hpad ((Ht & Hn & _) & Hsp & _).
  assert (strip (pad ++ n) = n) as ->.
  { destruct Hpad as [-> | ->]; [by rewrite append_nil|].
    by rewrite append_cons, append_nil, strip_space_l. }
  cbv zeta. rewrite first_word_whole by done.
  by rewrite (proj2 (str_truthy_nonempty _)).
Qed.

(** The comma-separated form of an MCP list parses to its names. *)
Lemma parse_mcp_list_join (mcps : list string) :
  Forall mcp_name_ok mcps -> _parse_mcp_list (join ", " mcps) = mcps.
Proof.
  intros Hok. destruct mcps as [|n mcps]; [reflexivity|].
  unfold _parse_mcp_list.
  rewrite contains_newline_free.
  2: { apply free_of_join; [done|]. eapply Forall_impl; [exact Hok|].
       by intros x ((_ & _ & H) & _). }
  pose proof (split_on_comma_join mcps "" n) as Hsplit.
  rewrite append_nil in Hsplit. rewrite Hsplit;
    [|done | eapply Forall_impl; [exact Hok | by intros x (_ & _ & H)]].
  rewrite append_nil. apply Forall_cons in Hok as [Hn Hok]. cbn [flat_map].
  pose proof (parse_mcp_piece "" n (or_introl eq_refl) Hn) as Hp.
  rewrite append_nil in Hp. cbv zeta in Hp. rewrite Hp. simpl. f_equal.
  clear Hsplit Hp. induction Hok as [|n' mcps' Hn' _ IH]; [done|].
  cbn [map flat_map].
  pose proof (parse_mcp_piece " " n' (or_intror eq_refl) Hn') as Hp.
  cbv zeta in Hp. change (" " ++ n') with (String " " n') in Hp. rewrite Hp.
  simpl. by rewrite IH.
Qed.

(** X21: round trip of [_parse_mcp_list] on the comma-separated form: names that
    are trimmed, non-empty and free of line breaks, commas and spaces,
    joined by [", "], parse to the names, in order. *)
Theorem mcp_list_round_trip (mcps : list string) :
  Forall mcp_name_ok mcps -> _parse_mcp_list (join ", " mcps) = mcps.
Proof. intros Hok. by apply parse_mcp_list_join. Qed.

(** ** The syntax check *)

Lemma is_nil_true {A} (l : list A) : is_nil l = true <-> l = [].
Proof. by destruct l. Qed.

Lemma concat_imap_nil {A B} (f : nat -> A -> list B) (l : list A) :
  concat (imap f l) = [] <-> forall i x, l !! i = Some x -> f i x = [].
Proof.
  split.
  - intros H i x Hl. assert (Hin : f i x ∈ imap f l).
    { apply list_elem_of_lookup. exists i. by rewrite list_lookup_imap, Hl. }
    apply list_elem_of_split in Hin as (l1 & l2 & Heq). rewrite Heq in H.
    rewrite concat_app in H. apply app_nil in H as [_ H]. simpl in H.
    by apply app_nil in H as [H _].
  - revert f. induction l as [|x l IH]; intros f Hall; [done|].
    simpl. rewrite (Hall 0 x) by done. simpl. apply IH.
    intros i y Hl. by apply (Hall (S i)).
Qed.

(** X22: [validate_workflow_syntax] reports no issue exactly for a workflow
    that parses and has a goal, at least one stage, and in every stage a
    name and at least one recommended agent; when parsing raises, the only
    issue is the parse error. *)
Theorem syntax_check_passes_iff (parsed : exn + WorkflowDefinition) :
  (validate_workflow_syntax parsed = [] <->
   exists w, parsed = inr w /\ goal w <> "" /\ stages w <> [] /\
     Forall (fun st => name st <> "" /\ recommended_agents st <> []) (stages w)) /\
  (forall e, parsed = inl e ->
     validate_workflow_syntax parsed = [parse_error_issue e]).
Proof.
  split; [|by intros e ->]. destruct parsed as [e|w]; simpl.
  { split; [done | by intros (w & ? & _)]. }
  rewrite !app_nil, concat_imap_nil. split.
  - intros (Hg & Hs & Hall). exists w. split; [done|].
    split; [destruct (str_truthy (goal w)) eqn:E; [by apply str_truthy_nonempty | done]|].
    split; [by destruct (stages w)|].
    apply Forall_forall. intros st Hin. apply list_elem_of_lookup in Hin as [i Hi].
    specialize (Hall i st Hi). unfold syntax_stage_issues in Hall.
    apply app_nil in Hall as [Hn Ha].
    split; [destruct (str_truthy (name st)) eqn:E; [by apply str_truthy_nonempty | done]|].
    by destruct (recommended_agents st).
  - intros (w' & [= <-] & Hg & Hs & Hall).
    rewrite (proj2 (str_truthy_nonempty _) Hg).
    split; [done|]. split; [by destruct (stages w)|].
    intros i st Hi. rewrite Forall_forall in Hall.
    destruct (Hall st (list_elem_of_lookup_2 _ _ _ Hi)) as [Hn Ha].
    unfold syntax_stage_issues. rewrite (proj2 (str_truthy_nonempty _) Hn).
    by destruct (recommended_agents st).
Qed.




Lemma no_conflicts_witness :
  _validate_no_conflicts shared_agent_workflow (mkReport [] [] [])
  = (inr true, mkReport [] [] []).
Proof.
  apply no_conflicts_when_sequenced.
  - intros i j si sj a Hij Hi Hj Hai Haj.
    destruct j as [|[|j]]; [lia | | done]. destruct i as [|i]; [|lia].
    simpl in Hj. injection Hj as <-. simpl. left.
  - intros st Hst. simpl in Hst. rewrite !elem_of_cons in Hst.
    destruct Hst as [-> | [-> | Hst]]; [| | by apply elem_of_nil in Hst]; simpl.
    + repeat constructor. by apply not_elem_of_nil.
    + repeat constructor; [|by apply not_elem_of_nil].
      rewrite list_elem_of_singleton. discriminate.
  - simpl. repeat constructor; [|by apply not_elem_of_nil].
    rewrite list_elem_of_singleton. discriminate.
Defined.

Lemma execution_result_invariant_witness :
  let res := mkExecutionResult false 1 2 (Some sample_output_dir) [] None true None in
  stages_completed res <= total_stages res /\
  (success res = true ->
     error_message res = None /\ partial_results res = false /\
     stages_completed res = total_stages res /\ is_Some (output_directory res)) /\
  (partial_results res = true -> success res = false /\ is_Some (output_directory res)) /\
  (partial_results res = true -> error_message res = None ->
     stages_completed res < total_stages res).
Proof.
  apply (execution_result_invariant
           (scenario default_config (inr two_stage_workflow) (Nat.eqb 2))
           (mkExecutionResult false 1 2 (Some sample_output_dir) [] None true None)
           (mkExecState
              [Attempt 1; Attempt 2; Sleep 5; Attempt 2; Sleep 10; Attempt 2; Sleep 20;
               Attempt 2]
              (Some sample_output_dir) (Some two_stage_workflow) 1 [] true)).
  vm_compute. reflexivity.
Defined.

Lemma all_stages_succeed_witness :
  execute_workflow (scenario default_config (inr two_stage_workflow) (fun _ => false)) false =
  (inr (mkExecutionResult true 2 2 (Some sample_output_dir) [] None false None),
   mkExecState [Attempt 1; Attempt 2] (Some sample_output_dir) (Some two_stage_workflow)
     2 [] false).
Proof.
  apply (all_stages_succeed
           (scenario default_config (inr two_stage_workflow) (fun _ => false))
           two_stage_workflow sample_output_dir).
  - reflexivity.
  - repeat split.
  - intros i _. split; reflexivity.
  - intros _. reflexivity.
Defined.

Lemma stop_at_first_failure_witness :
  execute_workflow
    (scenario (mkExecConfig (Some "stop") None None) (inr two_stage_workflow) (Nat.eqb 2))
    false =
  (inr (mkExecutionResult false 1 2 (Some sample_output_dir) [] None true None),
   mkExecState [Attempt 1; Attempt 2] (Some sample_output_dir) (Some two_stage_workflow)
     1 [] true).
Proof.
  apply (stop_at_first_failure
           (scenario (mkExecConfig (Some "stop") None None) (inr two_stage_workflow)
              (Nat.eqb 2))
           two_stage_workflow sample_output_dir
           [blank_stage "Collect" []] (blank_stage "Report" ["Stage 1"]) []).
  - reflexivity.
  - repeat split.
  - reflexivity.
  - reflexivity.
  - intros i Hi. simpl in Hi. assert (i = 1) as -> by lia. split; reflexivity.
  - simpl. eexists. reflexivity.
  - intros _. reflexivity.
Defined.

Lemma other_policy_witness :
  execute_workflow
    (scenario (mkExecConfig (Some "Stop") None None) (inr two_stage_workflow) (Nat.eqb 1))
    false =
  (inr (mkExecutionResult false 1 2 (Some sample_output_dir) [] None false None),
   mkExecState [Attempt 1; Attempt 2] (Some sample_output_dir) (Some two_stage_workflow)
     1 [] false).
Proof.
  apply (other_policy_runs_every_stage
           (scenario (mkExecConfig (Some "Stop") None None) (inr two_stage_workflow)
              (Nat.eqb 1))
           two_stage_workflow sample_output_dir).
  - reflexivity.
  - repeat split.
  - simpl. discriminate.
  - simpl. discriminate.
  - intros i _. reflexivity.
  - reflexivity.
Defined.



Lemma dry_run_witness :
  exists t,
    execute_workflow (scenario default_config (inr two_stage_workflow) (fun _ => true)) true =
      (inr (mkExecutionResult true 0 2 None [] None false (Some t)),
       mkExecState [] None (Some two_stage_workflow) 0 [] false) /\
    ((5 # 2) * inject_Z 2 <= t)%Q /\ (t <= 15 * inject_Z 2)%Q.
Proof.
  apply (dry_run_estimate
           (scenario default_config (inr two_stage_workflow) (fun _ => true))
           two_stage_workflow).
  reflexivity.
Defined.

Lemma list_items_clean_witness : "beta gamma" <> "" /\ trimmed "beta gamma".
Proof.
  apply (list_items_clean sample_list_text "beta gamma").
  vm_compute. right. left.
Defined.

Lemma list_items_round_trip_witness :
  _parse_list_items sample_list_text = ["alpha"; "beta gamma"].
Proof.
  apply (list_items_round_trip [(false, "alpha"); (true, "beta gamma")]).
  repeat constructor; simpl; done.
Defined.

Lemma inputs_round_trip_witness :
  _parse_inputs "- site: https://example.com
- keywords: inputs/keywords.csv
- site: https://example.org"
  = list_to_map [("site", "https://example.org"); ("keywords", "inputs/keywords.csv");
                 ("site", "https://example.com")].
Proof.
  apply (inputs_round_trip [("site", "https://example.com");
                            ("keywords", "inputs/keywords.csv");
                            ("site", "https://example.org")]).
  repeat constructor; simpl; done.
Defined.

Lemma agent_names_clean_witness :
  "Metrics" <> "" /\ trimmed "Metrics" /\ free_of "(" "Metrics" /\ free_of "-" "Metrics".
Proof.
  apply (agent_names_clean sample_agents_text "Metrics").
  vm_compute. right. left.
Defined.

Lemma mcp_names_clean_witness : "firecrawl" <> "" /\ free_of " " "firecrawl".
Proof.
  apply (mcp_names_clean sample_mcps_text "firecrawl").
  vm_compute. left.
Defined.

Lemma agent_list_round_trip_witness :
  _parse_agent_list "SEOAgent (primary), MetricsAgent" = ["SEOAgent"; "MetricsAgent"].
Proof.
  apply (agent_list_round_trip [("SEOAgent", Some "primary"); ("MetricsAgent", None)]).
  repeat constructor; simpl; done.
Defined.

Lemma mcp_list_round_trip_witness :
  _parse_mcp_list "firecrawl, fetch" = ["firecrawl"; "fetch"].
Proof.
  apply (mcp_list_round_trip ["firecrawl"; "fetch"]).
  repeat constructor; simpl; done.
Defined.

(** ** The input files *)

Lemma exists_probe_true env p (r : report) :
  path_exists env p = true -> exists_probe env p r = (inr true, r).
Proof.
  unfold path_exists, exists_probe. destruct (path_probe env p) as [e|[]]; try discriminate.
  done.
Qed.

(** X23: the input-file check is silent when nothing it looks for is
    missing: if the client's inputs directory exists (when a client is
    named) and every input located under [inputs/] exists, the report is
    returned unchanged.  Inputs located elsewhere are never looked up. *)
Theorem input_files_silent (env : validator_env) (w : WorkflowDefinition) (r : report) :
  inputs_present env w -> _validate_input_files env w r = (inr true, r).
Proof.
  intros [Hdir Hin].
  assert (Hfull : forall input_path,
    exists p,
      (if py_truthy (client_slug w)
       then dir ← client_dir env w; Some (path_join dir input_path)
       else Some input_path) = Some p /\
      forall r0 : report,
        (if py_truthy (client_slug w)
         then client_root <~ client_path env (client_slug w) ;;
              vret (path_join client_root input_path)
         else vret input_path) r0 = (inr p, r0)).
  { intros input_path. destruct (py_truthy (client_slug w)) eqn:Ht.
    - destruct (Hdir eq_refl) as (dir & Hcd & _). rewrite Hcd.
      exists (path_join dir input_path). split; [done|]. intros r0.
      unfold client_dir in Hcd. destruct (client_slug w); try discriminate Hcd.
      injection Hcd as <-. reflexivity.
    - eexists. split; [done|]. done. }
  unfold _validate_input_files. unfold vbind at 1.
  match goal with |- context [vwhen (py_truthy (client_slug w)) ?m r] =>
    assert (vwhen (py_truthy (client_slug w)) m r = (inr tt, r)) as -> end.
  { destruct (py_truthy (client_slug w)) eqn:Ht; [|done].
    destruct (Hdir eq_refl) as (dir & Hcd & Hex).
    unfold client_dir in Hcd. destruct (client_slug w); try discriminate Hcd.
    injection Hcd as <-. cbn [vwhen client_path]. unfold vbind at 1. unfold vret at 1.
    unfold vbind at 1. rewrite exists_probe_true by done. reflexivity. }
  unfold vbind at 1.
  match goal with |- context [vfor (inputs w) ?body] =>
    assert (Hloop : forall l, (forall n i, (n, i) ∈ l -> (n, i) ∈ inputs w) ->
                    vfor l body r = (inr tt, r)) end.
  { induction l as [|[input_name info] l IH]; intros Hsub; [done|].
    cbn [vfor]. unfold vbind at 1. cbv beta iota.
    pose proof (Hin input_name info) as Hp. unfold probed_path, input_location in Hp.
    destruct (str_truthy _ && startswith "inputs/" _) eqn:Hc.
    - cbn [vwhen].
      match goal with |- context [if py_truthy _ then _ else vret ?ip] =>
        destruct (Hfull ip) as (p & Hsome & Hrun) end.
      unfold vbind at 1. rewrite Hrun.
      unfold vbind at 1. rewrite exists_probe_true
        by (apply Hp; [apply Hsub; left | exact Hsome]).
      cbn [negb vwhen]. unfold vret at 1. apply IH.
      intros n i Hni. apply Hsub. by right.
    - cbn [vwhen]. unfold vret at 1. apply IH.
      intros n i Hni. apply Hsub. by right. }
  rewrite Hloop by done. reflexivity.
Qed.


(** ** The parser: sections and stages *)

Lemma lower_char_idem c : lower_char (lower_char c) = lower_char c.
Proof. destruct c as [[] [] [] [] [] [] [] []]; reflexivity. Qed.

Lemma str_lower_idem s : str_lower (str_lower s) = str_lower s.
Proof. induction s as [|c s IH]; [done|]. simpl. by rewrite lower_char_idem, IH. Qed.

Lemma strip_prefixed p t :
  lstrip p = p -> p <> "" -> trimmed t -> t <> "" -> strip (p ++ t) = p ++ t.
Proof.
  intros Hp Hpn Ht Hn. unfold strip.
  assert (Hl : lstrip (p ++ t) = p ++ t).
  { destruct p as [|c p]; [done|]. rewrite append_cons. simpl in *.
    destruct (is_space c) eqn:Hc; [|done]. exfalso.
    pose proof (lstrip_length p) as Hlen. rewrite Hp in Hlen. simpl in Hlen. lia. }
  rewrite Hl. apply rstrip_app_full; [by apply trimmed_rstrip | done].
Qed.

Lemma trimmed_lstrip_self t : trimmed t -> lstrip t = t.
Proof.
  intros Ht. destruct (decide (t = "")) as [->|Hn]; [done|].
  pose proof (trimmed_lstrip t Ht Hn "") as H. by rewrite append_empty_r in H.
Qed.

Lemma rest_after_space_text t : trimmed t -> t <> "" -> rest_after_space (String " " t) = Some t.
Proof.
  intros Ht Hn. unfold rest_after_space.
  change (lstrip (String " " t)) with (lstrip t). rewrite trimmed_lstrip_self by done.
  by rewrite (proj2 (str_truthy_nonempty t)).
Qed.

Lemma section_header_title t :
  trimmed t -> t <> "" -> section_header (strip ("## " ++ t)) = Some t.
Proof.
  intros Ht Hn. rewrite strip_prefixed by done.
  change (section_header ("## " ++ t)) with (rest_after_space t).
  unfold rest_after_space. rewrite trimmed_lstrip_self by done.
  by rewrite (proj2 (str_truthy_nonempty t)).
Qed.

(** ** Sections *)

Lemma section_line_header st t :
  trimmed t -> t <> "" ->
  section_line st ("## " ++ t) = mkSectionState (save_section st) (Some t) [].
Proof. intros Ht Hn. unfold section_line. by rewrite section_header_title. Qed.

Lemma section_lines_body body : forall s t cc,
  t <> "" -> Forall plain_line body ->
  fold_left section_line body (mkSectionState s (Some t) cc)
  = mkSectionState s (Some t) (cc ++ body).
Proof.
  induction body as [|l body IH]; intros s t cc Hn Hb; simpl.
  - by rewrite app_nil_r.
  - apply Forall_cons in Hb as [[_ Hl] Hb]. unfold section_line at 2. rewrite Hl. simpl.
    rewrite (proj2 (str_truthy_nonempty t)) by done.
    rewrite IH by done. by rewrite <- app_assoc.
Qed.

Lemma section_lines_preamble pre : forall s,
  Forall plain_line pre ->
  fold_left section_line pre (mkSectionState s None []) = mkSectionState s None [].
Proof.
  induction pre as [|l pre IH]; intros s Hb; [done|]. simpl.
  apply Forall_cons in Hb as [[_ Hl] Hb]. unfold section_line at 2. rewrite Hl. simpl.
  by apply IH.
Qed.

Lemma sections_fold secs : forall st,
  Forall section_ok secs ->
  save_section (fold_left section_line (flat_map section_text secs) st)
  = fold_left (fun m p => <[fst (section_entry p) := snd (section_entry p)]> m) secs
      (save_section st).
Proof.
  induction secs as [|[t body] secs IH]; intros st Hok; [done|].
  apply Forall_cons in Hok as [[(Ht & Hn & _) Hb] Hok]. simpl in Ht, Hn, Hb.
  cbn [flat_map].
  change (section_text (t, body)) with (String "#" (String "#" (String " " t)) :: body).
  rewrite <- app_comm_cons. cbn [fold_left].
  change (String "#" (String "#" (String " " t))) with ("## " ++ t).
  rewrite section_line_header by done. rewrite fold_left_app.
  rewrite section_lines_body by done. rewrite IH by done. cbn [fold_left]. f_equal.
  unfold save_section at 1. simpl. by rewrite (proj2 (str_truthy_nonempty t)).
Qed.

Lemma free_of_section_text p : section_ok p -> Forall (free_of "010") (section_text p).
Proof.
  intros [(_ & _ & Hf) Hb]. apply Forall_cons. split.
  - by apply (free_of_app _ "## ").
  - eapply Forall_impl; [exact Hb|]. by intros l [H _].
Qed.

Lemma fold_left_fmap {A B C} (f : A -> B) (g : C -> B -> C) (l : list A) : forall c,
  fold_left (fun c x => g c (f x)) l c = fold_left g (map f l) c.
Proof. induction l as [|x l IH]; intros c; [done|]. simpl. apply IH. Qed.

Lemma fold_insert_list_to_map {B} (l : list (string * B)) : forall m : gmap string B,
  fold_left (fun m p => <[fst p := snd p]> m) l m
  = foldr (fun p m => <[fst p := snd p]> m) m (reverse l).
Proof.
  induction l as [|p l IH]; intros m; [done|].
  rewrite reverse_cons, foldr_app. simpl. apply IH.
Qed.

(** X24: round trip of [_parse_markdown_sections].  A text that consists of
    lines that are no headers, followed by sections, each a header line
    [## <title>] with a trimmed non-empty title and body lines that are no
    headers, parses to the dictionary that maps each lower-cased title to
    the stripped body; the lines before the first header are dropped and a
    title given twice keeps its last body. *)
Theorem sections_round_trip (preamble : list string) (secs : list (string * list string)) :
  Forall plain_line preamble -> Forall section_ok secs ->
  _parse_markdown_sections (join newline (preamble ++ flat_map section_text secs))
  = list_to_map (reverse (map section_entry secs)).
Proof.
  intros Hpre Hok.
  assert (Hrun : save_section
            (fold_left section_line (preamble ++ flat_map section_text secs)
               (mkSectionState ∅ None []))
          = list_to_map (reverse (map section_entry secs))).
  { rewrite fold_left_app, section_lines_preamble, sections_fold by done.
    change (save_section (mkSectionState ∅ None [])) with (∅ : gmap string string).
    rewrite (fold_left_fmap section_entry
               (fun (m : gmap string string) q => <[fst q := snd q]> m)).
    rewrite fold_insert_list_to_map. unfold list_to_map.
    induction (reverse (map section_entry secs)) as [|[k v] l IHl]; [done|].
    simpl. by rewrite IHl. }
  destruct (decide (preamble ++ flat_map section_text secs = [])%list) as [He|Hne].
  - rewrite He in Hrun |- *. exact Hrun.
  - unfold _parse_markdown_sections. rewrite split_lines_join; [exact Hrun | | done].
    apply Forall_app. split; [eapply Forall_impl; [exact Hpre | by intros l [H _]]|].
    apply Forall_forall. intros l Hl. apply list_elem_of_In, in_flat_map in Hl.
    destruct Hl as (p & Hp & Hl). apply list_elem_of_In in Hp, Hl.
    rewrite Forall_forall in Hok. pose proof (free_of_section_text p (Hok p Hp)) as Hf.
    rewrite Forall_forall in Hf. by apply Hf.
Qed.

Lemma save_section_clean st :
  (forall k v, sections st !! k = Some v -> str_lower k = k /\ trimmed v) ->
  forall k v, save_section st !! k = Some v -> str_lower k = k /\ trimmed v.
Proof.
  intros Hs k v. unfold save_section. destruct (current_section st) as [t|]; [|apply Hs].
  destruct (str_truthy t); [|apply Hs].
  destruct (decide (str_lower t = k)) as [<-|Hne].
  - rewrite lookup_insert_eq. intros [= <-]. split; [apply str_lower_idem | apply strip_trimmed].
  - rewrite lookup_insert_ne by done. apply Hs.
Qed.

(** X25: in the dictionary returned by [_parse_markdown_sections] every
    key is in lower case and every text is stripped. *)
Theorem sections_clean (content : string) (k v : string) :
  _parse_markdown_sections content !! k = Some v -> str_lower k = k /\ trimmed v.
Proof.
  unfold _parse_markdown_sections. apply save_section_clean.
  assert (Hgen : forall lines st,
    (forall k v, sections st !! k = Some v -> str_lower k = k /\ trimmed v) ->
    forall k v, sections (fold_left section_line lines st) !! k = Some v ->
                str_lower k = k /\ trimmed v).
  { induction lines as [|l lines IH]; intros st Hs; [exact Hs|].
    simpl. apply IH. unfold section_line.
    destruct (section_header (strip l)); simpl; [by apply save_section_clean|].
    by destruct (opt_truthy (current_section st)). }
  apply Hgen. intros k' v' H. simpl in H. by rewrite lookup_empty in H.
Qed.

(** ** Stages *)

Lemma startswith_app p r : startswith p (p ++ r) = true.
Proof.
  induction p as [|c p IH]; [done|]. rewrite append_cons. simpl.
  by rewrite Ascii.eqb_refl.
Qed.

Lemma remove_from_skip pats a : forall rest,
  remove_from pats (String.length a) (a ++ rest) = remove_from pats 0 rest.
Proof.
  induction a as [|c a IH]; intros rest; [by rewrite append_nil|].
  rewrite append_cons. simpl. apply IH.
Qed.

Lemma first_match_star pats c s :
  Forall (fun p => startswith "*" p = true) pats -> c <> "*"%char ->
  first_match pats (String c s) = None.
Proof.
  intros Hp Hc. induction Hp as [|p pats Hs _ IH]; [done|].
  cbn [first_match]. destruct p as [|a p]; [cbn in Hs; discriminate|].
  cbn [startswith] in Hs |- *. destruct (Ascii.eqb_spec "*" a) as [<-|]; [|discriminate].
  destruct (Ascii.eqb_spec "*" c) as [<-|]; [done|]. exact IH.
Qed.

Lemma remove_from_free pats s :
  Forall (fun p => startswith "*" p = true) pats -> free_of "*" s ->
  remove_from pats 0 s = s.
Proof.
  intros Hp. induction s as [|c s IH]; [done|]. intros [Hc Hs].
  cbn [remove_from]. rewrite first_match_star by done. by rewrite IH.
Qed.

(** Removing the attribute marker from a line that begins with it and has
    no asterisk elsewhere leaves the rest of the line. *)
Lemma remove_all_marker p rest :
  startswith "*" p = true -> free_of "*" rest ->
  remove_all [p] (p ++ rest) = rest.
Proof.
  intros Hp Hr. unfold remove_all. destruct p as [|c p]; [done|].
  rewrite append_cons. cbn [remove_from first_match].
  change (String c (p ++ rest)) with (String c p ++ rest). rewrite startswith_app.
  cbn [String.length].
  replace (S (String.length p) - 1) with (String.length p) by lia.
  rewrite remove_from_skip.
  apply remove_from_free; [|done]. by repeat constructor.
Qed.

(** An attribute line: the marker, a space and a stripped value without
    asterisk.  The stripped line is the marker followed by a rest that
    strips to the value. *)
Lemma attribute_line p t :
  lstrip p = p -> rstrip p = p -> p <> "" ->
  trimmed t -> free_of "*" t ->
  exists rest, strip (p ++ " " ++ t) = p ++ rest /\ free_of "*" rest /\ strip rest = t.
Proof.
  intros Hl Hr Hn Ht Hf. destruct (decide (t = "")) as [->|Htn].
  - exists "". split; [|done]. unfold strip. change (" " ++ "") with " ".
    assert (lstrip (p ++ " ") = p ++ " ") as ->.
    { destruct p as [|c p]; [done|]. rewrite append_cons. simpl in *.
      destruct (is_space c) eqn:Hc; [|done]. exfalso.
      pose proof (lstrip_length p) as Hlen. rewrite Hl in Hlen. simpl in Hlen. lia. }
    by rewrite rstrip_space, append_empty_r, Hr.
  - exists (" " ++ t). split; [|split; [done|]].
    + rewrite <- append_assoc. apply strip_prefixed; [| by destruct p | done | done].
      destruct p as [|c p]; [done|]. rewrite !append_cons. simpl in *.
      destruct (is_space c) eqn:Hc; [|done]. exfalso.
      pose proof (lstrip_length p) as Hlen. rewrite Hl in Hlen. simpl in Hlen. lia.
    + exact Ht.
Qed.

Lemma drop_digits_colon n r :
  all_digits n = true -> drop_digits (n ++ String ":" r) = String ":" r.
Proof.
  induction n as [|c n IH]; [done|]. intros H. cbn [all_digits] in H.
  apply andb_true_iff in H as [Hc Hn]. rewrite append_cons. cbn [drop_digits].
  rewrite Hc. by apply IH.
Qed.

Lemma digit_not_space c : is_digit c = true -> is_space c = false.
Proof. destruct c as [[] [] [] [] [] [] [] []]; done. Qed.

Lemma strip_prefix_app p r : strip_prefix p (p ++ r) = Some r.
Proof.
  induction p as [|c p IH]; [by destruct r|]. rewrite append_cons. simpl.
  by rewrite Ascii.eqb_refl.
Qed.

Lemma stage_header_line n nm :
  n <> "" -> all_digits n = true -> trimmed nm -> nm <> "" ->
  stage_header (strip ("### Stage " ++ n ++ ": " ++ nm)) = Some nm.
Proof.
  intros Hn Hd Ht Hnm.
  assert (Hs : strip ("### Stage " ++ n ++ ": " ++ nm) = "### Stage " ++ n ++ ": " ++ nm).
  { rewrite <- (append_assoc n ": " nm), <- (append_assoc "### Stage " (n ++ ": ") nm).
    by apply strip_prefixed. }
  rewrite Hs. destruct n as [|c n]; [done|]. cbn [all_digits] in Hd.
  apply andb_true_iff in Hd as [Hc Hd]. unfold stage_header.
  set (tail := String c n ++ ": " ++ nm).
  change ("### Stage " ++ tail) with ("###" ++ String " " ("Stage" ++ String " " tail)).
  rewrite strip_prefix_app. cbn [mbind option_bind].
  assert (E1 : skip_spaces (String " " ("Stage" ++ String " " tail))
               = Some ("Stage" ++ String " " tail)) by reflexivity.
  rewrite E1. cbn [mbind option_bind]. rewrite strip_prefix_app. cbn [mbind option_bind].
  assert (E2 : skip_spaces (String " " tail) = Some tail).
  { unfold tail. rewrite append_cons. cbn [skip_spaces lstrip].
    change (is_space " ") with true. cbv iota. by rewrite (digit_not_space c Hc). }
  rewrite E2. cbn [mbind option_bind].
  assert (E3 : skip_digits tail = Some (String ":" (String " " nm))).
  { unfold tail. rewrite append_cons. cbn [skip_digits]. rewrite Hc.
    change (n ++ ": " ++ nm) with (n ++ String ":" (String " " nm)).
    by rewrite drop_digits_colon. }
  rewrite E3. cbn [mbind option_bind].
  change (String ":" (String " " nm)) with (":" ++ String " " nm).
  rewrite strip_prefix_app. cbn [mbind option_bind]. by apply rest_after_space_text.
Qed.

Lemma stage_header_star s : stage_header (String "*" s) = None.
Proof. reflexivity. Qed.

Lemma trimmed_join ds :
  Forall (fun d => trimmed d /\ d <> "") ds -> trimmed (join ", " ds).
Proof.
  induction ds as [|d ds IH]; [done|]. intros H. apply Forall_cons in H as [[Ht Hn] Hds].
  destruct ds as [|e ds]; [done|].
  change (join ", " (d :: e :: ds)) with (d ++ ", " ++ join ", " (e :: ds)).
  specialize (IH Hds). apply Forall_cons in Hds as [[_ Hen] _].
  assert (Hne : join ", " (e :: ds) <> "").
  { destruct ds; [done|]. change (join ", " (e :: s :: ds)) with (e ++ ", " ++ join ", " (s :: ds)).
    by apply append_nonempty_l. }
  unfold trimmed, strip. rewrite trimmed_lstrip by done.
  apply rstrip_app_full; [|done].
  apply (rstrip_app_full ", "); [by apply trimmed_rstrip | done].
Qed.

Lemma comma_items_join ds :
  Forall (fun d => trimmed d /\ d <> "" /\ free_of "," d) ds ->
  comma_items (join ", " ds) = ds.
Proof.
  intros Hok. destruct ds as [|d ds]; [reflexivity|]. unfold comma_items.
  pose proof (split_on_comma_join ds "" d) as Hsplit. rewrite append_nil in Hsplit.
  rewrite Hsplit; [|done | eapply Forall_impl; [exact Hok | by intros x (_ & _ & H)]].
  rewrite append_nil. apply Forall_cons in Hok as [(Ht & Hn & _) Hok]. cbn [flat_map].
  unfold trimmed in Ht. rewrite Ht. rewrite (proj2 (str_truthy_nonempty d) Hn).
  cbn [app]. f_equal. clear Hsplit.
  induction Hok as [|e ds' (Hte & Hne & _) _ IH]; [reflexivity|].
  cbn [map flat_map]. unfold trimmed in Hte. rewrite strip_space_l, Hte.
  rewrite (proj2 (str_truthy_nonempty e) Hne). simpl. by rewrite IH.
Qed.

Lemma stage_line_header acc cur n nm :
  n <> "" -> all_digits n = true -> trimmed nm -> nm <> "" ->
  stage_line (acc, cur) ("### Stage " ++ n ++ ": " ++ nm)
  = (match cur with Some st => (acc ++ [st])%list | None => acc end,
     Some (mkStage nm "" [] [] [] [] [] [] [] [])).
Proof. intros. unfold stage_line. by rewrite stage_header_line. Qed.

(** The step of the loop on an attribute line, for the marker [p]. *)
Lemma stage_line_attribute acc st p t :
  startswith "*" p = true -> lstrip p = p -> rstrip p = p ->
  trimmed t -> free_of "*" t ->
  exists rest,
    stage_line (acc, Some st) (p ++ " " ++ t) = (acc, Some (stage_attribute (p ++ rest) st)) /\
    strip (remove_all [p] (p ++ rest)) = t.
Proof.
  intros Hp Hl Hr Ht Hf.
  assert (Hn : p <> "") by (by destruct p).
  destruct (attribute_line p t Hl Hr Hn Ht Hf) as (rest & Hs & Hfr & Hrest).
  exists rest. split.
  - unfold stage_line. rewrite Hs. destruct p as [|c p]; [done|].
    cbn [startswith] in Hp. destruct (Ascii.eqb_spec "*" c) as [<-|]; [|done].
    rewrite append_cons, stage_header_star. reflexivity.
  - by rewrite remove_all_marker.
Qed.

Lemma stage_attribute_description rest st :
  stage_attribute ("**Description**:" ++ rest) st
  = set_description (strip (remove_all ["**Description**:"] ("**Description**:" ++ rest))) st.
Proof. reflexivity. Qed.

Lemma stage_attribute_dependencies rest st :
  stage_attribute ("**Dependencies**:" ++ rest) st
  = let deps_text := strip (remove_all ["**Dependencies**:"] ("**Dependencies**:" ++ rest)) in
    if String.eqb (str_lower deps_text) "none" then set_dependencies [] st
    else set_dependencies (comma_items deps_text) st.
Proof. reflexivity. Qed.

Lemma stage_attribute_agents rest st :
  stage_attribute ("**Recommended Agents**:" ++ rest) st
  = set_recommended_agents
      (_parse_agent_list
         (strip (remove_all ["**Recommended Agents**:"] ("**Recommended Agents**:" ++ rest))))
      st.
Proof. reflexivity. Qed.

Lemma stage_attribute_mcps rest st :
  stage_attribute ("**Suggested MCPs**:" ++ rest) st
  = set_suggested_mcps
      (_parse_mcp_list
         (strip (remove_all ["**Suggested MCPs**:"] ("**Suggested MCPs**:" ++ rest))))
      st.
Proof. reflexivity. Qed.

Lemma all_digits_free c n : is_digit c = false -> all_digits n = true -> free_of c n.
Proof.
  intros Hc. induction n as [|a n IH]; [done|]. cbn [all_digits]. intros H.
  apply andb_true_iff in H as [Ha Hn]. split; [congruence | by apply IH].
Qed.

Lemma agent_entry_text (p : string * option string) :
  agent_name_ok (fst p) -> trimmed (agent_entry p) /\ agent_entry p <> "".
Proof.
  intros ((Ht & Hn & _) & _). unfold agent_entry. split.
  - unfold trimmed. by apply strip_agent_entry.
  - by apply append_nonempty_l.
Qed.

Lemma free_of_agent_entry c (p : string * option string) :
  c <> " "%char -> c <> "("%char -> c <> ")"%char ->
  free_of c (fst p) -> remark_free_of c (snd p) -> free_of c (agent_entry p).
Proof.
  intros H1 H2 H3 Hn Hr. unfold agent_entry. apply free_of_app; [done|].
  destruct (snd p) as [text|]; [|done]. simpl in *.
  apply (free_of_app _ " ("); [done|]. by apply free_of_app.
Qed.

(** The five lines of a stage, from any state of the loop: the stage that
    was being read is appended, and the new one carries the five texts. *)
Lemma stage_lines_block sp acc cur :
  stage_spec_ok sp ->
  fold_left stage_line (stage_text sp) (acc, cur)
  = (match cur with Some st => (acc ++ [st])%list | None => acc end, Some (parsed_stage sp)).
Proof.
  intros ((Hnn & Hnd) & (Hname & Hnamen & _) & (Hdt & _ & Hdf) & (Hdeps & Hnone) & Hag & Hmc).
  unfold stage_text. cbn [fold_left].
  rewrite stage_line_header by done.
  change ("**Description**: " ++ sp_description sp)
    with ("**Description**:" ++ " " ++ sp_description sp).
  change ("**Dependencies**: " ++ dependencies_text (sp_dependencies sp))
    with ("**Dependencies**:" ++ " " ++ dependencies_text (sp_dependencies sp)).
  change ("**Recommended Agents**: " ++ join ", " (map agent_entry (sp_agents sp)))
    with ("**Recommended Agents**:" ++ " " ++ join ", " (map agent_entry (sp_agents sp))).
  change ("**Suggested MCPs**: " ++ join ", " (sp_mcps sp))
    with ("**Suggested MCPs**:" ++ " " ++ join ", " (sp_mcps sp)).
  set (acc' := match cur with Some st => (acc ++ [st])%list | None => acc end).
  (* description *)
  destruct (stage_line_attribute acc' (mkStage (sp_name sp) "" [] [] [] [] [] [] [] [])
              "**Description**:" (sp_description sp)) as (r1 & -> & E1); try done.
  rewrite stage_attribute_description, E1.
  (* dependencies *)
  assert (Hdtext : trimmed (dependencies_text (sp_dependencies sp)) /\
                   free_of "*" (dependencies_text (sp_dependencies sp))).
  { unfold dependencies_text. destruct (sp_dependencies sp) as [|d ds] eqn:Hd; [done|].
    cbn [is_nil]. split.
    - apply trimmed_join. eapply Forall_impl; [exact Hdeps|]. by intros x ((? & ? & _) & _).
    - apply free_of_join; [done|]. eapply Forall_impl; [exact Hdeps|].
      by intros x (_ & _ & ?). }
  destruct Hdtext as [Hdtt Hdtf].
  match goal with |- context [stage_line (acc', Some ?st) ("**Dependencies**:" ++ _)] =>
    destruct (stage_line_attribute acc' st "**Dependencies**:"
                (dependencies_text (sp_dependencies sp))) as (r2 & -> & E2); try done end.
  rewrite stage_attribute_dependencies. cbv zeta. rewrite E2.
  assert (Hdep : forall st,
            (if String.eqb (str_lower (dependencies_text (sp_dependencies sp))) "none"
             then set_dependencies [] st
             else set_dependencies (comma_items (dependencies_text (sp_dependencies sp))) st)
            = set_dependencies (sp_dependencies sp) st).
  { intros st.
    destruct (String.eqb_spec (str_lower (dependencies_text (sp_dependencies sp))) "none")
      as [He|Hne]; [by rewrite (Hnone He)|]. f_equal.
    unfold dependencies_text in *. destruct (sp_dependencies sp) as [|d ds] eqn:Hd;
      [exfalso; apply Hne; vm_compute; reflexivity|].
    cbn [is_nil]. apply comma_items_join. eapply Forall_impl; [exact Hdeps|].
    by intros x ((? & ? & _) & ? & _). }
  rewrite Hdep.
  (* agents *)
  assert (Hagt : trimmed (join ", " (map agent_entry (sp_agents sp))) /\
                 free_of "*" (join ", " (map agent_entry (sp_agents sp)))).
  { split.
    - apply trimmed_join. apply Forall_map. eapply Forall_impl; [exact Hag|].
      intros p (Hok & _). by apply agent_entry_text.
    - apply free_of_join; [done|]. apply Forall_map. eapply Forall_impl; [exact Hag|].
      intros p (_ & _ & Hf1 & Hf2). by apply free_of_agent_entry. }
  destruct Hagt as [Hagt Hagf].
  match goal with |- context [stage_line (acc', Some ?st) ("**Recommended Agents**:" ++ _)] =>
    destruct (stage_line_attribute acc' st "**Recommended Agents**:"
                (join ", " (map agent_entry (sp_agents sp)))) as (r3 & -> & E3); try done end.
  rewrite stage_attribute_agents, E3.
  rewrite parse_agent_list_join
    by (eapply Forall_impl; [exact Hag | by intros p (? & ? & _)]).
  (* MCPs *)
  assert (Hmt : trimmed (join ", " (sp_mcps sp)) /\ free_of "*" (join ", " (sp_mcps sp))).
  { split.
    - apply trimmed_join. eapply Forall_impl; [exact Hmc|]. by intros x (((? & ? & _) & _) & _).
    - apply free_of_join; [done|]. eapply Forall_impl; [exact Hmc|]. by intros x (_ & ?). }
  destruct Hmt as [Hmt Hmf].
  match goal with |- context [stage_line (acc', Some ?st) ("**Suggested MCPs**:" ++ _)] =>
    destruct (stage_line_attribute acc' st "**Suggested MCPs**:"
                (join ", " (sp_mcps sp))) as (r4 & -> & E4); try done end.
  rewrite stage_attribute_mcps, E4.
  rewrite parse_mcp_list_join by (eapply Forall_impl; [exact Hmc | by intros x (? & _)]).
  reflexivity.
Qed.

Lemma parse_stages_finished text :
  _parse_stages text = finished (fold_left stage_line (split_lines text) ([], None)).
Proof. unfold _parse_stages, finished. by destruct (fold_left _ _ _). Qed.

Lemma stage_lines_fold specs : forall state,
  Forall stage_spec_ok specs ->
  finished (fold_left stage_line (flat_map stage_text specs) state)
  = (finished state ++ map parsed_stage specs)%list.
Proof.
  induction specs as [|sp specs IH]; intros [acc cur] Hok.
  - simpl. by rewrite app_nil_r.
  - apply Forall_cons in Hok as [Hsp Hok]. cbn [flat_map]. rewrite fold_left_app.
    rewrite stage_lines_block by done. rewrite IH by done.
    unfold finished. simpl. by rewrite <- app_assoc.
Qed.

Lemma free_of_stage_text sp : stage_spec_ok sp -> Forall (free_of "010") (stage_text sp).
Proof.
  intros ((Hnn & Hnd) & (_ & _ & Hname) & (_ & Hd & _) & (Hdeps & _) & Hag & Hmc).
  unfold stage_text. repeat apply Forall_cons_2; [| | | | | apply Forall_nil_2].
  - apply (free_of_app _ "### Stage "); [done|]. apply free_of_app.
    + by apply all_digits_free.
    + by apply (free_of_app _ ": ").
  - by apply (free_of_app _ "**Description**: ").
  - apply (free_of_app _ "**Dependencies**: "); [done|]. unfold dependencies_text.
    destruct (is_nil (sp_dependencies sp)); [done|]. apply free_of_join; [done|].
    eapply Forall_impl; [exact Hdeps|]. by intros x ((_ & _ & ?) & _).
  - apply (free_of_app _ "**Recommended Agents**: "); [done|]. apply free_of_join; [done|].
    apply Forall_map. eapply Forall_impl; [exact Hag|].
    intros p (((_ & _ & Hn) & _) & Hr & _). apply free_of_agent_entry; try done.
    destruct (snd p); [apply Hr | done].
  - apply (free_of_app _ "**Suggested MCPs**: "); [done|]. apply free_of_join; [done|].
    eapply Forall_impl; [exact Hmc|]. by intros x (((_ & _ & ?) & _) & _).
Qed.

(** X26: round trip of [_parse_stages].  A stages section made of blocks
    of five lines (the header [### Stage <digits>: <name>], then the
    attributes Description, Dependencies, Recommended Agents and Suggested
    MCPs, the lists joined by [", "], an empty dependency list written
    [None]) parses to the stages with these names, descriptions,
    dependencies, agents without their remarks, and MCPs, in order.  The
    digits of a header are not read: stages are numbered by position. *)
Theorem stages_round_trip (specs : list stage_spec) :
  Forall stage_spec_ok specs ->
  _parse_stages (join newline (flat_map stage_text specs)) = map parsed_stage specs.
Proof.
  intros Hok. rewrite parse_stages_finished.
  destruct specs as [|sp specs]; [reflexivity|].
  rewrite split_lines_join.
  - by rewrite stage_lines_fold.
  - apply Forall_forall. intros l Hl. apply list_elem_of_In, in_flat_map in Hl.
    destruct Hl as (p & Hp & Hl). apply list_elem_of_In in Hp, Hl.
    rewrite Forall_forall in Hok. pose proof (free_of_stage_text p (Hok p Hp)) as Hf.
    rewrite Forall_forall in Hf. by apply Hf.
  - done.
Qed.

Lemma stage_line_bullet acc nm l :
  startswith "- " (strip l) = true ->
  stage_line (acc, Some (mkStage nm "" [] [] [] [] [] [] [] [])) l
  = (acc, Some (mkStage nm "" [] [] [] [] [] [] [] [])).
Proof.
  unfold stage_line. destruct (strip l) as [|a [|b r]]; cbn [startswith]; intros Hl.
  - discriminate.
  - destruct (Ascii.eqb "-" a); discriminate.
  - destruct (Ascii.eqb_spec "-" a) as [<-|]; [|discriminate].
    destruct (Ascii.eqb_spec " " b) as [<-|]; [|discriminate]. reflexivity.
Qed.

(** X27: agents given as a bulleted list under the marker
    [**Recommended Agents**:] are not read.  The marker line alone sets an
    empty agent list, and the bullet lines that follow are skipped, since
    they count only as success criteria, and only once that list has an
    entry. *)
Theorem bulleted_agents_not_read (n nm : string) (bullets : list string) :
  n <> "" -> all_digits n = true -> one_line_text nm ->
  Forall (fun l => free_of "010" l /\ startswith "- " (strip l) = true) bullets ->
  _parse_stages
    (join newline (("### Stage " ++ n ++ ": " ++ nm) :: "**Recommended Agents**:" :: bullets))
  = [mkStage nm "" [] [] [] [] [] [] [] []].
Proof.
  intros Hn Hd (Ht & Hnm & Hf) Hb. rewrite parse_stages_finished, split_lines_join.
  - cbn [fold_left]. rewrite stage_line_header by done.
    assert (Hmark : stage_line ([], Some (mkStage nm "" [] [] [] [] [] [] [] []))
                      "**Recommended Agents**:"
                    = ([], Some (mkStage nm "" [] [] [] [] [] [] [] []))) by reflexivity.
    rewrite Hmark.
    assert (Hloop : fold_left stage_line bullets
                      ([], Some (mkStage nm "" [] [] [] [] [] [] [] []))
                    = ([], Some (mkStage nm "" [] [] [] [] [] [] [] []))).
    { induction Hb as [|l bullets [_ Hl] _ IH]; [done|]. cbn [fold_left].
      by rewrite stage_line_bullet. }
    by rewrite Hloop.
  - apply Forall_cons. split.
    + apply (free_of_app _ "### Stage "); [done|]. apply free_of_app;
        [by apply all_digits_free | by apply (free_of_app _ ": ")].
    + apply Forall_cons. split; [done|]. eapply Forall_impl; [exact Hb|]. by intros l [? _].
  - done.
Qed.


Lemma input_files_silent_witness :
  _validate_input_files sample_env client_workflow (mkReport [] [] [])
  = (inr true, mkReport [] [] []).
Proof.
  apply input_files_silent. split.
  - intros _. eexists. split; reflexivity.
  - intros input_name info p _ _. reflexivity.
Defined.

Lemma sections_round_trip_witness :
  _parse_markdown_sections sample_document
  = list_to_map [("stages", "### Stage 1: Collect"); ("goal", "Audit the site")].
Proof.
  apply (sections_round_trip ["# Site audit"]
           [("Goal", ["Audit the site"]); ("Stages", ["### Stage 1: Collect"])]).
  - repeat first [discriminate | reflexivity | constructor].
  - repeat first [discriminate | reflexivity | constructor].
Defined.

Lemma sections_clean_witness : str_lower "goal" = "goal" /\ trimmed "Audit the site".
Proof.
  apply (sections_clean sample_document "goal" "Audit the site").
  vm_compute. reflexivity.
Defined.

Lemma stages_round_trip_witness :
  _parse_stages (join newline (flat_map stage_text sample_stages))
  = [ mkStage "Collect" "Crawl the site" [] ["SEOAgent"] ["firecrawl"] [] [] [] [] [];
      mkStage "Report" "" ["Stage 1"] ["MetricsAgent"] ["fetch"; "chart-mcp"] [] [] [] [] [] ].
Proof.
  apply (stages_round_trip sample_stages).
  repeat constructor; simpl; try done; intros H; vm_compute in H; discriminate.
Defined.

Lemma bulleted_agents_witness :
  _parse_stages "### Stage 1: Collect
**Recommended Agents**:
- SEOAgent
- MetricsAgent"
  = [mkStage "Collect" "" [] [] [] [] [] [] [] []].
Proof.
  apply (bulleted_agents_not_read "1" "Collect" ["- SEOAgent"; "- MetricsAgent"]).
  - discriminate.
  - reflexivity.
  - repeat split; discriminate.
  - repeat first [discriminate | reflexivity | constructor].
Defined.

